(** * The circular audio buffer of the drawing-with-sound program (A9)

    A shallow embedding of [init_circular_buffer], [write_to_buffer],
    [read_from_buffer], [play_audio] and [stop_audio] of the A9 program
    (two variants of the file exist in the repository, with
    [BUFFER_SIZE] 32768 and 16384), and of [create_circular_buffer] of
    the message buffer of the WASAPI variant.  Around them: the inner
    loop of [alsa_playback_thread], which plays what [read_from_buffer]
    hands over, and of the WASAPI variant [write_message],
    [read_message] and [send_message], [load_wav_file], [start_audio]
    and [stop_audio], and the loop of [audio_thread_func] with the step
    that feeds the device.

    The buffer functions are loops that read two [volatile] flags and
    wait on condition variables.  One pass through the loop is a
    function of the loop state and of an observation: what the flags
    read as in that pass and what a wait came back with.  A call is the
    loop run over a list of observations. *)

From Stdlib Require Import ZArith Lia.
From Stdlib.Strings Require Import Byte.
From stdpp Require Import base tactics option list.

Local Open Scope Z_scope.

(** ** Machine integers *)

(** [size_t] is 64 bits wide; arithmetic on it wraps. *)
Definition SIZE_MAX : Z := 2 ^ 64 - 1.
Definition to_size_t (x : Z) : Z := x mod 2 ^ 64.

(** The functions return [int]: the [size_t] count is converted on
    [return]. *)
Definition INT_MAX : Z := 2 ^ 31 - 1.
Definition to_int (x : Z) : Z := (x + 2 ^ 31) mod 2 ^ 32 - 2 ^ 31.

(** ** Memory *)

(** Arrays and the caller's memory are lists of bytes; offsets and
    lengths are integers, as the code computes them. *)
Definition len (l : list byte) : Z := Z.of_nat (length l).

(** [sub l off n]: the [n] bytes of [l] from offset [off]. *)
Definition sub (l : list byte) (off n : Z) : list byte :=
  take (Z.to_nat n) (drop (Z.to_nat off) l).

(** [blit l off bs]: [l] with [bs] stored from offset [off]. *)
Definition blit (l : list byte) (off : Z) (bs : list byte) : list byte :=
  take (Z.to_nat off) l ++ bs ++ drop (Z.to_nat off + length bs) l.

(** The byte at offset [i], if [l] has one. *)
Definition nthz (l : list byte) (i : Z) : option byte :=
  if i <? 0 then None else l !! Z.to_nat i.

(** [memcpy (dest + doff, source + soff, n)].  A copy that leaves either
    array has no defined result. *)
Definition memcpy (dest : list byte) (doff : Z) (source : list byte) (soff n : Z)
  : option (list byte) :=
  if (0 <=? doff) && (0 <=? soff) && (0 <=? n)
     && (doff + n <=? len dest) && (soff + n <=? len source)
  then Some (blit dest doff (sub source soff n))
  else None.

(** [memset (dest + doff, 0, n)]. *)
Definition memset0 (dest : list byte) (doff n : Z) : option (list byte) :=
  if (0 <=? doff) && (0 <=? n) && (doff + n <=? len dest)
  then Some (blit dest doff (replicate (Z.to_nat n) x00))
  else None.

(** ** The buffer *)

(** [struct CircularBuffer].  The mutex and the two condition variables
    carry no data; waiting on them is part of the observations below. *)
Record CircularBuffer : Type := mkCircularBuffer {
  data : list byte;
  read_pos : Z;
  write_pos : Z;
  size : Z
}.

(** The program's globals that the buffer functions read. *)
Record Globals : Type := mkGlobals {
  audio_buffer : CircularBuffer;
  keep_running : Z;
  is_audio_playing : Z
}.

(** What one pass through a loop observes.  Both flags are [volatile]
    and written by other threads, so the loop condition and the test in
    the empty branch may read different values of [keep_running]. *)
Record Obs : Type := mkObs {
  obs_keep_running : Z;        (* read by the loop condition *)
  obs_keep_running_inner : Z;  (* read by the test in the empty branch *)
  obs_is_audio_playing : Z;    (* read by the test in the empty branch *)
  obs_timed_out : bool;        (* wait_result == ETIMEDOUT *)
  obs_wake : CircularBuffer -> CircularBuffer
    (* what the other threads did to the buffer while the wait had
       released the mutex *)
}.

(** Every call to [memcpy] and [memset] is recorded with its offsets. *)
Inductive mem_event : Type :=
| Memcpy_in (buf_off src_off n : Z)
    (* memcpy(buffer->data + buf_off, data + src_off, n) *)
| Memcpy_out (dst_off buf_off n : Z)
    (* memcpy(data + dst_off, buffer->data + buf_off, n) *)
| Memset_zero (dst_off n : Z).
    (* memset(data + dst_off, 0, n) *)

(** The result of one pass through a loop. *)
Inductive iter (S : Type) : Type :=
| Continue (s : S)   (* back to the loop condition *)
| Exit (s : S)       (* the condition failed, or break *)
| Crash.             (* a copy outside its arrays *)
Arguments Continue {S} s.
Arguments Exit {S} s.
Arguments Crash {S}.

(** The result of a loop or of a call. *)
Inductive outcome (S : Type) : Type :=
| Finished (s : S)   (* the loop was left *)
| Running (s : S)    (* the observations are used up inside the loop *)
| Undefined.
Arguments Finished {S} s.
Arguments Running {S} s.
Arguments Undefined {S}.

Fixpoint loop {S : Type} (body : Obs -> S -> iter S) (env : list Obs) (s : S)
  : outcome S :=
  match env with
  | [] => Running s
  | e :: env' =>
      match body e s with
      | Continue s' => loop body env' s'
      | Exit s' => Finished s'
      | Crash => Undefined
      end
  end.

(** The locals and the memory a call of [write_to_buffer] works on. *)
Record write_state : Type := mkWrite {
  w_buffer : CircularBuffer;
  bytes_written : Z;
  w_trace : list mem_event
}.

(** The same for [read_from_buffer]; [r_data] is the caller's
    destination. *)
Record read_state : Type := mkRead {
  r_buffer : CircularBuffer;
  r_data : list byte;
  bytes_read : Z;
  r_trace : list mem_event
}.

Section RingBuffer.

(** [#define BUFFER_SIZE 32768] in one variant of A9.c, [16384] in the
    other. *)
Variable BUFFER_SIZE : Z.

(** [init_circular_buffer]: the array is left as it is. *)
Definition init_circular_buffer (buffer : CircularBuffer) : CircularBuffer :=
  mkCircularBuffer (data buffer) 0 0 0.

(** One pass through the loop of [write_to_buffer (buffer, src, nbytes)]
    (the C parameters are called [data] and [size], like the fields). *)
Definition write_iter (src : list byte) (nbytes : Z) (e : Obs) (s : write_state)
  : iter write_state :=
  let buffer := w_buffer s in
  let bytes_written := bytes_written s in
  if negb ((bytes_written <? nbytes) && negb (obs_keep_running e =? 0))
  then Exit s
  else
    let available := to_size_t (BUFFER_SIZE - size buffer) in
    if available =? 0 then
      (* pthread_cond_wait(&buffer->not_full, &buffer->mutex); continue; *)
      Continue (mkWrite (obs_wake e buffer) bytes_written (w_trace s))
    else
      let to_write :=
        if to_size_t (nbytes - bytes_written) <? available
        then to_size_t (nbytes - bytes_written) else available in
      let first_chunk := to_size_t (BUFFER_SIZE - write_pos buffer) in
      let copied :=
        if to_write <=? first_chunk then
          d ← memcpy (data buffer) (write_pos buffer) src bytes_written to_write;
          Some (d, to_size_t (write_pos buffer + to_write) mod BUFFER_SIZE,
                [Memcpy_in (write_pos buffer) bytes_written to_write])
        else
          d1 ← memcpy (data buffer) (write_pos buffer) src bytes_written first_chunk;
          d2 ← memcpy d1 0 src (bytes_written + first_chunk)
                      (to_size_t (to_write - first_chunk));
          Some (d2, to_size_t (to_write - first_chunk),
                [Memcpy_in (write_pos buffer) bytes_written first_chunk;
                 Memcpy_in 0 (bytes_written + first_chunk)
                           (to_size_t (to_write - first_chunk))])
      in
      match copied with
      | None => Crash
      | Some (d, wp, evs) =>
          Continue
            (mkWrite
               (mkCircularBuffer d (read_pos buffer) wp
                                 (to_size_t (size buffer + to_write)))
               (to_size_t (bytes_written + to_write))
               (w_trace s ++ evs))
      end.

Definition write_loop (buffer : CircularBuffer) (src : list byte) (nbytes : Z)
    (env : list Obs) : outcome write_state :=
  loop (write_iter src nbytes) env (mkWrite buffer 0 []).

(** The copy out of the buffer; both variants of [read_from_buffer]
    have the same text for it. *)
Definition read_copy (nbytes : Z) (s : read_state) : iter read_state :=
  let buffer := r_buffer s in
  let bytes_read := bytes_read s in
  let to_read :=
    if to_size_t (nbytes - bytes_read) <? size buffer
    then to_size_t (nbytes - bytes_read) else size buffer in
  let first_chunk := to_size_t (BUFFER_SIZE - read_pos buffer) in
  let copied :=
    if to_read <=? first_chunk then
      d ← memcpy (r_data s) bytes_read (data buffer) (read_pos buffer) to_read;
      Some (d, to_size_t (read_pos buffer + to_read) mod BUFFER_SIZE,
            [Memcpy_out bytes_read (read_pos buffer) to_read])
    else
      d1 ← memcpy (r_data s) bytes_read (data buffer) (read_pos buffer) first_chunk;
      d2 ← memcpy d1 (bytes_read + first_chunk) (data buffer) 0
                  (to_size_t (to_read - first_chunk));
      Some (d2, to_size_t (to_read - first_chunk),
            [Memcpy_out bytes_read (read_pos buffer) first_chunk;
             Memcpy_out (bytes_read + first_chunk) 0
                        (to_size_t (to_read - first_chunk))])
  in
  match copied with
  | None => Crash
  | Some (d, rp, evs) =>
      Continue
        (mkRead
           (mkCircularBuffer (data buffer) rp (write_pos buffer)
                             (to_size_t (size buffer - to_read)))
           d
           (to_size_t (bytes_read + to_read))
           (r_trace s ++ evs))
  end.

(** One pass through the loop of [read_from_buffer (buffer, dst, nbytes)]
    of the variant with [BUFFER_SIZE] 32768. *)
Definition read_iter (nbytes : Z) (e : Obs) (s : read_state) : iter read_state :=
  let buffer := r_buffer s in
  let bytes_read := bytes_read s in
  if negb ((bytes_read <? nbytes) && negb (obs_keep_running e =? 0))
  then Exit s
  else if size buffer =? 0 then
    if (obs_keep_running_inner e =? 0) || (obs_is_audio_playing e =? 0) then
      (* memset(data + bytes_read, 0, size - bytes_read);
         bytes_read = size; break; *)
      match memset0 (r_data s) bytes_read (to_size_t (nbytes - bytes_read)) with
      | None => Crash
      | Some d =>
          Exit (mkRead buffer d nbytes
                  (r_trace s
                   ++ [Memset_zero bytes_read (to_size_t (nbytes - bytes_read))]))
      end
    else
      (* pthread_cond_timedwait(&buffer->not_empty, &buffer->mutex, &timeout) *)
      let buffer' := obs_wake e buffer in
      if obs_timed_out e then
        let silence_size := nbytes / 10 in
        if 0 <? silence_size then
          match memset0 (r_data s) bytes_read silence_size with
          | None => Crash
          | Some d =>
              Continue (mkRead buffer' d (to_size_t (bytes_read + silence_size))
                          (r_trace s ++ [Memset_zero bytes_read silence_size]))
          end
        else Continue (mkRead buffer' (r_data s) bytes_read (r_trace s))
      else Continue (mkRead buffer' (r_data s) bytes_read (r_trace s))
  else read_copy nbytes s.

Definition read_loop (buffer : CircularBuffer) (dst : list byte) (nbytes : Z)
    (env : list Obs) : outcome read_state :=
  loop (read_iter nbytes) env (mkRead buffer dst 0 []).

(** The same pass in the variant with [BUFFER_SIZE] 16384 (directory
    "Ahmad (Used)"): the empty branch tests [keep_running] alone and
    waits without a timeout. *)
Definition Ahmad_read_iter (nbytes : Z) (e : Obs) (s : read_state)
  : iter read_state :=
  let buffer := r_buffer s in
  let bytes_read := bytes_read s in
  if negb ((bytes_read <? nbytes) && negb (obs_keep_running e =? 0))
  then Exit s
  else if size buffer =? 0 then
    if obs_keep_running_inner e =? 0 then
      match memset0 (r_data s) bytes_read (to_size_t (nbytes - bytes_read)) with
      | None => Crash
      | Some d =>
          Exit (mkRead buffer d nbytes
                  (r_trace s
                   ++ [Memset_zero bytes_read (to_size_t (nbytes - bytes_read))]))
      end
    else
      (* pthread_cond_wait(&buffer->not_empty, &buffer->mutex); continue; *)
      Continue (mkRead (obs_wake e buffer) (r_data s) bytes_read (r_trace s))
  else read_copy nbytes s.

Definition Ahmad_read_loop (buffer : CircularBuffer) (dst : list byte)
    (nbytes : Z) (env : list Obs) : outcome read_state :=
  loop (Ahmad_read_iter nbytes) env (mkRead buffer dst 0 []).

End RingBuffer.

(** The two values of [BUFFER_SIZE] in the repository. *)
Definition A9_BUFFER_SIZE : Z := 32768.
Definition Ahmad_BUFFER_SIZE : Z := 16384.

(** What a call hands back: the [int] it returns and the memory it
    leaves. *)
Definition write_to_buffer (BUFFER_SIZE : Z) (buffer : CircularBuffer)
    (src : list byte) (nbytes : Z) (env : list Obs)
  : outcome (Z * CircularBuffer) :=
  match write_loop BUFFER_SIZE buffer src nbytes env with
  | Finished s => Finished (to_int (bytes_written s), w_buffer s)
  | Running s => Running (to_int (bytes_written s), w_buffer s)
  | Undefined => Undefined
  end.

Definition read_from_buffer (BUFFER_SIZE : Z) (buffer : CircularBuffer)
    (dst : list byte) (nbytes : Z) (env : list Obs)
  : outcome (Z * CircularBuffer * list byte) :=
  match read_loop BUFFER_SIZE buffer dst nbytes env with
  | Finished s => Finished (to_int (bytes_read s), r_buffer s, r_data s)
  | Running s => Running (to_int (bytes_read s), r_buffer s, r_data s)
  | Undefined => Undefined
  end.

Definition Ahmad_read_from_buffer (BUFFER_SIZE : Z) (buffer : CircularBuffer)
    (dst : list byte) (nbytes : Z) (env : list Obs)
  : outcome (Z * CircularBuffer * list byte) :=
  match Ahmad_read_loop BUFFER_SIZE buffer dst nbytes env with
  | Finished s => Finished (to_int (bytes_read s), r_buffer s, r_data s)
  | Running s => Running (to_int (bytes_read s), r_buffer s, r_data s)
  | Undefined => Undefined
  end.

(** [play_audio] and [stop_audio]. *)
Definition play_audio (g : Globals) : Globals :=
  mkGlobals (audio_buffer g) (keep_running g) 1.

Definition stop_audio (g : Globals) : Globals :=
  mkGlobals (audio_buffer g) (keep_running g) 0.

(** A pass in which no other thread interferes: the flags read as the
    globals have them, and a timed wait runs into its timeout with the
    buffer as it was. *)
Definition quiet (g : Globals) : Obs :=
  mkObs (keep_running g) (keep_running g) (is_audio_playing g) true id.

(** ** The buffer between calls *)

(** The array has [BUFFER_SIZE] bytes, the fill count and the positions
    are in range, and the count is the distance from [read_pos] to
    [write_pos] round the array. *)
Definition buf_inv (BUFFER_SIZE : Z) (b : CircularBuffer) : Prop :=
  len (data b) = BUFFER_SIZE
  /\ 0 <= size b <= BUFFER_SIZE
  /\ 0 <= read_pos b < BUFFER_SIZE
  /\ 0 <= write_pos b < BUFFER_SIZE
  /\ size b mod BUFFER_SIZE = (write_pos b - read_pos b) mod BUFFER_SIZE.

(** The buffered bytes, oldest first: [size] bytes from [read_pos] on,
    going round the end of the array. *)
Definition contents (b : CircularBuffer) : list byte :=
  sub (data b ++ data b) (read_pos b) (size b).

(** ** Calls one after another *)

Inductive call : Type :=
| Write (src : list byte) (nbytes : Z) (env : list Obs)
| Read (dst : list byte) (nbytes : Z) (env : list Obs).

(** The buffer, the bytes handed to the writes so far and the bytes the
    reads gave back so far. *)
Record session : Type := mkSession {
  buffer_now : CircularBuffer;
  supplied : list byte;
  delivered : list byte
}.

Fixpoint run (BUFFER_SIZE : Z) (calls : list call) (t : session) : option session :=
  match calls with
  | [] => Some t
  | Write src nbytes env :: calls' =>
      match write_to_buffer BUFFER_SIZE (buffer_now t) src nbytes env with
      | Finished (_, b') =>
          run BUFFER_SIZE calls'
            (mkSession b' (supplied t ++ sub src 0 nbytes) (delivered t))
      | _ => None
      end
  | Read dst nbytes env :: calls' =>
      match read_from_buffer BUFFER_SIZE (buffer_now t) dst nbytes env with
      | Finished (ret, b', dst') =>
          run BUFFER_SIZE calls'
            (mkSession b' (supplied t) (delivered t ++ sub dst' 0 ret))
      | _ => None
      end
  end.

(** The environment of a call that runs while the program is not
    shutting down: it has observations for two passes, and the loop
    condition reads [keep_running] as set. *)
Definition alive (env : list Obs) : bool :=
  match env with
  | e :: _ :: _ => negb (obs_keep_running e =? 0)
  | _ => false
  end.

(** No call of the sequence has to wait: with [filled] bytes buffered
    at the start, every write finds room for all its bytes and every
    read finds all the bytes it asks for. *)
Fixpoint no_wait (BUFFER_SIZE : Z) (calls : list call) (filled : Z) : bool :=
  match calls with
  | [] => true
  | Write src nbytes env :: calls' =>
      (0 <=? nbytes) && (nbytes <=? BUFFER_SIZE - filled) && (nbytes <=? len src)
      && alive env && no_wait BUFFER_SIZE calls' (filled + nbytes)
  | Read dst nbytes env :: calls' =>
      (0 <=? nbytes) && (nbytes <=? filled) && (nbytes <=? len dst)
      && alive env && no_wait BUFFER_SIZE calls' (filled - nbytes)
  end.

(** The part of the backing array a [memcpy] reads or writes lies
    inside the array. *)
Definition in_array (BUFFER_SIZE : Z) (ev : mem_event) : Prop :=
  match ev with
  | Memcpy_in off _ n | Memcpy_out _ off n =>
      0 <= off /\ 0 <= n /\ off + n <= BUFFER_SIZE
  | Memset_zero _ _ => True
  end.

(** While a wait has released the mutex, the other threads leave the
    buffer in a state of the invariant (they go through the two
    functions, too). *)
Definition wake_ok (BUFFER_SIZE : Z) (e : Obs) : Prop :=
  forall b, buf_inv BUFFER_SIZE b -> buf_inv BUFFER_SIZE (obs_wake e b).

(** What holds of the state of a running [write_to_buffer] and
    [read_from_buffer] at the loop condition. *)
Definition write_inv (BUFFER_SIZE nbytes : Z) (s : write_state) : Prop :=
  buf_inv BUFFER_SIZE (w_buffer s)
  /\ 0 <= bytes_written s <= nbytes
  /\ Forall (in_array BUFFER_SIZE) (w_trace s).

Definition read_inv (BUFFER_SIZE : Z) (s : read_state) : Prop :=
  buf_inv BUFFER_SIZE (r_buffer s)
  /\ 0 <= bytes_read s <= SIZE_MAX
  /\ Forall (in_array BUFFER_SIZE) (r_trace s).

(** At the loop condition of [read_from_buffer] the count is at most
    [nbytes + nbytes / 10]: the last block of silence can go past the
    bytes asked for. *)
Definition read_room (BUFFER_SIZE nbytes room : Z) (s : read_state) : Prop :=
  read_inv BUFFER_SIZE s
  /\ bytes_read s <= nbytes + nbytes / 10
  /\ len (r_data s) = room.

(** The buffer after each call of a sequence, up to the first call
    that does not return. *)
Fixpoint states (BUFFER_SIZE : Z) (calls : list call) (b : CircularBuffer)
  : list CircularBuffer :=
  match calls with
  | [] => []
  | Write src nbytes env :: calls' =>
      match write_to_buffer BUFFER_SIZE b src nbytes env with
      | Finished (_, b') => b' :: states BUFFER_SIZE calls' b'
      | Running (_, b') => [b']
      | Undefined => []
      end
  | Read dst nbytes env :: calls' =>
      match read_from_buffer BUFFER_SIZE b dst nbytes env with
      | Finished (_, b', _) => b' :: states BUFFER_SIZE calls' b'
      | Running (_, b', _) => [b']
      | Undefined => []
      end
  end.

(** The requested length of a call is a [size_t], and what its waits
    come back with keeps the invariant. *)
Definition call_ok (BUFFER_SIZE : Z) (c : call) : Prop :=
  match c with
  | Write _ nbytes env | Read _ nbytes env =>
      0 <= nbytes <= SIZE_MAX /\ Forall (wake_ok BUFFER_SIZE) env
  end.

(** A pass of a reader while audio is playing and the program keeps
    running, whose wait on an empty buffer runs into the timeout
    without data having arrived. *)
Definition starved (e : Obs) : Prop :=
  obs_keep_running e <> 0
  /\ obs_keep_running_inner e <> 0
  /\ obs_is_audio_playing e <> 0
  /\ obs_timed_out e = true
  /\ forall b, size b = 0 -> size (obs_wake e b) = 0.

(** ** The two threads at one buffer *)

(** What the consumer does to the buffer while a writer waits: it takes
    bytes out at the front and keeps the invariant. *)
Definition takes_out (BUFFER_SIZE : Z) (f : CircularBuffer -> CircularBuffer)
  : Prop :=
  forall b, buf_inv BUFFER_SIZE b ->
            buf_inv BUFFER_SIZE (f b)
            /\ exists taken, contents b = taken ++ contents (f b).

(** What the producer does to the buffer while a reader waits: it puts
    bytes in at the back and keeps the invariant. *)
Definition puts_in (BUFFER_SIZE : Z) (f : CircularBuffer -> CircularBuffer)
  : Prop :=
  forall b, buf_inv BUFFER_SIZE b ->
            buf_inv BUFFER_SIZE (f b)
            /\ exists added, contents (f b) = contents b ++ added.

(** A pass of a writer while the program keeps running, whose wait at a
    full buffer ends with room in the buffer. *)
Definition frees_room (BUFFER_SIZE : Z) (e : Obs) : Prop :=
  obs_keep_running e <> 0
  /\ wake_ok BUFFER_SIZE e
  /\ forall b, buf_inv BUFFER_SIZE b -> size (obs_wake e b) < BUFFER_SIZE.

(** The other thread as a wait sees it: a call of [read_from_buffer]
    that finds the [m] bytes it asks for, and a call of
    [write_to_buffer] that finds room for its [m] bytes; when it would
    have to wait itself, the buffer stays as it is. *)
Definition reader (BUFFER_SIZE : Z) (dst : list byte) (m : Z)
    (b : CircularBuffer) : CircularBuffer :=
  if (0 <=? m) && (m <=? size b) && (m <=? len dst) then
    match read_loop BUFFER_SIZE b dst m
            [quiet (mkGlobals b 1 1); quiet (mkGlobals b 1 1)] with
    | Finished s => r_buffer s
    | _ => b
    end
  else b.

Definition writer (BUFFER_SIZE : Z) (src : list byte) (m : Z)
    (b : CircularBuffer) : CircularBuffer :=
  if (0 <=? m) && (m <=? BUFFER_SIZE - size b) && (m <=? len src) then
    match write_loop BUFFER_SIZE b src m
            [quiet (mkGlobals b 1 1); quiet (mkGlobals b 1 1)] with
    | Finished s => w_buffer s
    | _ => b
    end
  else b.

(** No [memset] among the recorded calls. *)
Definition no_silence (tr : list mem_event) : Prop :=
  Forall (fun ev => match ev with Memset_zero _ _ => False | _ => True end) tr.

(** What holds of a running reader of the variant with 16384 bytes
    while [keep_running] stays set: it has counted no more than
    [nbytes], called no [memset], and what it has stored followed by
    what is buffered is [stream]. *)
Definition stream_inv (BUFFER_SIZE nbytes room : Z) (stream : list byte)
    (s : read_state) : Prop :=
  buf_inv BUFFER_SIZE (r_buffer s)
  /\ 0 <= bytes_read s <= nbytes
  /\ len (r_data s) = room
  /\ no_silence (r_trace s)
  /\ sub (r_data s) 0 (bytes_read s) ++ contents (r_buffer s) = stream.

(** A pass of a reader while the program keeps running, whose wait at
    an empty buffer ends with bytes in the buffer that the producer has
    put in. *)
Definition supplies (BUFFER_SIZE : Z) (e : Obs) : Prop :=
  obs_keep_running e <> 0
  /\ obs_keep_running_inner e <> 0
  /\ puts_in BUFFER_SIZE (obs_wake e)
  /\ forall b, buf_inv BUFFER_SIZE b -> 0 < size (obs_wake e b).

(** The passes a starved call of [read_from_buffer (.., nbytes)] makes
    before its count reaches [nbytes]: [nbytes / (nbytes / 10)], rounded
    up. *)
Definition silence_blocks (nbytes : Z) : Z :=
  (nbytes + nbytes / 10 - 1) / (nbytes / 10).

(** ** What the waits of a call have seen *)

(** What the other thread has done when a wait returns, read off the
    buffer before and after: the bytes at the front that are no longer
    buffered, and the bytes at the back that were not buffered before. *)
Definition removed (f : CircularBuffer -> CircularBuffer) (b : CircularBuffer)
  : list byte :=
  sub (contents b) 0 (size b - size (f b)).

Definition appended (f : CircularBuffer -> CircularBuffer) (b : CircularBuffer)
  : list byte :=
  sub (contents (f b)) (size b) (size (f b) - size b).

(** Whether a pass reaches the wait of its function: the loop condition
    holds, the buffer is full (for a writer) or empty (for a reader),
    and a reader does not take the branch that fills in silence. *)
Definition write_waits (BUFFER_SIZE nbytes : Z) (e : Obs) (s : write_state)
  : bool :=
  (bytes_written s <? nbytes) && negb (obs_keep_running e =? 0)
  && (to_size_t (BUFFER_SIZE - size (w_buffer s)) =? 0).

Definition read_waits (nbytes : Z) (e : Obs) (s : read_state) : bool :=
  (bytes_read s <? nbytes) && negb (obs_keep_running e =? 0)
  && (size (r_buffer s) =? 0)
  && negb ((obs_keep_running_inner e =? 0) || (obs_is_audio_playing e =? 0)).

Definition Ahmad_read_waits (nbytes : Z) (e : Obs) (s : read_state) : bool :=
  (bytes_read s <? nbytes) && negb (obs_keep_running e =? 0)
  && (size (r_buffer s) =? 0)
  && negb (obs_keep_running_inner e =? 0).

(** The bytes [seen] at the passes of a loop, pass after pass, for as
    long as the loop runs. *)
Fixpoint during {S : Type} (body : Obs -> S -> iter S)
    (seen : Obs -> S -> list byte) (env : list Obs) (s : S) : list byte :=
  match env with
  | [] => []
  | e :: env' =>
      seen e s ++ match body e s with
                  | Continue s' => during body seen env' s'
                  | _ => []
                  end
  end.

(** The bytes the consumer has taken out of the buffer during the waits
    of a call of [write_to_buffer], in the order in which they left. *)
Definition taken_at (BUFFER_SIZE nbytes : Z) (e : Obs) (s : write_state)
  : list byte :=
  if write_waits BUFFER_SIZE nbytes e s
  then removed (obs_wake e) (w_buffer s) else [].

Definition taken_during (BUFFER_SIZE : Z) (buffer : CircularBuffer)
    (src : list byte) (nbytes : Z) (env : list Obs) : list byte :=
  during (write_iter BUFFER_SIZE src nbytes) (taken_at BUFFER_SIZE nbytes) env
    (mkWrite buffer 0 []).

(** The bytes the producer has put into the buffer during the waits of
    a call of [read_from_buffer], in the order in which they came, for
    each of the two variants. *)
Definition arrived_at (nbytes : Z) (e : Obs) (s : read_state) : list byte :=
  if read_waits nbytes e s
  then appended (obs_wake e) (r_buffer s) else [].

Definition arrived_during (BUFFER_SIZE : Z) (buffer : CircularBuffer)
    (dst : list byte) (nbytes : Z) (env : list Obs) : list byte :=
  during (read_iter BUFFER_SIZE nbytes) (arrived_at nbytes) env
    (mkRead buffer dst 0 []).

Definition Ahmad_arrived_at (nbytes : Z) (e : Obs) (s : read_state)
  : list byte :=
  if Ahmad_read_waits nbytes e s
  then appended (obs_wake e) (r_buffer s) else [].

Definition Ahmad_arrived_during (BUFFER_SIZE : Z) (buffer : CircularBuffer)
    (dst : list byte) (nbytes : Z) (env : list Obs) : list byte :=
  during (Ahmad_read_iter BUFFER_SIZE nbytes) (Ahmad_arrived_at nbytes) env
    (mkRead buffer dst 0 []).

(** ** The message buffer of the WASAPI variant of the program *)

Module Messages.

Inductive MessageType : Type :=
| MSG_START_AUDIO
| MSG_STOP_AUDIO
| MSG_EXIT.

Record Message : Type := mkMessage { type : MessageType }.

(** [struct CircularBuffer] of that variant: an allocated array of
    [size] messages, two positions and the number of messages. *)
Record CircularBuffer : Type := mkCircularBuffer {
  buffer : list Message;
  size : Z;
  read_pos : Z;
  write_pos : Z;
  count : Z
}.

(** [sizeof(Message)]: one [enum]. *)
Definition sizeof_Message : Z := 4.

(** What [malloc] answers: whether there is memory for the struct, and,
    for the number of bytes asked for the array, [NULL] or fresh
    cells. *)
Record allocator : Type := mkAllocator {
  malloc_struct : bool;
  malloc_array : Z -> option (list Message)
}.

(** [create_circular_buffer (size)]; [None] is [NULL]. *)
Definition create_circular_buffer (heap : allocator) (size : Z)
  : option CircularBuffer :=
  if negb (malloc_struct heap) then None
  else
    match malloc_array heap (to_size_t (sizeof_Message * size)) with
    | None => None   (* free(buffer); return NULL; *)
    | Some cells => Some (mkCircularBuffer cells size 0 0 0)
    end.

(** An allocator with memory for every request, and one with none. *)
Definition generous : allocator :=
  mkAllocator true
    (fun bytes => Some (replicate (Z.to_nat (bytes / sizeof_Message))
                          (mkMessage MSG_EXIT))).


End Messages.

(** ** Messages between the two threads of the WASAPI variant *)

Module MessagePassing.
Import Messages.

Definition TRUE : Z := 1.
Definition FALSE : Z := 0.

(** A call returns, or it is still in its wait loop when the wake-ups
    listed are used up, or it goes wrong: an array cell that does not
    exist, a remainder by zero, an [int] out of range. *)
Inductive result (A : Type) : Type :=
| Returned (a : A)
| Blocked
| Erroneous.
Arguments Returned {A} a.
Arguments Blocked {A}.
Arguments Erroneous {A}.

(** [while (cond) { ReleaseMutex (mutex);
                    WaitForSingleObject (event, INFINITE);
                    WaitForSingleObject (mutex, INFINITE); }]:
    every wake-up comes with what the other thread did to the buffer
    while the mutex was released. *)
Fixpoint wait_while (cond : CircularBuffer -> bool)
    (wakes : list (CircularBuffer -> CircularBuffer)) (b : CircularBuffer)
  : option CircularBuffer :=
  if cond b then
    match wakes with
    | [] => None
    | w :: wakes' => wait_while cond wakes' (w b)
    end
  else Some b.

(** [write_message (buffer, msg, ..)]: the [BOOL] returned and the
    buffer. *)
Definition write_message (b0 : CircularBuffer) (msg : Message)
    (wakes : list (CircularBuffer -> CircularBuffer))
  : result (Z * CircularBuffer) :=
  match wait_while (fun b => count b =? size b) wakes b0 with
  | None => Blocked
  | Some b =>
      if (0 <=? write_pos b) && (write_pos b <? Z.of_nat (length (buffer b)))
         && negb (size b =? 0)
         && (write_pos b + 1 <=? INT_MAX) && (count b + 1 <=? INT_MAX)
      then
        Returned
          (TRUE,
           mkCircularBuffer
             (<[Z.to_nat (write_pos b) := msg]> (buffer b))
             (size b)
             (read_pos b)
             (Z.rem (write_pos b + 1) (size b))
             (count b + 1))
      else Erroneous
  end.

(** [read_message (buffer, &msg, ..)]: the [BOOL] returned, the message
    stored in [msg] and the buffer. *)
Definition read_message (b0 : CircularBuffer)
    (wakes : list (CircularBuffer -> CircularBuffer))
  : result (Z * Message * CircularBuffer) :=
  match wait_while (fun b => count b =? 0) wakes b0 with
  | None => Blocked
  | Some b =>
      match (if 0 <=? read_pos b then buffer b !! Z.to_nat (read_pos b)
             else None) with
      | None => Erroneous
      | Some msg =>
          if negb (size b =? 0)
             && (read_pos b + 1 <=? INT_MAX) && (- 2 ^ 31 <=? count b - 1)
          then
            Returned
              (TRUE, msg,
               mkCircularBuffer
                 (buffer b)
                 (size b)
                 (Z.rem (read_pos b + 1) (size b))
                 (write_pos b)
                 (count b - 1))
          else Erroneous
      end
  end.

(** [send_message (app, type)], on the message buffer of [app]. *)
Definition send_message (b0 : CircularBuffer) (type : MessageType)
    (wakes : list (CircularBuffer -> CircularBuffer))
  : result CircularBuffer :=
  match write_message b0 (mkMessage type) wakes with
  | Returned (_, b) => Returned b
  | Blocked => Blocked
  | Erroneous => Erroneous
  end.

(** The buffer between calls: the array has [size] cells, the number of
    messages and the positions are in range, and [write_pos] is [count]
    cells after [read_pos], round the array. *)
Definition queue_inv (b : CircularBuffer) : Prop :=
  Z.of_nat (length (buffer b)) = size b
  /\ 0 < size b <= INT_MAX
  /\ 0 <= count b <= size b
  /\ 0 <= read_pos b < size b
  /\ write_pos b = (read_pos b + count b) mod size b.

(** The messages waiting in the buffer, oldest first. *)
Definition pending (b : CircularBuffer) : list Message :=
  take (Z.to_nat (count b))
       (drop (Z.to_nat (read_pos b)) (buffer b ++ buffer b)).

(** The buffer after [write_message] and after [read_message] have
    passed their wait loops. *)
Definition stored (b : CircularBuffer) (msg : Message) : CircularBuffer :=
  mkCircularBuffer (<[Z.to_nat (write_pos b) := msg]> (buffer b)) (size b)
    (read_pos b) ((write_pos b + 1) mod size b) (count b + 1).

Definition fetched (b : CircularBuffer) : CircularBuffer :=
  mkCircularBuffer (buffer b) (size b) ((read_pos b + 1) mod size b)
    (write_pos b) (count b - 1).

(** The GUI thread sends, the audio thread receives. *)
Inductive op : Type :=
| Send (type : MessageType)
| Receive.

Record exchange_state : Type := mkExchange {
  queue : CircularBuffer;
  sent : list Message;
  received : list Message
}.

(** Calls one after another, none of them woken by the other thread. *)
Fixpoint exchange (ops : list op) (t : exchange_state) : result exchange_state :=
  match ops with
  | [] => Returned t
  | Send type :: ops' =>
      match send_message (queue t) type [] with
      | Returned b =>
          exchange ops' (mkExchange b (sent t ++ [mkMessage type]) (received t))
      | Blocked => Blocked
      | Erroneous => Erroneous
      end
  | Receive :: ops' =>
      match read_message (queue t) [] with
      | Returned (_, msg, b) =>
          exchange ops' (mkExchange b (sent t) (received t ++ [msg]))
      | Blocked => Blocked
      | Erroneous => Erroneous
      end
  end.

(** No call of the sequence finds the buffer full, or empty, when it
    must not be: [n] is the number of messages in a buffer of [cap]
    cells. *)
Fixpoint never_waits (ops : list op) (n cap : Z) : bool :=
  match ops with
  | [] => true
  | Send _ :: ops' => (n <? cap) && never_waits ops' (n + 1) cap
  | Receive :: ops' => (0 <? n) && never_waits ops' (n - 1) cap
  end.

(** A call of one of the two functions by the other thread. *)
Definition sender (type : MessageType) (b : CircularBuffer) : CircularBuffer :=
  match send_message b type [] with
  | Returned b' => b'
  | _ => b
  end.

Definition receiver (b : CircularBuffer) : CircularBuffer :=
  match read_message b [] with
  | Returned (_, _, b') => b'
  | _ => b
  end.

(** [BUFFER_SIZE] of that variant, the number of cells of its message
    buffer, and buffers for the scenarios: the one the program creates,
    and buffers of three cells with two and with three messages that go
    round the end of the array. *)
Definition BUFFER_SIZE : Z := 10.

Definition fresh10 : CircularBuffer :=
  mkCircularBuffer (replicate 10 (mkMessage MSG_EXIT)) 10 0 0 0.

Definition busy3 : CircularBuffer :=
  mkCircularBuffer
    [mkMessage MSG_STOP_AUDIO; mkMessage MSG_EXIT; mkMessage MSG_START_AUDIO]
    3 2 1 2.

Definition full3 : CircularBuffer :=
  mkCircularBuffer
    [mkMessage MSG_STOP_AUDIO; mkMessage MSG_EXIT; mkMessage MSG_START_AUDIO]
    3 2 2 3.

(** Press, release and press again before the audio thread has taken
    the first message; then it takes all three. *)
Definition clicks : list op :=
  [Send MSG_START_AUDIO; Send MSG_STOP_AUDIO; Receive;
   Send MSG_START_AUDIO; Receive; Receive].

End MessagePassing.

(** ** Feeding the WASAPI device *)

(** [UINT32] and [DWORD] arithmetic wraps at [2 ^ 32]. *)
Definition to_uint32 (x : Z) : Z := x mod 2 ^ 32.

(** The step of the loop of [audio_thread_func] that copies
    [frames_to_write] frames of the clip into the buffer the device has
    handed out, from [current_position] on and going back to the start
    of the clip at its end: the buffer after the copies and the new
    [current_position].  [None] is a division by zero or a copy outside
    the clip or the device's buffer. *)
Definition feed (audio_data : list byte)
    (audio_data_size bytes_per_frame frames_to_write current_position : Z)
    (buffer_data : list byte) : option (list byte * Z) :=
  if bytes_per_frame =? 0 then None
  else
    let frames_available :=
      to_uint32 (audio_data_size - current_position) / bytes_per_frame in
    if frames_available <? frames_to_write then
      let frames_to_copy := frames_available in
      d1 ← (if 0 <? frames_to_copy
            then memcpy buffer_data 0 audio_data current_position
                        (to_uint32 (frames_to_copy * bytes_per_frame))
            else Some buffer_data);
      d2 ← (if frames_to_copy <? frames_to_write
            then memcpy d1 (to_uint32 (frames_to_copy * bytes_per_frame))
                        audio_data 0
                        (to_uint32 (to_uint32 (frames_to_write - frames_to_copy)
                                    * bytes_per_frame))
            else Some d1);
      Some (d2,
            to_uint32 (to_uint32 (frames_to_write - frames_to_copy)
                       * bytes_per_frame))
    else
      d ← memcpy buffer_data 0 audio_data current_position
                 (to_uint32 (frames_to_write * bytes_per_frame));
      Some (d, to_uint32 (current_position
                          + to_uint32 (frames_to_write * bytes_per_frame))).

(** A clip of twelve bytes in frames of four, and a device buffer. *)
Definition clip12 : list byte :=
  [x01; x02; x03; x04; x05; x06; x07; x08; x09; x0a; x0b; x0c].

(** ** Loading the clip: [load_wav_file] of the WASAPI variant *)

Module Wav.

Inductive HRESULT : Type := S_OK | E_FAIL | E_OUTOFMEMORY.

Record WAVEFORMATEX : Type := mkWAVEFORMATEX {
  wFormatTag : Z;
  nChannels : Z;
  nSamplesPerSec : Z;
  nAvgBytesPerSec : Z;
  nBlockAlign : Z;
  wBitsPerSample : Z;
  cbSize : Z
}.

(** The fields of [AppState] that [load_wav_file] writes; [None] is a
    null pointer. *)
Record AppState : Type := mkAppState {
  wave_format : option WAVEFORMATEX;
  audio_data : option (list byte);
  audio_data_size : Z;
  audio_sample_count : Z
}.

(** A stream of the C library, open for reading: the bytes of the file,
    the position and the end-of-file indicator. *)
Record FILE : Type := mkFILE {
  content : list byte;
  position : Z;
  at_eof : bool
}.

(** [fread (ptr, size, count, file)]: the number of whole items read,
    the bytes stored at [ptr] and the stream.  A read that finds fewer
    bytes than it asks for stores those and sets the indicator. *)
Definition fread (size count : Z) (file : FILE) : Z * list byte * FILE :=
  let wanted := size * count in
  let left := Z.max 0 (len (content file) - position file) in
  let n := Z.min wanted left in
  (if size =? 0 then 0 else n / size,
   sub (content file) (position file) n,
   mkFILE (content file) (position file + n) (at_eof file || (n <? wanted))).

(** An unsigned 32-bit value passed for a [long] of 32 bits. *)
Definition to_long (x : Z) : Z := (x + 2 ^ 31) mod 2 ^ 32 - 2 ^ 31.

(** [fseek (file, offset, SEEK_CUR)]: a position before the start of
    the file is refused; otherwise the position is set (also behind the
    end of the file) and the indicator cleared. *)
Definition fseek_cur (file : FILE) (offset : Z) : FILE :=
  if position file + offset <? 0 then file
  else mkFILE (content file) (position file + offset) false.

(** [memcmp (a, b, n) == 0]. *)
Definition memcmp_eq (a b : list byte) (n : Z) : bool :=
  bool_decide (map Byte.to_N (sub a 0 n) = map Byte.to_N (sub b 0 n)).

(** The value of a little-endian [WORD] or [DWORD] in memory. *)
Fixpoint le (bs : list byte) : Z :=
  match bs with
  | [] => 0
  | b :: bs' => Z.of_N (Byte.to_N b) + 256 * le bs'
  end.

(** The four-character codes: "RIFF", "WAVE", "fmt " and "data". *)
Definition RIFF : list byte := [x52; x49; x46; x46].
Definition WAVE : list byte := [x57; x41; x56; x45].
Definition fmt_ : list byte := [x66; x6d; x74; x20].
Definition data_ : list byte := [x64; x61; x74; x61].

(** [fread (&x, size, 1, file) != 1] and the value read. *)
Definition read_value (size : Z) (file : FILE) : option Z * FILE :=
  let '(n, got, file') := fread size 1 file in
  (if n =? 1 then Some (le got) else None, file').

(** How one of the two [while (1)] loops ends. *)
Inductive search (A : Type) : Type :=
| Found (a : A)           (* break *)
| GiveUp (hr : HRESULT)   (* fclose (file); return hr; *)
| NoMemory                (* malloc returned NULL *)
| DivisionByZero
| OutOfFuel.
Arguments Found {A} a.
Arguments GiveUp {A} hr.
Arguments NoMemory {A}.
Arguments DivisionByZero {A}.
Arguments OutOfFuel {A}.

(** The loop that looks for the format chunk. *)
Fixpoint find_fmt (fuel : nat) (file : FILE) : search (WAVEFORMATEX * FILE) :=
  match fuel with
  | O => OutOfFuel
  | S fuel' =>
      let '(n, chunk_id, file) := fread 1 4 file in
      if negb (n =? 4) then GiveUp E_FAIL
      else
        match read_value 4 file with
        | (None, _) => GiveUp E_FAIL
        | (Some chunk_size, file) =>
            if memcmp_eq chunk_id fmt_ 4 then
              match read_value 2 file with
              | (None, _) => GiveUp E_FAIL
              | (Some format_tag, file) =>
              match read_value 2 file with
              | (None, _) => GiveUp E_FAIL
              | (Some channels, file) =>
              match read_value 4 file with
              | (None, _) => GiveUp E_FAIL
              | (Some samples_per_sec, file) =>
              match read_value 4 file with
              | (None, _) => GiveUp E_FAIL
              | (Some avg_bytes_per_sec, file) =>
              match read_value 2 file with
              | (None, _) => GiveUp E_FAIL
              | (Some block_align, file) =>
              match read_value 2 file with
              | (None, _) => GiveUp E_FAIL
              | (Some bits_per_sample, file) =>
                  let file :=
                    if 16 <? chunk_size
                    then fseek_cur file (to_long (to_uint32 (chunk_size - 16)))
                    else file in
                  Found (mkWAVEFORMATEX format_tag channels samples_per_sec
                           avg_bytes_per_sec block_align bits_per_sample 0,
                         file)
              end end end end end end
            else
              let file := fseek_cur file (to_long chunk_size) in
              if at_eof file then GiveUp E_FAIL else find_fmt fuel' file
        end
  end.

(** The loop that looks for the data chunk; [heap] is what [malloc]
    answers for a size: [None] for [NULL], or fresh memory. *)
Fixpoint find_data (fuel : nat) (wfx : WAVEFORMATEX)
    (heap : Z -> option (list byte)) (app : AppState) (file : FILE)
  : search AppState :=
  match fuel with
  | O => OutOfFuel
  | S fuel' =>
      let '(n, chunk_id, file) := fread 1 4 file in
      if negb (n =? 4) then GiveUp E_FAIL
      else
        match read_value 4 file with
        | (None, _) => GiveUp E_FAIL
        | (Some chunk_size, file) =>
            if memcmp_eq chunk_id data_ 4 then
              match heap chunk_size with
              | None => NoMemory
              | Some fresh =>
                  let '(_, got, _) := fread 1 chunk_size file in
                  let divisor := wBitsPerSample wfx / 8 * nChannels wfx in
                  if divisor =? 0 then DivisionByZero
                  else
                    Found (mkAppState (wave_format app)
                             (Some (blit fresh 0 got))
                             chunk_size
                             (chunk_size / divisor))
              end
            else
              let file := fseek_cur file (to_long chunk_size) in
              if at_eof file then GiveUp E_FAIL
              else find_data fuel' wfx heap app file
        end
  end.

(** What a call of [load_wav_file] comes to. *)
Inductive outcome : Type :=
| Returns (hr : HRESULT) (app : AppState)
| Traps        (* the division by zero *)
| Hangs.       (* the fuel is used up inside a loop *)

(** [load_wav_file (app)]: [file] is what [fopen] finds ([None] when it
    fails), [junk] the four bytes [chunk_id] holds before anything is
    read into it, [heap] and [cotask] what [malloc] and
    [CoTaskMemAlloc] answer. *)
Definition load_wav_file (fuel : nat) (file : option (list byte))
    (junk : list byte) (heap : Z -> option (list byte)) (cotask : bool)
    (app : AppState) : outcome :=
  match file with
  | None => Returns E_FAIL app
  | Some bytes =>
      let file := mkFILE bytes 0 false in
      let '(_, got, file) := fread 1 4 file in
      let chunk_id := blit junk 0 got in
      if negb (memcmp_eq chunk_id RIFF 4) then Returns E_FAIL app
      else
        let file := fseek_cur file 4 in
        let '(_, got, file) := fread 1 4 file in
        let chunk_id := blit chunk_id 0 got in
        if negb (memcmp_eq chunk_id WAVE 4) then Returns E_FAIL app
        else
          match find_fmt fuel file with
          | Found (wfx, file) =>
              match find_data fuel wfx heap app file with
              | Found app' =>
                  if cotask
                  then Returns S_OK
                         (mkAppState (Some wfx) (audio_data app')
                            (audio_data_size app') (audio_sample_count app'))
                  else Returns E_OUTOFMEMORY
                         (mkAppState None (audio_data app')
                            (audio_data_size app') (audio_sample_count app'))
              | GiveUp hr => Returns hr app
              | NoMemory =>
                  Returns E_OUTOFMEMORY
                    (mkAppState (wave_format app) None (audio_data_size app)
                       (audio_sample_count app))
              | DivisionByZero => Traps
              | OutOfFuel => Hangs
              end
          | GiveUp hr => Returns hr app
          | NoMemory => Returns E_OUTOFMEMORY app
          | DivisionByZero => Traps
          | OutOfFuel => Hangs
          end
  end.

(** The chunks of a file from [p] on lead to a chunk with the code
    [target] at [q], past [n] chunks with other codes and sizes below
    [2 ^ 31] whose headers are inside the file. *)
Inductive leads_to (target bytes : list byte) : Z -> Z -> nat -> Prop :=
| leads_here (p : Z) :
    sub bytes p 4 = target -> leads_to target bytes p p 0
| leads_on (p q : Z) (n : nat) :
    sub bytes p 4 <> target ->
    p + 8 <= len bytes ->
    le (sub bytes (p + 4) 4) < 2 ^ 31 ->
    leads_to target bytes (p + 8 + le (sub bytes (p + 4) 4)) q n ->
    leads_to target bytes p q (S n).

(** The format chunk read at [q]. *)
Definition format_at (bytes : list byte) (q : Z) : WAVEFORMATEX :=
  mkWAVEFORMATEX
    (le (sub bytes (q + 8) 2)) (le (sub bytes (q + 10) 2))
    (le (sub bytes (q + 12) 4)) (le (sub bytes (q + 16) 4))
    (le (sub bytes (q + 20) 2)) (le (sub bytes (q + 22) 2)) 0.

(** A heap that has memory for every request, filled with [xee]. *)
Definition plenty (n : Z) : option (list byte) := Some (replicate (Z.to_nat n) xee).

(** A file in the usual layout: 16-bit stereo at 44100 Hz with eight
    bytes of data; the same with a "LIST" chunk of three bytes before
    the format chunk; and one whose first chunk has the size
    [0xFFFFFFF8]. *)
Definition header12 : list byte :=
  RIFF ++ [x2c; x00; x00; x00] ++ WAVE.

Definition fmt_chunk : list byte :=
  fmt_ ++ [x10; x00; x00; x00]
  ++ [x01; x00; x02; x00; x44; xac; x00; x00; x10; xb1; x02; x00;
      x04; x00; x10; x00].

Definition data_chunk : list byte :=
  data_ ++ [x08; x00; x00; x00]
  ++ [x01; x02; x03; x04; x05; x06; x07; x08].

Definition plain_wav : list byte := header12 ++ fmt_chunk ++ data_chunk.

Definition list_wav : list byte :=
  header12
  ++ ([x4c; x49; x53; x54] ++ [x03; x00; x00; x00] ++ [x61; x62; x63])
  ++ fmt_chunk ++ data_chunk.

Definition looping_wav : list byte :=
  header12 ++ [x4c; x49; x53; x54] ++ [xf8; xff; xff; xff].

(** The usual layout with four bits per sample. *)
Definition nibble_wav : list byte :=
  header12
  ++ (fmt_ ++ [x10; x00; x00; x00]
      ++ [x01; x00; x02; x00; x44; xac; x00; x00; x44; xac; x00; x00;
          x01; x00; x04; x00])
  ++ data_chunk.

Definition no_app : AppState := mkAppState None None 0 0.

End Wav.

(** ** The audio thread of the WASAPI variant *)

Module AudioThread.
Import Messages MessagePassing.

Inductive AudioApiType : Type :=
| AUDIO_API_NONE
| AUDIO_API_WASAPI
| AUDIO_API_WINMM.

(** The fields of [AppState] the thread works with; [audio_client] is
    whether the pointer is set. *)
Record AppState : Type := mkAppState {
  audio_playing : Z;
  audio_initialized : Z;
  audio_api : AudioApiType;
  audio_client : bool;
  audio_data : list byte;
  audio_data_size : Z;
  message_buffer : CircularBuffer
}.

(** The calls into the two audio interfaces and to [Sleep], recorded in
    the order they are made; a released buffer is recorded with the
    bytes copied into it. *)
Inductive device_call : Type :=
| IAudioClient_Start
| IAudioClient_Stop
| waveOutReset
| waveOutUnprepareHeader
| waveOutPrepareHeader
| waveOutWrite
| IAudioClient_GetCurrentPadding
| IAudioRenderClient_GetBuffer (frames : Z)
| IAudioRenderClient_ReleaseBuffer (frames : Z) (bytes : list byte)
| Sleep (ms : Z).

(** What the devices answer during one pass of the thread's loop, and
    what the thread finds in [wh.dwFlags], which the driver writes. *)
Record device : Type := mkDevice {
  Start_hr : Z;
  header_prepared : bool;      (* app->wh.dwFlags & WHDR_PREPARED *)
  Prepare_result : Z;
  Write_result : Z;
  GetCurrentPadding_hr : Z;
  padding_frames : Z;
  GetBuffer_hr : Z;
  buffer_data : list byte;
  ReleaseBuffer_hr : Z
}.

(** The application state, the thread's position in the clip, the calls
    made so far and the number of messages taken so far. *)
Record thread : Type := mkThread {
  app : AppState;
  current_position : Z;
  calls : list device_call;
  handled : nat
}.

Definition set_audio_playing (v : Z) (t : thread) : thread :=
  mkThread
    (mkAppState v (audio_initialized (app t)) (audio_api (app t))
       (audio_client (app t)) (audio_data (app t)) (audio_data_size (app t))
       (message_buffer (app t)))
    (current_position t) (calls t) (handled t).

Definition call (c : list device_call) (t : thread) : thread :=
  mkThread (app t) (current_position t) (calls t ++ c) (handled t).

(** [start_audio (app)]. *)
Definition start_audio (dev : device) (t : thread) : thread :=
  if (audio_initialized (app t) =? 0) || negb (audio_playing (app t) =? 0)
  then t
  else
    let t := set_audio_playing TRUE t in
    match audio_api (app t) with
    | AUDIO_API_WASAPI =>
        if audio_client (app t) then
          let t := call [IAudioClient_Start] t in
          if Start_hr dev <? 0 then set_audio_playing FALSE t else t
        else t
    | AUDIO_API_WINMM =>
        let t := call [waveOutReset] t in
        let t := if header_prepared dev
                 then call [waveOutUnprepareHeader] t else t in
        let t := call [waveOutPrepareHeader] t in
        if negb (Prepare_result dev =? 0) then set_audio_playing FALSE t
        else
          let t := call [waveOutWrite] t in
          if negb (Write_result dev =? 0) then set_audio_playing FALSE t
          else t
    | AUDIO_API_NONE => t
    end.

(** [stop_audio (app)]. *)
Definition stop_audio (dev : device) (t : thread) : thread :=
  if (audio_initialized (app t) =? 0) || (audio_playing (app t) =? 0)
  then t
  else
    let t := set_audio_playing FALSE t in
    match audio_api (app t) with
    | AUDIO_API_WASAPI =>
        if audio_client (app t) then call [IAudioClient_Stop] t else t
    | AUDIO_API_WINMM =>
        let t := call [waveOutReset] t in
        if header_prepared dev then call [waveOutUnprepareHeader] t else t
    | AUDIO_API_NONE => t
    end.

(** What one pass through [while (running)] of [audio_thread_func]
    observes: the flag [thread_should_exit], what the GUI thread did to
    the message buffer at each wake-up inside [read_message], and the
    devices. *)
Record pass : Type := mkPass {
  saw_thread_should_exit : Z;
  wakes : list (CircularBuffer -> CircularBuffer);
  dev : device
}.

Inductive step : Type :=
| Again (t : thread)     (* back to [while (running)] with [running] set *)
| Leave (t : thread)     (* [break], or [running] is [FALSE] *)
| Wait (t : thread)      (* inside [read_message] *)
| Fault.

Definition taken (q : CircularBuffer) (t : thread) : thread :=
  mkThread
    (mkAppState (audio_playing (app t)) (audio_initialized (app t))
       (audio_api (app t)) (audio_client (app t)) (audio_data (app t))
       (audio_data_size (app t)) q)
    (current_position t) (calls t) (S (handled t)).

Definition moved (position : Z) (t : thread) : thread :=
  mkThread (app t) position (calls t) (handled t).

Definition is_wasapi (api : AudioApiType) : bool :=
  match api with AUDIO_API_WASAPI => true | _ => false end.

(** One pass through the loop; [buffer_frames] and [bytes_per_frame]
    are set before the loop. *)
Definition thread_iter (buffer_frames bytes_per_frame : Z) (p : pass)
    (t : thread) : step :=
  if negb (saw_thread_should_exit p =? 0) then Leave t
  else
    match read_message (message_buffer (app t)) (wakes p) with
    | Blocked => Wait t
    | Erroneous => Fault
    | Returned (ret, msg, q) =>
        let t := taken q t in
        let '(t, running) :=
          if negb (ret =? 0) then
            match type msg with
            | MSG_START_AUDIO => (start_audio (dev p) t, true)
            | MSG_STOP_AUDIO => (stop_audio (dev p) t, true)
            | MSG_EXIT => (t, false)
            end
          else (t, true) in
        let next t := if running : bool then Again t else Leave t in
        if is_wasapi (audio_api (app t)) && negb (audio_playing (app t) =? 0)
        then
          let t := call [IAudioClient_GetCurrentPadding] t in
          if GetCurrentPadding_hr (dev p) <? 0 then Leave t
          else
            let frames_to_write :=
              to_uint32 (buffer_frames - padding_frames (dev p)) in
            if frames_to_write =? 0 then next (call [Sleep 10] t)
            else
              let t := call [IAudioRenderClient_GetBuffer frames_to_write] t in
              if GetBuffer_hr (dev p) <? 0 then Leave t
              else
                match feed (audio_data (app t)) (audio_data_size (app t))
                           bytes_per_frame frames_to_write (current_position t)
                           (buffer_data (dev p)) with
                | None => Fault
                | Some (out, position) =>
                    let t :=
                      call [IAudioRenderClient_ReleaseBuffer frames_to_write out]
                        (moved position t) in
                    if ReleaseBuffer_hr (dev p) <? 0 then Leave t else next t
                end
        else next (call [Sleep 10] t)
    end.

(** The loop: it is left, or the passes listed are used up, or the
    thread is inside [read_message] when the wake-ups of a pass are
    used up. *)
Inductive run : Type :=
| Left (t : thread)
| Unfinished (t : thread)
| Waiting (t : thread)
| Faulty.

Fixpoint audio_thread_loop (buffer_frames bytes_per_frame : Z)
    (passes : list pass) (t : thread) : run :=
  match passes with
  | [] => Unfinished t
  | p :: passes' =>
      match thread_iter buffer_frames bytes_per_frame p t with
      | Again t' => audio_thread_loop buffer_frames bytes_per_frame passes' t'
      | Leave t' => Left t'
      | Wait t' => Waiting t'
      | Fault => Faulty
      end
  end.

(** The buffers handed back to the device among the calls. *)
Definition released (cs : list device_call) : list (list byte) :=
  omap (fun c => match c with
                 | IAudioRenderClient_ReleaseBuffer _ bytes => Some bytes
                 | _ => None
                 end) cs.

(** What the thread does with a message. *)
Definition handle (dev : device) (type : MessageType) (t : thread) : thread :=
  match type with
  | MSG_START_AUDIO => start_audio dev t
  | MSG_STOP_AUDIO => stop_audio dev t
  | MSG_EXIT => t
  end.

(** The thread after it has handled the messages [types], one in each
    of [passes]. *)
Fixpoint serve (passes : list pass) (types : list MessageType) (t : thread)
  : thread :=
  match types, passes with
  | type :: types', p :: passes' => serve passes' types' (handle (dev p) type t)
  | _, _ => t
  end.

(** Two states of the thread with the same audio flags. *)
Definition same_flags (t1 t2 : thread) : Prop :=
  audio_playing (app t1) = audio_playing (app t2)
  /\ audio_initialized (app t1) = audio_initialized (app t2)
  /\ audio_api (app t1) = audio_api (app t2)
  /\ audio_client (app t1) = audio_client (app t2).

(** A device that accepts everything, a pass in which the GUI thread
    does nothing, and a thread on the WinMM interface whose buffer
    holds a press, a release and the exit message. *)
Definition willing : device := mkDevice 0 false 0 0 0 0 0 (replicate 8 xee) 0.

Definition calm : pass := mkPass 0 [] willing.

Definition winmm_thread : thread :=
  mkThread
    (mkAppState 0 1 AUDIO_API_WINMM false clip12 12
       (mkCircularBuffer
          [mkMessage MSG_STOP_AUDIO; mkMessage MSG_EXIT; mkMessage MSG_START_AUDIO]
          3 2 2 3))
    0 [] 0.

Definition wasapi_thread : thread :=
  mkThread
    (mkAppState 1 1 AUDIO_API_WASAPI true clip12 12
       (mkCircularBuffer (replicate 10 (mkMessage MSG_EXIT)) 10 0 0 0))
    0 [] 0.

End AudioThread.

(** ** The ALSA playback thread *)

Definition CHANNELS : Z := 2.
Definition sizeof_int16_t : Z := 2.
Definition period_size : Z := 1024.

(** What the sound device answers in one pass of the inner loop of
    [alsa_playback_thread]: the result of [snd_pcm_writei] for the
    number of frames offered, and the result of [snd_pcm_recover]. *)
Record pcm : Type := mkPcm {
  snd_pcm_writei : Z -> Z;
  snd_pcm_recover : Z
}.

(** The local [frames_written], and what the device has been offered
    (first frame and number of frames) and has taken so far. *)
Record pcm_state : Type := mkPcmState {
  frames_written : Z;
  offered : list (Z * Z);
  accepted : list byte
}.

(** One pass through [while (frames_written < frames_read)]. *)
Definition alsa_write_iter (buffer : list byte) (frames_read : Z) (a : pcm)
    (s : pcm_state) : iter pcm_state :=
  if negb (frames_written s <? frames_read) then Exit s
  else
    let count := frames_read - frames_written s in
    let frames := to_int (snd_pcm_writei a count) in
    let offered' := offered s ++ [(frames_written s, count)] in
    if frames <? 0 then
      if to_int (snd_pcm_recover a) <? 0
      then Exit (mkPcmState (frames_written s) offered' (accepted s))
      else Continue (mkPcmState (frames_written s) offered' (accepted s))
    else
      Continue
        (mkPcmState (to_int (frames_written s + frames)) offered'
           (accepted s
            ++ sub buffer (frames_written s * CHANNELS * sizeof_int16_t)
                 (frames * CHANNELS * sizeof_int16_t))).

Fixpoint alsa_write_loop (buffer : list byte) (frames_read : Z)
    (answers : list pcm) (s : pcm_state) : outcome pcm_state :=
  match answers with
  | [] => Running s
  | a :: answers' =>
      match alsa_write_iter buffer frames_read a s with
      | Continue s' => alsa_write_loop buffer frames_read answers' s'
      | Exit s' => Finished s'
      | Crash => Undefined
      end
  end.

(** One pass through the loop of [alsa_playback_thread] while audio is
    playing: [stack] is what the local array holds before, [env] the
    passes of [read_from_buffer], [answers] those of the inner loop. *)
Definition alsa_playback_pass (BUFFER_SIZE : Z) (b : CircularBuffer)
    (stack : list byte) (env : list Obs) (answers : list pcm)
  : outcome (CircularBuffer * pcm_state) :=
  match read_from_buffer BUFFER_SIZE b stack
          (to_size_t (period_size * CHANNELS * sizeof_int16_t)) env with
  | Finished (bytes_read, b', buffer) =>
      let frames_read :=
        to_int (to_size_t bytes_read / (CHANNELS * sizeof_int16_t)) in
      if 0 <? frames_read then
        match alsa_write_loop buffer frames_read answers (mkPcmState 0 [] []) with
        | Finished s => Finished (b', s)
        | Running s => Running (b', s)
        | Undefined => Undefined
        end
      else Finished (b', mkPcmState 0 [] [])
  | Running (_, b', _) => Running (b', mkPcmState 0 [] [])
  | Undefined => Undefined
  end.

(** A device that keeps to what [snd_pcm_writei] promises: it takes no
    more frames than it is offered; and one that takes at least one
    frame of every offer. *)
Definition polite (a : pcm) : Prop :=
  forall n, 0 < n -> - 2 ^ 31 <= snd_pcm_writei a n <= n.

Definition hungry (a : pcm) : Prop :=
  forall n, 0 < n -> 1 <= snd_pcm_writei a n <= n.

(** Every offer is inside the first [frames_read] frames. *)
Definition offers_inside (frames_read : Z) (s : pcm_state) : Prop :=
  Forall (fun '(first, count) => 0 <= first /\ 0 < count
                                 /\ first + count <= frames_read) (offered s).

(** A device that takes half of what it is offered (and a single frame
    whole), one that reports an underrun which [snd_pcm_recover] mends,
    and a buffer of 32768 bytes holding [n] bytes that go round its
    end. *)
Definition halves : pcm := mkPcm (fun n => (n + 1) / 2) 0.
Definition underrun : pcm := mkPcm (fun _ => -32) 0.

Definition filled (n : Z) : CircularBuffer :=
  mkCircularBuffer (replicate (Z.to_nat 32768) x5a) 30000
    ((30000 + n) mod 32768) n.

(** ** Test data *)

(** A buffer of 16 bytes, initialised; the caller's memory before a
    call; and passes in which no other thread does anything: with audio
    playing, with audio stopped, and with the program shutting down. *)
Definition buffer16 : CircularBuffer :=
  init_circular_buffer (mkCircularBuffer (replicate 16 xff) 3 7 4).

Definition garbage (n : nat) : list byte := replicate n xee.

Definition playing : Obs := quiet (mkGlobals buffer16 1 1).
Definition idle : Obs := quiet (mkGlobals buffer16 1 0).
Definition shutting_down : Obs := quiet (mkGlobals buffer16 0 1).

(** The scenario of the buffer of 16 bytes: write 10 bytes, read 6,
    write 10 more (they go round the end of the array), read 14. *)
Definition wrap_calls : list call :=
  [ Write [x01; x02; x03; x04; x05; x06; x07; x08; x09; x0a] 10 [playing; playing];
    Read (garbage 6) 6 [playing; playing];
    Write [x0b; x0c; x0d; x0e; x0f; x10; x11; x12; x13; x14] 10 [playing; playing];
    Read (garbage 14) 14 [playing; playing] ].

(** Buffers of 16 bytes in the middle of their use: with 4 bytes
    buffered before the end of the array, with 10 bytes that go round
    the end, and full. *)
Definition ahead16 : CircularBuffer :=
  mkCircularBuffer (replicate 16 xff) 6 10 4.

Definition round16 : CircularBuffer :=
  mkCircularBuffer
    [x0b; x0c; x0d; x0e; xff; xff; xff; xff; xff; xff;
     x05; x06; x07; x08; x09; x0a] 10 4 10.

Definition full16 : CircularBuffer :=
  mkCircularBuffer (replicate 16 xff) 5 5 16.

Definition ten_bytes : list byte :=
  [x15; x16; x17; x18; x19; x1a; x1b; x1c; x1d; x1e].

(** The bytes of the destination [d] that the recorded calls of
    [memcpy] have written, in the order of the calls; and a recorded
    copy that lies before byte [br] of the destination. *)
Definition copied_out (tr : list mem_event) (d : list byte) : list byte :=
  concat (map (fun ev => match ev with
                         | Memcpy_out doff _ n => sub d doff n
                         | _ => []
                         end) tr).

Definition below (br : Z) (ev : mem_event) : Prop :=
  match ev with
  | Memcpy_out doff _ n => 0 <= doff /\ 0 <= n /\ doff + n <= br
  | _ => True
  end.

(** Data for the scenarios with two threads: a stream of 25 bytes, a
    consumer that takes 8 bytes whenever they are there, and a producer
    that puts in 10 bytes whenever there is room. *)
Definition stream25 : list byte :=
  [x01; x02; x03; x04; x05; x06; x07; x08; x09; x0a;
   x0b; x0c; x0d; x0e; x0f; x10; x11; x12; x13; x14;
   x15; x16; x17; x18; x19].

Definition consumer8 : Obs := mkObs 1 1 1 false (reader 16 (garbage 8) 8).
Definition producer10 : Obs := mkObs 1 1 1 false (writer 16 ten_bytes 10).

(** A producer whose bytes arrive only after the reader's wait has run
    into its timeout. *)
Definition late_producer10 : Obs := mkObs 1 1 1 true (writer 16 ten_bytes 10).

(* ================================================================= *)
(** * Proofs *)

(** ** Arithmetic of the machine integers *)

Lemma to_size_t_small (x : Z) : 0 <= x <= SIZE_MAX -> to_size_t x = x.
Proof. unfold to_size_t, SIZE_MAX. intros H. apply Z.mod_small. lia. Qed.

Lemma to_size_t_range (x : Z) : 0 <= to_size_t x <= SIZE_MAX.
Proof.
  unfold to_size_t, SIZE_MAX.
  pose proof (Z.mod_pos_bound x (2 ^ 64) ltac:(lia)). lia.
Qed.

Lemma to_int_small (x : Z) : 0 <= x <= INT_MAX -> to_int x = x.
Proof.
  unfold to_int, INT_MAX. intros H.
  rewrite Z.mod_small by lia. lia.
Qed.

Lemma INT_MAX_le_SIZE_MAX : INT_MAX <= SIZE_MAX.
Proof. unfold INT_MAX, SIZE_MAX. lia. Qed.

(** Reduction modulo the capacity of a position that went at most one
    lap too far, and of a difference of two positions. *)
Lemma mod_lap (C x : Z) :
  0 <= x < 2 * C -> x mod C = if x <? C then x else x - C.
Proof.
  intros H. destruct (Z.ltb_spec x C).
  - apply Z.mod_small. lia.
  - symmetry. apply (Z.mod_unique x C 1 (x - C)); lia.
Qed.

Lemma mod_diff (C x : Z) :
  - C < x < C -> x mod C = if x <? 0 then x + C else x.
Proof.
  intros H. destruct (Z.ltb_spec x 0).
  - symmetry. apply (Z.mod_unique x C (-1) (x + C)); lia.
  - apply Z.mod_small. lia.
Qed.

(** ** Lists as memory: lookup at an integer offset *)

Lemma nthz_ext (l1 l2 : list byte) : (forall i, nthz l1 i = nthz l2 i) -> l1 = l2.
Proof.
  intros H. apply list_eq. intros i.
  specialize (H (Z.of_nat i)). unfold nthz in H.
  destruct (Z.ltb_spec (Z.of_nat i) 0); [lia|].
  by rewrite Nat2Z.id in H.
Qed.

Lemma nthz_None (l : list byte) (i : Z) : i < 0 \/ len l <= i -> nthz l i = None.
Proof.
  unfold nthz, len. intros H. destruct (Z.ltb_spec i 0); [done|].
  apply lookup_ge_None_2. lia.
Qed.

Lemma nthz_is_Some (l : list byte) (i : Z) : 0 <= i < len l -> is_Some (nthz l i).
Proof.
  unfold nthz, len. intros H. destruct (Z.ltb_spec i 0); [lia|].
  apply lookup_lt_is_Some_2. lia.
Qed.

Lemma nthz_app (l1 l2 : list byte) (i : Z) :
  nthz (l1 ++ l2) i = if i <? len l1 then nthz l1 i else nthz l2 (i - len l1).
Proof.
  unfold nthz, len.
  destruct (Z.ltb_spec i 0), (Z.ltb_spec i (Z.of_nat (length l1))),
    (Z.ltb_spec (i - Z.of_nat (length l1)) 0); try lia; try done.
  - apply lookup_app_l. lia.
  - rewrite lookup_app_r by lia. f_equal. lia.
Qed.

Lemma nthz_sub (l : list byte) (off n i : Z) :
  0 <= off ->
  nthz (sub l off n) i = if (0 <=? i) && (i <? n) then nthz l (off + i) else None.
Proof.
  intros Hoff. unfold nthz, sub.
  destruct (Z.ltb_spec i 0), (Z.leb_spec 0 i), (Z.ltb_spec i n),
    (Z.ltb_spec (off + i) 0); simpl; try lia; try done.
  - rewrite lookup_take_lt by lia. rewrite lookup_drop. f_equal. lia.
  - apply lookup_take_ge. lia.
Qed.

Lemma nthz_replicate (n i : Z) (x : byte) :
  nthz (replicate (Z.to_nat n) x) i
  = if (0 <=? i) && (i <? n) then Some x else None.
Proof.
  unfold nthz.
  destruct (Z.ltb_spec i 0), (Z.leb_spec 0 i), (Z.ltb_spec i n);
    simpl; try lia; try done.
  - apply lookup_replicate_2. lia.
  - apply lookup_replicate_None. lia.
Qed.

Lemma len_app (l1 l2 : list byte) : len (l1 ++ l2) = len l1 + len l2.
Proof. unfold len. rewrite length_app. lia. Qed.

Lemma len_nonneg (l : list byte) : 0 <= len l.
Proof. unfold len. lia. Qed.

Lemma len_sub (l : list byte) (off n : Z) :
  0 <= off -> 0 <= n -> off + n <= len l -> len (sub l off n) = n.
Proof.
  unfold len, sub. intros. rewrite length_take, length_drop. lia.
Qed.

Lemma len_replicate (n : Z) (x : byte) :
  0 <= n -> len (replicate (Z.to_nat n) x) = n.
Proof. unfold len. intros. rewrite length_replicate. lia. Qed.

Lemma len_blit (l : list byte) (off : Z) (bs : list byte) :
  0 <= off -> off + len bs <= len l -> len (blit l off bs) = len l.
Proof.
  unfold len, blit. intros.
  rewrite !length_app, length_take, length_drop. lia.
Qed.

Lemma nthz_blit (l : list byte) (off : Z) (bs : list byte) (i : Z) :
  0 <= off -> off + len bs <= len l ->
  nthz (blit l off bs) i
  = if (off <=? i) && (i <? off + len bs) then nthz bs (i - off) else nthz l i.
Proof.
  intros Hoff Hfit. unfold blit.
  assert (Hl : len (take (Z.to_nat off) l) = off).
  { unfold len in *. rewrite length_take. lia. }
  rewrite !nthz_app, Hl.
  pose proof (len_nonneg bs).
  destruct (Z.ltb_spec i off), (Z.leb_spec off i),
    (Z.ltb_spec (i - off) (len bs)), (Z.ltb_spec i (off + len bs));
    simpl; try lia; try done.
  - unfold nthz. destruct (Z.ltb_spec i 0); [done|].
    apply lookup_take_lt. lia.
  - unfold nthz, len in *.
    destruct (Z.ltb_spec (i - off - Z.of_nat (length bs)) 0),
      (Z.ltb_spec i 0); try lia.
    rewrite lookup_drop; f_equal; lia.
Qed.

Lemma sub_all (l : list byte) : sub l 0 (len l) = l.
Proof.
  unfold sub, len. rewrite Nat2Z.id. simpl. apply take_ge. lia.
Qed.

Lemma sub_nil (l : list byte) (off : Z) : sub l off 0 = [].
Proof. unfold sub. done. Qed.

Lemma blit_nil (l : list byte) (off : Z) : blit l off [] = l.
Proof. unfold blit. simpl. rewrite Nat.add_0_r. apply take_drop. Qed.

(** ** One pass through the loops *)

Ltac split_tests :=
  repeat (match goal with
          | |- context [Z.ltb ?a ?b] => destruct (Z.ltb_spec a b)
          | |- context [Z.leb ?a ?b] => destruct (Z.leb_spec a b)
          | |- context [Z.eqb ?a ?b] => destruct (Z.eqb_spec a b)
          end; simpl; try lia).

Ltac lookups :=
  repeat first
    [ rewrite nthz_app
    | rewrite nthz_sub by lia
    | rewrite nthz_blit by lia
    | rewrite nthz_replicate ].

Section Passes.

Variable BUFFER_SIZE : Z.
Hypothesis capacity : 0 < BUFFER_SIZE <= INT_MAX.

Lemma capacity_size_t : 0 < BUFFER_SIZE <= SIZE_MAX.
Proof. pose proof INT_MAX_le_SIZE_MAX. lia. Qed.

(** The congruence of the invariant, as the two places [write_pos] can
    be at. *)
Lemma inv_write_pos (b : CircularBuffer) :
  buf_inv BUFFER_SIZE b ->
  write_pos b = read_pos b + size b
  \/ write_pos b = read_pos b + size b - BUFFER_SIZE.
Proof.
  intros (_ & Hs & Hr & Hw & Hc).
  rewrite (mod_diff BUFFER_SIZE (write_pos b - read_pos b)) in Hc by lia.
  destruct (Z.eq_dec (size b) BUFFER_SIZE) as [E|E].
  - rewrite E, Z.mod_same in Hc by lia.
    destruct (Z.ltb_spec (write_pos b - read_pos b) 0); lia.
  - rewrite Z.mod_small in Hc by lia.
    destruct (Z.ltb_spec (write_pos b - read_pos b) 0); lia.
Qed.

Lemma inv_intro (d : list byte) (rp wp sz : Z) :
  len d = BUFFER_SIZE ->
  0 <= sz <= BUFFER_SIZE -> 0 <= rp < BUFFER_SIZE -> 0 <= wp < BUFFER_SIZE ->
  wp = rp + sz \/ wp = rp + sz - BUFFER_SIZE ->
  buf_inv BUFFER_SIZE (mkCircularBuffer d rp wp sz).
Proof.
  intros Hd Hs Hr Hw Hc. unfold buf_inv. simpl. repeat split; try lia.
  destruct Hc as [-> | ->].
  - f_equal. lia.
  - replace (rp + sz - BUFFER_SIZE - rp) with (sz + (-1) * BUFFER_SIZE) by lia.
    by rewrite Z_mod_plus_full.
Qed.

Lemma len_contents (b : CircularBuffer) :
  buf_inv BUFFER_SIZE b -> len (contents b) = size b.
Proof.
  intros (Hd & Hs & Hr & Hw & _). unfold contents.
  apply len_sub; try lia. rewrite len_app. lia.
Qed.

Lemma nthz_contents (b : CircularBuffer) (i : Z) :
  buf_inv BUFFER_SIZE b ->
  nthz (contents b) i
  = if (0 <=? i) && (i <? size b)
    then if read_pos b + i <? BUFFER_SIZE
         then nthz (data b) (read_pos b + i)
         else nthz (data b) (read_pos b + i - BUFFER_SIZE)
    else None.
Proof.
  intros (Hd & Hs & Hr & Hw & _). unfold contents.
  rewrite nthz_sub by lia. rewrite nthz_app, Hd. done.
Qed.

Lemma memcpy_ok (dest : list byte) (doff : Z) (source : list byte) (soff n : Z) :
  0 <= doff -> 0 <= soff -> 0 <= n ->
  doff + n <= len dest -> soff + n <= len source ->
  memcpy dest doff source soff n = Some (blit dest doff (sub source soff n)).
Proof.
  intros. unfold memcpy.
  destruct (Z.leb_spec 0 doff), (Z.leb_spec 0 soff), (Z.leb_spec 0 n),
    (Z.leb_spec (doff + n) (len dest)), (Z.leb_spec (soff + n) (len source));
    simpl; try lia; done.
Qed.

Lemma memset0_ok (dest : list byte) (doff n : Z) :
  0 <= doff -> 0 <= n -> doff + n <= len dest ->
  memset0 dest doff n = Some (blit dest doff (replicate (Z.to_nat n) x00)).
Proof.
  intros. unfold memset0.
  destruct (Z.leb_spec 0 doff), (Z.leb_spec 0 n),
    (Z.leb_spec (doff + n) (len dest)); simpl; try lia; done.
Qed.

(** A pass of [write_to_buffer] that finds room stores
    [min (nbytes - bytes_written) (BUFFER_SIZE - size)] bytes behind the
    buffered ones. *)
Lemma write_iter_store (src : list byte) (nbytes : Z) (e : Obs) (s : write_state) :
  buf_inv BUFFER_SIZE (w_buffer s) ->
  0 <= bytes_written s < nbytes -> nbytes <= SIZE_MAX ->
  bytes_written s + Z.min (nbytes - bytes_written s)
                          (BUFFER_SIZE - size (w_buffer s)) <= len src ->
  obs_keep_running e <> 0 ->
  size (w_buffer s) < BUFFER_SIZE ->
  let b := w_buffer s in
  let n := Z.min (nbytes - bytes_written s) (BUFFER_SIZE - size b) in
  let first_chunk := BUFFER_SIZE - write_pos b in
  exists b',
    write_iter BUFFER_SIZE src nbytes e s
    = Continue
        (mkWrite b' (bytes_written s + n)
           (w_trace s ++
              if n <=? first_chunk
              then [Memcpy_in (write_pos b) (bytes_written s) n]
              else [Memcpy_in (write_pos b) (bytes_written s) first_chunk;
                    Memcpy_in 0 (bytes_written s + first_chunk) (n - first_chunk)]))
    /\ buf_inv BUFFER_SIZE b'
    /\ size b' = size b + n
    /\ read_pos b' = read_pos b
    /\ contents b' = contents b ++ sub src (bytes_written s) n.
Proof.
  destruct s as [b bw tr]. simpl.
  intros Hinv Hbw Hmax Hsrc Hkr Hroom.
  pose proof Hinv as (Hd & Hs & Hr & Hw & _).
  pose proof (inv_write_pos _ Hinv) as Hwp.
  pose proof capacity_size_t as Hcap.
  set (n := Z.min (nbytes - bw) (BUFFER_SIZE - size b)).
  assert (Hn : 0 < n <= BUFFER_SIZE - size b /\ n <= nbytes - bw) by lia.
  unfold write_iter. simpl.
  destruct (Z.ltb_spec bw nbytes); [|lia].
  destruct (Z.eqb_spec (obs_keep_running e) 0); [done|]. simpl.
  rewrite (to_size_t_small (BUFFER_SIZE - size b)) by lia.
  rewrite (to_size_t_small (nbytes - bw)) by lia.
  destruct (Z.eqb_spec (BUFFER_SIZE - size b) 0); [lia|].
  replace (if nbytes - bw <? BUFFER_SIZE - size b
           then nbytes - bw else BUFFER_SIZE - size b) with n
    by (destruct (Z.ltb_spec (nbytes - bw) (BUFFER_SIZE - size b)); lia).
  rewrite (to_size_t_small (BUFFER_SIZE - write_pos b)) by lia.
  rewrite (to_size_t_small (size b + n)) by lia.
  rewrite (to_size_t_small (bw + n)) by lia.
  destruct (Z.leb_spec n (BUFFER_SIZE - write_pos b)) as [Hfit|Hfit].
  - (* one copy *)
    rewrite memcpy_ok by lia. simpl.
    rewrite (to_size_t_small (write_pos b + n)) by lia.
    rewrite (mod_lap BUFFER_SIZE (write_pos b + n)) by lia.
    eexists. split; [reflexivity|].
    assert (Hl : len (sub src bw n) = n) by (apply len_sub; lia).
    split; [|split; [done|split; [done|]]].
    + apply inv_intro; try lia.
      * rewrite len_blit; lia.
      * destruct (Z.ltb_spec (write_pos b + n) BUFFER_SIZE); lia.
      * destruct (Z.ltb_spec (write_pos b + n) BUFFER_SIZE); lia.
    + apply nthz_ext. intros i.
      rewrite nthz_app, (len_contents _ Hinv).
      rewrite nthz_sub by lia.
      rewrite (nthz_contents _ i Hinv).
      unfold contents. simpl.
      rewrite nthz_sub by lia. rewrite nthz_app.
      rewrite len_blit by lia. rewrite Hd.
      rewrite !nthz_blit by lia. rewrite Hl.
      rewrite !nthz_sub by lia.
      split_tests; try lia; try done; f_equal; lia.
  - (* two copies: up to the end of the array, then from its start *)
    set (fc := BUFFER_SIZE - write_pos b) in *.
    rewrite (to_size_t_small (n - fc)) by lia.
    assert (Hl1 : len (sub src bw fc) = fc) by (apply len_sub; lia).
    assert (Hl2 : len (sub src (bw + fc) (n - fc)) = n - fc)
      by (apply len_sub; lia).
    rewrite memcpy_ok by lia. simpl.
    assert (Hb1 : len (blit (data b) (write_pos b) (sub src bw fc)) = BUFFER_SIZE)
      by (rewrite len_blit; lia).
    rewrite memcpy_ok by lia. simpl.
    eexists. split; [reflexivity|].
    split; [|split; [done|split; [done|]]].
    + apply inv_intro; try lia.
      rewrite len_blit; lia.
    + apply nthz_ext. intros i.
      rewrite nthz_app, (len_contents _ Hinv).
      rewrite nthz_sub by lia.
      rewrite (nthz_contents _ i Hinv).
      unfold contents. simpl.
      rewrite nthz_sub by lia. rewrite nthz_app.
      rewrite len_blit by lia. rewrite Hb1.
      rewrite !(nthz_blit (blit _ _ _)) by lia. rewrite Hl2.
      rewrite !nthz_blit by lia. rewrite Hl1.
      rewrite !nthz_sub by lia.
      unfold fc in *.
      split_tests; try lia; try done; f_equal; lia.
Qed.

(** The copy out of a buffer that holds bytes hands over the oldest
    [min (nbytes - bytes_read) size] of them, in order. *)
Lemma read_copy_fetch (nbytes : Z) (s : read_state) :
  buf_inv BUFFER_SIZE (r_buffer s) ->
  0 <= bytes_read s < nbytes -> nbytes <= SIZE_MAX ->
  bytes_read s + Z.min (nbytes - bytes_read s) (size (r_buffer s))
    <= len (r_data s) ->
  0 < size (r_buffer s) ->
  let b := r_buffer s in
  let n := Z.min (nbytes - bytes_read s) (size b) in
  let first_chunk := BUFFER_SIZE - read_pos b in
  exists b',
    read_copy BUFFER_SIZE nbytes s
    = Continue
        (mkRead b'
           (blit (r_data s) (bytes_read s) (sub (contents b) 0 n))
           (bytes_read s + n)
           (r_trace s ++
              if n <=? first_chunk
              then [Memcpy_out (bytes_read s) (read_pos b) n]
              else [Memcpy_out (bytes_read s) (read_pos b) first_chunk;
                    Memcpy_out (bytes_read s + first_chunk) 0 (n - first_chunk)]))
    /\ buf_inv BUFFER_SIZE b'
    /\ size b' = size b - n
    /\ write_pos b' = write_pos b
    /\ data b' = data b
    /\ contents b = sub (contents b) 0 n ++ contents b'.
Proof.
  destruct s as [b dst br tr]. simpl.
  intros Hinv Hbr Hmax Hdst Hsome.
  pose proof Hinv as (Hd & Hs & Hr & Hw & _).
  pose proof (inv_write_pos _ Hinv) as Hwp.
  pose proof capacity_size_t as Hcap.
  pose proof (len_contents _ Hinv) as Hlc.
  set (n := Z.min (nbytes - br) (size b)).
  assert (Hn : 0 < n <= size b /\ n <= nbytes - br) by lia.
  unfold read_copy. simpl.
  rewrite (to_size_t_small (nbytes - br)) by lia.
  replace (if nbytes - br <? size b then nbytes - br else size b) with n
    by (destruct (Z.ltb_spec (nbytes - br) (size b)); lia).
  rewrite (to_size_t_small (BUFFER_SIZE - read_pos b)) by lia.
  rewrite (to_size_t_small (size b - n)) by lia.
  rewrite (to_size_t_small (br + n)) by lia.
  assert (Hl : len (sub (contents b) 0 n) = n) by (apply len_sub; lia).
  destruct (Z.leb_spec n (BUFFER_SIZE - read_pos b)) as [Hfit|Hfit].
  - (* one copy *)
    rewrite memcpy_ok by lia. simpl.
    rewrite (to_size_t_small (read_pos b + n)) by lia.
    rewrite (mod_lap BUFFER_SIZE (read_pos b + n)) by lia.
    assert (Hl1 : len (sub (data b) (read_pos b) n) = n) by (apply len_sub; lia).
    assert (Hdata : blit dst br (sub (data b) (read_pos b) n)
                    = blit dst br (sub (contents b) 0 n)).
    { apply nthz_ext. intros i.
      lookups. rewrite Hl, Hl1. rewrite (nthz_contents _ _ Hinv).
      split_tests; try done; f_equal; lia. }
    rewrite Hdata.
    eexists. split; [reflexivity|].
    split; [|split; [done|split; [done|split; [done|]]]].
    + apply inv_intro; try lia;
        destruct (Z.ltb_spec (read_pos b + n) BUFFER_SIZE); lia.
    + match goal with |- _ = _ ++ contents ?x => set (b' := x) end.
      assert (Hinv' : buf_inv BUFFER_SIZE b').
      { apply inv_intro; try lia;
          destruct (Z.ltb_spec (read_pos b + n) BUFFER_SIZE); lia. }
      apply nthz_ext. intros i.
      rewrite nthz_app, Hl. rewrite nthz_sub by lia.
      rewrite (nthz_contents b' _ Hinv'), !(nthz_contents b _ Hinv).
      unfold b'. simpl.
      split_tests; try done; f_equal; lia.
  - (* two copies *)
    set (fc := BUFFER_SIZE - read_pos b) in *.
    rewrite (to_size_t_small (n - fc)) by lia.
    assert (Hl1 : len (sub (data b) (read_pos b) fc) = fc) by (apply len_sub; lia).
    assert (Hl2 : len (sub (data b) 0 (n - fc)) = n - fc) by (apply len_sub; lia).
    rewrite memcpy_ok by lia. simpl.
    assert (Hb1 : len (blit dst br (sub (data b) (read_pos b) fc)) = len dst)
      by (rewrite len_blit; lia).
    rewrite memcpy_ok by lia. simpl.
    assert (Hdata : blit (blit dst br (sub (data b) (read_pos b) fc))
                      (br + fc) (sub (data b) 0 (n - fc))
                    = blit dst br (sub (contents b) 0 n)).
    { apply nthz_ext. intros i.
      rewrite !(nthz_blit (blit _ _ _)) by lia. rewrite Hl2.
      lookups. rewrite Hl, Hl1. rewrite (nthz_contents _ _ Hinv).
      unfold fc in *.
      split_tests; try done; f_equal; lia. }
    rewrite Hdata.
    eexists. split; [reflexivity|].
    split; [|split; [done|split; [done|split; [done|]]]].
    + apply inv_intro; lia.
    + match goal with |- _ = _ ++ contents ?x => set (b' := x) end.
      assert (Hinv' : buf_inv BUFFER_SIZE b') by (apply inv_intro; lia).
      apply nthz_ext. intros i.
      rewrite nthz_app, Hl. rewrite nthz_sub by lia.
      rewrite (nthz_contents b' _ Hinv'), !(nthz_contents b _ Hinv).
      unfold b', fc in *. simpl.
      split_tests; try done; f_equal; lia.
Qed.

Lemma memcpy_short_source (dest : list byte) (doff : Z) (source : list byte)
    (soff n : Z) :
  len source < soff + n -> memcpy dest doff source soff n = None.
Proof.
  intros. unfold memcpy.
  destruct (Z.leb_spec (soff + n) (len source)); [lia|].
  by rewrite andb_false_r.
Qed.

Lemma memcpy_short_dest (dest : list byte) (doff : Z) (source : list byte)
    (soff n : Z) :
  len dest < doff + n -> memcpy dest doff source soff n = None.
Proof.
  intros. unfold memcpy.
  destruct (Z.leb_spec (doff + n) (len dest)); [lia|].
  by rewrite andb_false_r.
Qed.

Lemma memcpy_len (dest : list byte) (doff : Z) (source : list byte)
    (soff n : Z) (d : list byte) :
  memcpy dest doff source soff n = Some d -> len d = len dest.
Proof.
  unfold memcpy.
  destruct (Z.leb_spec 0 doff), (Z.leb_spec 0 soff), (Z.leb_spec 0 n),
    (Z.leb_spec (doff + n) (len dest)), (Z.leb_spec (soff + n) (len source));
    simpl; try done.
  intros [= <-]. rewrite len_blit; [done|lia|].
  rewrite len_sub; lia.
Qed.

(** The same pass with too few bytes behind [src]: the copy reads past
    them. *)
Lemma write_iter_crash (src : list byte) (nbytes : Z) (e : Obs) (s : write_state) :
  buf_inv BUFFER_SIZE (w_buffer s) ->
  0 <= bytes_written s < nbytes -> nbytes <= SIZE_MAX ->
  len src < bytes_written s + Z.min (nbytes - bytes_written s)
                                    (BUFFER_SIZE - size (w_buffer s)) ->
  obs_keep_running e <> 0 ->
  size (w_buffer s) < BUFFER_SIZE ->
  write_iter BUFFER_SIZE src nbytes e s = Crash.
Proof.
  destruct s as [b bw tr]. simpl.
  intros Hinv Hbw Hmax Hsrc Hkr Hroom.
  pose proof Hinv as (Hd & Hs & Hr & Hw & _).
  pose proof capacity_size_t as Hcap.
  set (n := Z.min (nbytes - bw) (BUFFER_SIZE - size b)) in *.
  assert (Hn : 0 < n <= BUFFER_SIZE - size b /\ n <= nbytes - bw) by lia.
  unfold write_iter. simpl.
  destruct (Z.ltb_spec bw nbytes); [|lia].
  destruct (Z.eqb_spec (obs_keep_running e) 0); [done|]. simpl.
  rewrite (to_size_t_small (BUFFER_SIZE - size b)) by lia.
  rewrite (to_size_t_small (nbytes - bw)) by lia.
  destruct (Z.eqb_spec (BUFFER_SIZE - size b) 0); [lia|].
  replace (if nbytes - bw <? BUFFER_SIZE - size b
           then nbytes - bw else BUFFER_SIZE - size b) with n
    by (destruct (Z.ltb_spec (nbytes - bw) (BUFFER_SIZE - size b)); lia).
  rewrite (to_size_t_small (BUFFER_SIZE - write_pos b)) by lia.
  destruct (Z.leb_spec n (BUFFER_SIZE - write_pos b)) as [Hfit|Hfit].
  - by rewrite memcpy_short_source by lia.
  - rewrite (to_size_t_small (n - _)) by lia.
    destruct (memcpy (data b) _ src bw _); simpl; [|done].
    by rewrite memcpy_short_source by lia.
Qed.

Lemma read_copy_crash (nbytes : Z) (s : read_state) :
  buf_inv BUFFER_SIZE (r_buffer s) ->
  0 <= bytes_read s < nbytes -> nbytes <= SIZE_MAX ->
  len (r_data s) < bytes_read s + Z.min (nbytes - bytes_read s) (size (r_buffer s)) ->
  0 < size (r_buffer s) ->
  read_copy BUFFER_SIZE nbytes s = Crash.
Proof.
  destruct s as [b dst br tr]. simpl.
  intros Hinv Hbr Hmax Hdst Hsome.
  pose proof Hinv as (Hd & Hs & Hr & Hw & _).
  pose proof capacity_size_t as Hcap.
  set (n := Z.min (nbytes - br) (size b)) in *.
  assert (Hn : 0 < n <= size b /\ n <= nbytes - br) by lia.
  unfold read_copy. simpl.
  rewrite (to_size_t_small (nbytes - br)) by lia.
  replace (if nbytes - br <? size b then nbytes - br else size b) with n
    by (destruct (Z.ltb_spec (nbytes - br) (size b)); lia).
  rewrite (to_size_t_small (BUFFER_SIZE - read_pos b)) by lia.
  destruct (Z.leb_spec n (BUFFER_SIZE - read_pos b)) as [Hfit|Hfit].
  - by rewrite memcpy_short_dest by lia.
  - rewrite (to_size_t_small (n - _)) by lia.
    destruct (memcpy dst br (data b) _ _) as [d1|] eqn:E; simpl; [|done].
    apply memcpy_len in E.
    by rewrite memcpy_short_dest by lia.
Qed.

(** *** The branches of a pass of [write_to_buffer] *)

Lemma write_iter_exit (src : list byte) (nbytes : Z) (e : Obs) (s : write_state) :
  nbytes <= bytes_written s \/ obs_keep_running e = 0 ->
  write_iter BUFFER_SIZE src nbytes e s = Exit s.
Proof.
  intros H. unfold write_iter.
  destruct (Z.ltb_spec (bytes_written s) nbytes),
    (Z.eqb_spec (obs_keep_running e) 0); simpl; try done; lia.
Qed.

Lemma write_iter_wait (src : list byte) (nbytes : Z) (e : Obs) (s : write_state) :
  bytes_written s < nbytes -> obs_keep_running e <> 0 ->
  size (w_buffer s) = BUFFER_SIZE ->
  write_iter BUFFER_SIZE src nbytes e s
  = Continue (mkWrite (obs_wake e (w_buffer s)) (bytes_written s) (w_trace s)).
Proof.
  intros H Hkr Hfull. unfold write_iter.
  destruct (Z.ltb_spec (bytes_written s) nbytes); [|lia].
  destruct (Z.eqb_spec (obs_keep_running e) 0); [done|]. simpl.
  rewrite Hfull, Z.sub_diag. done.
Qed.

Lemma write_iter_keeps (src : list byte) (nbytes : Z) (e : Obs) (s : write_state) :
  nbytes <= SIZE_MAX -> wake_ok BUFFER_SIZE e ->
  write_inv BUFFER_SIZE nbytes s ->
  match write_iter BUFFER_SIZE src nbytes e s with
  | Continue s' | Exit s' => write_inv BUFFER_SIZE nbytes s'
  | Crash => True
  end.
Proof.
  intros Hmax Hwake (Hinv & Hbw & Htr).
  destruct (Z_lt_le_dec (bytes_written s) nbytes) as [Hlt|Hge];
    [|by rewrite write_iter_exit by lia].
  destruct (Z.eq_dec (obs_keep_running e) 0) as [Hkr|Hkr];
    [by rewrite write_iter_exit by lia|].
  pose proof Hinv as (_ & Hs & _ & Hw & _).
  destruct (Z.eq_dec (size (w_buffer s)) BUFFER_SIZE) as [Hfull|Hroom].
  - rewrite write_iter_wait by done.
    split; [by apply Hwake|done].
  - destruct (Z_le_gt_dec
                (bytes_written s
                 + Z.min (nbytes - bytes_written s)
                         (BUFFER_SIZE - size (w_buffer s)))
                (len src)) as [Hsrc|Hsrc];
      [|by rewrite write_iter_crash by (done || lia)].
    destruct (write_iter_store src nbytes e s) as (b' & -> & Hinv' & _);
      try done; try lia.
    split; [done|]. simpl. split; [lia|].
    apply Forall_app. split; [done|].
    split_tests; repeat constructor; lia.
Qed.

(** *** The branches of a pass of [read_from_buffer] *)

Lemma read_iter_exit (nbytes : Z) (e : Obs) (s : read_state) :
  nbytes <= bytes_read s \/ obs_keep_running e = 0 ->
  read_iter BUFFER_SIZE nbytes e s = Exit s.
Proof.
  intros H. unfold read_iter.
  destruct (Z.ltb_spec (bytes_read s) nbytes),
    (Z.eqb_spec (obs_keep_running e) 0); simpl; try done; lia.
Qed.

Lemma read_iter_copy (nbytes : Z) (e : Obs) (s : read_state) :
  bytes_read s < nbytes -> obs_keep_running e <> 0 ->
  size (r_buffer s) <> 0 ->
  read_iter BUFFER_SIZE nbytes e s = read_copy BUFFER_SIZE nbytes s.
Proof.
  intros H Hkr Hsome. unfold read_iter.
  destruct (Z.ltb_spec (bytes_read s) nbytes); [|lia].
  destruct (Z.eqb_spec (obs_keep_running e) 0); [done|]. simpl.
  destruct (Z.eqb_spec (size (r_buffer s)) 0); done.
Qed.

Lemma read_iter_silence (nbytes : Z) (e : Obs) (s : read_state) :
  bytes_read s < nbytes -> obs_keep_running e <> 0 ->
  size (r_buffer s) = 0 ->
  obs_keep_running_inner e = 0 \/ obs_is_audio_playing e = 0 ->
  read_iter BUFFER_SIZE nbytes e s
  = match memset0 (r_data s) (bytes_read s) (to_size_t (nbytes - bytes_read s)) with
    | None => Crash
    | Some d =>
        Exit (mkRead (r_buffer s) d nbytes
                (r_trace s ++ [Memset_zero (bytes_read s)
                                 (to_size_t (nbytes - bytes_read s))]))
    end.
Proof.
  intros H Hkr Hempty Hflag. unfold read_iter.
  destruct (Z.ltb_spec (bytes_read s) nbytes); [|lia].
  destruct (Z.eqb_spec (obs_keep_running e) 0); [done|]. simpl.
  rewrite Hempty. simpl.
  destruct (Z.eqb_spec (obs_keep_running_inner e) 0),
    (Z.eqb_spec (obs_is_audio_playing e) 0); simpl; try done; lia.
Qed.

Lemma read_iter_wait (nbytes : Z) (e : Obs) (s : read_state) :
  bytes_read s < nbytes -> obs_keep_running e <> 0 ->
  size (r_buffer s) = 0 ->
  obs_keep_running_inner e <> 0 -> obs_is_audio_playing e <> 0 ->
  read_iter BUFFER_SIZE nbytes e s
  = if obs_timed_out e && (0 <? nbytes / 10) then
      match memset0 (r_data s) (bytes_read s) (nbytes / 10) with
      | None => Crash
      | Some d =>
          Continue (mkRead (obs_wake e (r_buffer s)) d
                      (to_size_t (bytes_read s + nbytes / 10))
                      (r_trace s ++ [Memset_zero (bytes_read s) (nbytes / 10)]))
      end
    else Continue (mkRead (obs_wake e (r_buffer s)) (r_data s) (bytes_read s)
                     (r_trace s)).
Proof.
  intros H Hkr Hempty Hin Hplay. unfold read_iter.
  destruct (Z.ltb_spec (bytes_read s) nbytes); [|lia].
  destruct (Z.eqb_spec (obs_keep_running e) 0); [done|]. simpl.
  rewrite Hempty. simpl.
  destruct (Z.eqb_spec (obs_keep_running_inner e) 0); [done|].
  destruct (Z.eqb_spec (obs_is_audio_playing e) 0); [done|]. simpl.
  destruct (obs_timed_out e); simpl; [|done].
  destruct (0 <? nbytes / 10); done.
Qed.

Lemma read_iter_keeps (nbytes : Z) (e : Obs) (s : read_state) :
  nbytes <= SIZE_MAX -> wake_ok BUFFER_SIZE e ->
  read_inv BUFFER_SIZE s ->
  match read_iter BUFFER_SIZE nbytes e s with
  | Continue s' | Exit s' => read_inv BUFFER_SIZE s'
  | Crash => True
  end.
Proof.
  intros Hmax Hwake (Hinv & Hbr & Htr).
  destruct (Z_lt_le_dec (bytes_read s) nbytes) as [Hlt|Hge];
    [|by rewrite read_iter_exit by lia].
  destruct (Z.eq_dec (obs_keep_running e) 0) as [Hkr|Hkr];
    [by rewrite read_iter_exit by lia|].
  pose proof Hinv as (_ & Hs & _ & _ & _).
  destruct (Z.eq_dec (size (r_buffer s)) 0) as [Hempty|Hsome].
  - destruct (Z.eq_dec (obs_keep_running_inner e) 0) as [Hin|Hin];
      [|destruct (Z.eq_dec (obs_is_audio_playing e) 0) as [Hplay|Hplay]].
    + rewrite read_iter_silence by (done || lia || auto).
      destruct (memset0 _ _ _); [|done].
      split; [done|]. simpl. split; [lia|].
      apply Forall_app. split; [done|]. by repeat constructor.
    + rewrite read_iter_silence by (done || lia || auto).
      destruct (memset0 _ _ _); [|done].
      split; [done|]. simpl. split; [lia|].
      apply Forall_app. split; [done|]. by repeat constructor.
    + rewrite read_iter_wait by done.
      destruct (obs_timed_out e && (0 <? nbytes / 10)).
      * destruct (memset0 _ _ _); [|done].
        split; [by apply Hwake|]. simpl. split; [apply to_size_t_range|].
        apply Forall_app. split; [done|]. by repeat constructor.
      * split; [by apply Hwake|done].
  - rewrite read_iter_copy by done.
    destruct (Z_le_gt_dec
                (bytes_read s + Z.min (nbytes - bytes_read s) (size (r_buffer s)))
                (len (r_data s))) as [Hdst|Hdst];
      [|by rewrite read_copy_crash by (done || lia)].
    destruct (read_copy_fetch nbytes s) as (b' & -> & Hinv' & _);
      try done; try lia.
    split; [done|]. simpl. split; [lia|].
    apply Forall_app. split; [done|].
    pose proof Hinv as (_ & _ & Hr & _).
    split_tests; repeat constructor; lia.
Qed.

(** *** Loops *)

Lemma loop_keeps {S : Type} (body : Obs -> S -> iter S) (I : S -> Prop)
    (P : Obs -> Prop) (env : list Obs) (s : S) :
  (forall e s, P e -> I s ->
     match body e s with Continue s' | Exit s' => I s' | Crash => True end) ->
  Forall P env -> I s ->
  match loop body env s with
  | Finished s' | Running s' => I s'
  | Undefined => True
  end.
Proof.
  intros Hbody Henv. revert s.
  induction Henv as [|e env He Henv IH]; intros s Hs; simpl; [done|].
  specialize (Hbody e s He Hs).
  destruct (body e s) as [s'|s'|]; [by apply IH|done|done].
Qed.

(** *** Whole calls *)

Lemma write_loop_keeps (b : CircularBuffer) (src : list byte) (nbytes : Z)
    (env : list Obs) :
  buf_inv BUFFER_SIZE b -> 0 <= nbytes <= SIZE_MAX ->
  Forall (wake_ok BUFFER_SIZE) env ->
  match write_loop BUFFER_SIZE b src nbytes env with
  | Finished s | Running s => write_inv BUFFER_SIZE nbytes s
  | Undefined => True
  end.
Proof.
  intros Hinv Hn Henv. unfold write_loop.
  apply (loop_keeps _ (write_inv BUFFER_SIZE nbytes) (wake_ok BUFFER_SIZE));
    [|done|].
  - intros e s He Hs. apply write_iter_keeps; [lia|done|done].
  - split; [done|]. simpl. split; [lia|constructor].
Qed.

Lemma read_loop_keeps (b : CircularBuffer) (dst : list byte) (nbytes : Z)
    (env : list Obs) :
  buf_inv BUFFER_SIZE b -> 0 <= nbytes <= SIZE_MAX ->
  Forall (wake_ok BUFFER_SIZE) env ->
  match read_loop BUFFER_SIZE b dst nbytes env with
  | Finished s | Running s => read_inv BUFFER_SIZE s
  | Undefined => True
  end.
Proof.
  intros Hinv Hn Henv. unfold read_loop.
  apply (loop_keeps _ (read_inv BUFFER_SIZE) (wake_ok BUFFER_SIZE)); [|done|].
  - intros e s He Hs. apply read_iter_keeps; [lia|done|done].
  - split; [done|]. simpl. unfold SIZE_MAX. split; [lia|constructor].
Qed.

Lemma alive_inv (env : list Obs) :
  alive env = true ->
  exists e1 e2 env', env = e1 :: e2 :: env' /\ obs_keep_running e1 <> 0.
Proof.
  destruct env as [|e1 [|e2 env']]; simpl; try done.
  intros H. exists e1, e2, env'. split; [done|].
  by destruct (Z.eqb_spec (obs_keep_running e1) 0).
Qed.

(** A write that finds room for all its bytes stores them in one pass
    and returns. *)
Lemma write_loop_no_wait (b : CircularBuffer) (src : list byte) (nbytes : Z)
    (env : list Obs) :
  buf_inv BUFFER_SIZE b ->
  0 <= nbytes <= BUFFER_SIZE - size b -> nbytes <= len src ->
  alive env = true ->
  exists b' tr,
    write_loop BUFFER_SIZE b src nbytes env = Finished (mkWrite b' nbytes tr)
    /\ buf_inv BUFFER_SIZE b'
    /\ size b' = size b + nbytes
    /\ contents b' = contents b ++ sub src 0 nbytes.
Proof.
  intros Hinv Hn Hsrc (e1 & e2 & env' & -> & Hkr)%alive_inv.
  pose proof capacity_size_t as Hcap.
  pose proof Hinv as (_ & Hs & _).
  unfold write_loop. simpl.
  destruct (Z.eq_dec nbytes 0) as [->|Hpos].
  - rewrite write_iter_exit by (simpl; lia).
    exists b, []. rewrite sub_nil, app_nil_r. split; [done|].
    split; [done|]. split; [lia|done].
  - destruct (write_iter_store src nbytes e1 (mkWrite b 0 []))
      as (b' & Hpass & Hinv' & Hsize & _ & Hcont); simpl; try done; try lia.
    simpl in *.
    rewrite Z.sub_0_r, Z.min_l in * by lia.
    rewrite Hpass.
    rewrite write_iter_exit by (simpl; lia).
    eexists _, _. split; [reflexivity|]. done.
Qed.

(** A read that finds all the bytes it asks for takes them in one pass
    and returns. *)
Lemma read_loop_no_wait (b : CircularBuffer) (dst : list byte) (nbytes : Z)
    (env : list Obs) :
  buf_inv BUFFER_SIZE b ->
  0 <= nbytes <= size b -> nbytes <= len dst ->
  alive env = true ->
  exists b' tr,
    read_loop BUFFER_SIZE b dst nbytes env
    = Finished (mkRead b' (blit dst 0 (sub (contents b) 0 nbytes)) nbytes tr)
    /\ buf_inv BUFFER_SIZE b'
    /\ size b' = size b - nbytes
    /\ contents b = sub (contents b) 0 nbytes ++ contents b'.
Proof.
  intros Hinv Hn Hdst (e1 & e2 & env' & -> & Hkr)%alive_inv.
  pose proof capacity_size_t as Hcap.
  pose proof Hinv as (_ & Hs & _).
  unfold read_loop. simpl.
  destruct (Z.eq_dec nbytes 0) as [->|Hpos].
  - rewrite read_iter_exit by (simpl; lia).
    exists b, []. rewrite sub_nil, blit_nil. split; [done|].
    split; [done|]. split; [lia|done].
  - rewrite read_iter_copy by (simpl; lia).
    destruct (read_copy_fetch nbytes (mkRead b dst 0 []))
      as (b' & Hpass & Hinv' & Hsize & _ & _ & Hcont); simpl; try done; try lia.
    simpl in *.
    rewrite Z.sub_0_r, Z.min_l in * by lia.
    rewrite Hpass.
    rewrite read_iter_exit by (simpl; lia).
    eexists _, _. split; [reflexivity|]. done.
Qed.

Lemma sub_blit_same (l bs : list byte) (n : Z) :
  len bs = n -> n <= len l -> sub (blit l 0 bs) 0 n = bs.
Proof.
  intros Hn Hl. pose proof (len_nonneg bs).
  apply nthz_ext. intros i.
  rewrite nthz_sub by lia. rewrite nthz_blit by lia.
  rewrite Hn. simpl. rewrite Z.sub_0_r.
  split_tests; try done.
  all: symmetry; apply nthz_None; lia.
Qed.

End Passes.

(** ** Sequences of calls *)

(** A pass in which no other thread touches the buffer keeps it as it
    is. *)
Lemma wake_ok_quiet (BUFFER_SIZE : Z) (g : Globals) : wake_ok BUFFER_SIZE (quiet g).
Proof. intros b Hb. exact Hb. Qed.

Lemma init_circular_buffer_inv (BUFFER_SIZE : Z) (b0 : CircularBuffer) :
  0 < BUFFER_SIZE -> len (data b0) = BUFFER_SIZE ->
  buf_inv BUFFER_SIZE (init_circular_buffer b0).
Proof.
  intros Hcap Hd. unfold buf_inv, init_circular_buffer. simpl.
  repeat split; try lia; done.
Qed.

Lemma contents_init (b0 : CircularBuffer) : contents (init_circular_buffer b0) = [].
Proof. unfold contents. simpl. apply sub_nil. Qed.

Lemma run_no_wait (BUFFER_SIZE : Z) (calls : list call) :
  0 < BUFFER_SIZE <= INT_MAX ->
  forall t : session,
    buf_inv BUFFER_SIZE (buffer_now t) ->
    no_wait BUFFER_SIZE calls (size (buffer_now t)) = true ->
    supplied t = delivered t ++ contents (buffer_now t) ->
    exists t',
      run BUFFER_SIZE calls t = Some t'
      /\ supplied t' = delivered t' ++ contents (buffer_now t').
Proof.
  intros Hcap.
  induction calls as [|[src nbytes env|dst nbytes env] calls IH];
    intros [b sup del]; simpl; intros Hinv Hfit Heq.
  - eexists. split; [reflexivity|done].
  - repeat (apply andb_prop in Hfit as [Hfit ?]).
    destruct (write_loop_no_wait BUFFER_SIZE Hcap b src nbytes env)
      as (b' & tr & Hcall & Hinv' & Hsize & Hcont); try done; try lia.
    unfold write_to_buffer. rewrite Hcall.
    apply IH; simpl; [done|by rewrite Hsize|].
    rewrite Heq, Hcont. by rewrite app_assoc.
  - repeat (apply andb_prop in Hfit as [Hfit ?]).
    pose proof Hinv as (_ & Hs & _).
    destruct (read_loop_no_wait BUFFER_SIZE Hcap b dst nbytes env)
      as (b' & tr & Hcall & Hinv' & Hsize & Hcont); try done; try lia.
    unfold read_from_buffer. rewrite Hcall. simpl.
    rewrite to_int_small by lia.
    apply IH; simpl; [done|by rewrite Hsize|].
    rewrite sub_blit_same; [|apply len_sub; try lia|lia].
    + rewrite Heq, Hcont at 1. by rewrite app_assoc.
    + rewrite (len_contents BUFFER_SIZE b Hinv). lia.
Qed.

(** C1.  From an initialised buffer, a sequence of [write_to_buffer] and
    [read_from_buffer] calls none of which has to wait (each write
    finds room for all its bytes, each read finds the bytes it asks
    for, and the program is not shutting down) runs to its end, and the
    bytes handed to the writes are the bytes the reads returned, in the
    same order, followed by the bytes still buffered: what the reads
    return is a prefix of what was written, also when a transfer goes
    round the end of the array. *)
Theorem fifo_no_wait (BUFFER_SIZE : Z) (b0 : CircularBuffer) (calls : list call) :
  0 < BUFFER_SIZE <= INT_MAX ->
  len (data b0) = BUFFER_SIZE ->
  no_wait BUFFER_SIZE calls 0 = true ->
  exists t,
    run BUFFER_SIZE calls (mkSession (init_circular_buffer b0) [] []) = Some t
    /\ supplied t = delivered t ++ contents (buffer_now t)
    /\ delivered t `prefix_of` supplied t.
Proof.
  intros Hcap Hd Hfit.
  destruct (run_no_wait BUFFER_SIZE calls Hcap
              (mkSession (init_circular_buffer b0) [] []))
    as (t & Hrun & Heq).
  - apply init_circular_buffer_inv; [lia|done].
  - done.
  - simpl. by rewrite contents_init.
  - exists t. split; [done|]. split; [done|].
    rewrite Heq. by apply prefix_app_r.
Qed.

Lemma states_keep (BUFFER_SIZE : Z) (calls : list call) :
  0 < BUFFER_SIZE <= INT_MAX ->
  Forall (call_ok BUFFER_SIZE) calls ->
  forall b, buf_inv BUFFER_SIZE b ->
            Forall (buf_inv BUFFER_SIZE) (states BUFFER_SIZE calls b).
Proof.
  intros Hcap Hcalls.
  induction Hcalls as [|[src nbytes env|dst nbytes env] calls [Hn Henv] _ IH];
    intros b Hinv; simpl; [constructor| |].
  - pose proof (write_loop_keeps BUFFER_SIZE Hcap b src nbytes env Hinv Hn Henv)
      as Hkeep.
    unfold write_to_buffer.
    destruct (write_loop BUFFER_SIZE b src nbytes env) as [s|s|]; simpl;
      [destruct Hkeep as [Hinv' _]; constructor; [done|by apply IH]
      |destruct Hkeep as [Hinv' _]; constructor; [done|constructor]
      |constructor].
  - pose proof (read_loop_keeps BUFFER_SIZE Hcap b dst nbytes env Hinv Hn Henv)
      as Hkeep.
    unfold read_from_buffer.
    destruct (read_loop BUFFER_SIZE b dst nbytes env) as [s|s|]; simpl;
      [destruct Hkeep as [Hinv' _]; constructor; [done|by apply IH]
      |destruct Hkeep as [Hinv' _]; constructor; [done|constructor]
      |constructor].
Qed.

(** C2.  From [init_circular_buffer] on, the buffer after every
    [write_to_buffer] and [read_from_buffer] call (and at every wait
    inside one) has [0 <= size <= BUFFER_SIZE], both positions in
    [[0, BUFFER_SIZE)], and [size] congruent to [write_pos - read_pos]
    modulo [BUFFER_SIZE]. *)
Theorem invariant_after_every_call (BUFFER_SIZE : Z) (b0 : CircularBuffer)
    (calls : list call) :
  0 < BUFFER_SIZE <= INT_MAX ->
  len (data b0) = BUFFER_SIZE ->
  Forall (call_ok BUFFER_SIZE) calls ->
  Forall
    (fun b =>
       0 <= size b <= BUFFER_SIZE
       /\ 0 <= read_pos b < BUFFER_SIZE
       /\ 0 <= write_pos b < BUFFER_SIZE
       /\ size b mod BUFFER_SIZE = (write_pos b - read_pos b) mod BUFFER_SIZE)
    (init_circular_buffer b0
       :: states BUFFER_SIZE calls (init_circular_buffer b0)).
Proof.
  intros Hcap Hd Hcalls.
  assert (Hall : Forall (buf_inv BUFFER_SIZE)
                   (init_circular_buffer b0
                      :: states BUFFER_SIZE calls (init_circular_buffer b0))).
  { assert (buf_inv BUFFER_SIZE (init_circular_buffer b0))
      by (apply init_circular_buffer_inv; [lia|done]).
    constructor; [done|]. by apply states_keep. }
  eapply Forall_impl; [exact Hall|].
  intros b (_ & H). exact H.
Qed.

(** ** An empty buffer *)

(** The variant of A9.c in "Ahmad (Used)" has no test of
    [is_audio_playing]: there the same call waits on the condition
    variable, and is still waiting when nothing wakes it with data. *)
Lemma Ahmad_idle_read_waits (BUFFER_SIZE : Z) (b : CircularBuffer)
    (dst : list byte) (N : Z) (env : list Obs) :
  size b = 0 -> 0 < N ->
  Forall (fun e => obs_keep_running e <> 0 /\ obs_keep_running_inner e <> 0
                   /\ obs_wake e b = b) env ->
  Ahmad_read_loop BUFFER_SIZE b dst N env = Running (mkRead b dst 0 []).
Proof.
  intros Hempty HN Henv. unfold Ahmad_read_loop.
  induction Henv as [|e env (Hkr & Hin & Hwake) _ IH]; simpl; [done|].
  unfold Ahmad_read_iter. simpl.
  destruct (Z.ltb_spec 0 N); [|lia].
  destruct (Z.eqb_spec (obs_keep_running e) 0); [done|]. simpl.
  rewrite Hempty. simpl.
  destruct (Z.eqb_spec (obs_keep_running_inner e) 0); [done|].
  by rewrite Hwake.
Qed.

(** C5.  The [read_from_buffer] that tests [is_audio_playing] (the
    variant with [BUFFER_SIZE] 32768), called for [N] bytes on an empty
    buffer while the program is not shutting down and no audio is
    playing ([is_audio_playing == 0]), returns in its first pass: it
    hands back [N] zero bytes in the first [N] bytes of the
    destination, leaves the buffer as it is, and returns [N].  The
    [read_from_buffer] of the variant with 16384 bytes has no such
    test: called for [N > 0] bytes on the same buffer it waits, the
    destination as it was, for as long as it reads [keep_running] as
    set and its waits come back with the buffer as it was. *)
Theorem idle_read_is_silence (BUFFER_SIZE : Z) (b : CircularBuffer)
    (dst : list byte) (N : Z) (e : Obs) (env : list Obs) :
  size b = 0 ->
  0 <= N <= SIZE_MAX -> N <= len dst ->
  obs_keep_running e <> 0 -> obs_keep_running_inner e <> 0 ->
  obs_is_audio_playing e = 0 ->
  (exists s,
     read_loop BUFFER_SIZE b dst N (e :: env) = Finished s
     /\ bytes_read s = N
     /\ r_buffer s = b
     /\ r_data s = blit dst 0 (replicate (Z.to_nat N) x00)
     /\ sub (r_data s) 0 N = replicate (Z.to_nat N) x00
     /\ (N <= INT_MAX ->
         read_from_buffer BUFFER_SIZE b dst N (e :: env)
         = Finished (N, b, blit dst 0 (replicate (Z.to_nat N) x00))))
  /\ (0 < N ->
      Forall (fun e' => obs_keep_running e' <> 0
                        /\ obs_keep_running_inner e' <> 0
                        /\ obs_wake e' b = b) (e :: env) ->
      Ahmad_read_from_buffer BUFFER_SIZE b dst N (e :: env)
      = Running (0, b, dst)).
Proof.
  intros Hempty HN Hdst Hkr Hin Hidle.
  split.
  2:{ intros Hpos Henv. unfold Ahmad_read_from_buffer.
      by rewrite Ahmad_idle_read_waits. }
  assert (Hsub : sub (blit dst 0 (replicate (Z.to_nat N) x00)) 0 N
                 = replicate (Z.to_nat N) x00).
  { apply sub_blit_same; [apply len_replicate|]; lia. }
  unfold read_from_buffer, read_loop. simpl.
  destruct (Z.eq_dec N 0) as [->|Hpos].
  - rewrite read_iter_exit by (simpl; lia).
    eexists. split; [reflexivity|]. simpl.
    rewrite blit_nil. repeat split; try done.
  - rewrite read_iter_silence by (simpl; auto; lia). simpl.
    rewrite Z.sub_0_r, to_size_t_small by lia.
    rewrite memset0_ok by lia.
    eexists. split; [reflexivity|]. simpl.
    repeat split; try done.
    intros HN'. by rewrite to_int_small by lia.
Qed.

(** On the buffer of 16 bytes: the reader of the variant with 16384
    bytes, called for 8 bytes while no audio is playing, has stored
    nothing after 100 passes, and returns after no number of them. *)
Lemma Ahmad_idle_read_never_returns :
  Ahmad_read_from_buffer 16 buffer16 (garbage 8) 8 (replicate 100 idle)
  = Running (0, buffer16, garbage 8)
  /\ ~ (exists (k : nat) (r : Z * CircularBuffer * list byte),
          Ahmad_read_from_buffer 16 buffer16 (garbage 8) 8 (replicate k idle)
          = Finished r).
Proof.
  split; [vm_compute; reflexivity|].
  intros (k & r & Hfin). unfold Ahmad_read_from_buffer in Hfin.
  rewrite Ahmad_idle_read_waits in Hfin; try done.
  by apply Forall_replicate.
Qed.

(** ** Shutting down *)

(** When the loop condition reads [keep_running] as 0 the loop of
    [read_from_buffer] is left at once, in both variants: the count read
    so far is returned and the rest of the destination is not
    touched. *)
Lemma read_loop_shutdown (BUFFER_SIZE : Z) (b : CircularBuffer) (dst : list byte)
    (nbytes : Z) (e : Obs) (env : list Obs) :
  obs_keep_running e = 0 ->
  read_loop BUFFER_SIZE b dst nbytes (e :: env) = Finished (mkRead b dst 0 [])
  /\ Ahmad_read_loop BUFFER_SIZE b dst nbytes (e :: env)
     = Finished (mkRead b dst 0 []).
Proof.
  intros Hkr. unfold read_loop, Ahmad_read_loop. simpl.
  rewrite read_iter_exit by auto.
  unfold Ahmad_read_iter. simpl. rewrite Hkr. simpl.
  by rewrite andb_false_r.
Qed.

(** The silence of the shutdown branch is reached only when
    [keep_running] changes between the loop condition and the test in
    the empty branch. *)
Lemma read_loop_shutdown_race (BUFFER_SIZE : Z) (b : CircularBuffer)
    (dst : list byte) (nbytes : Z) (e : Obs) (env : list Obs) :
  size b = 0 -> 0 < nbytes <= SIZE_MAX -> nbytes <= len dst ->
  obs_keep_running e <> 0 -> obs_keep_running_inner e = 0 ->
  read_loop BUFFER_SIZE b dst nbytes (e :: env)
  = Finished (mkRead b (blit dst 0 (replicate (Z.to_nat nbytes) x00)) nbytes
                [Memset_zero 0 nbytes]).
Proof.
  intros Hempty Hn Hdst Hkr Hin. unfold read_loop. simpl.
  rewrite read_iter_silence by (simpl; auto; lia). simpl.
  rewrite Z.sub_0_r, to_size_t_small by lia.
  by rewrite memset0_ok by lia.
Qed.

(** ** Timeouts on an empty buffer *)

Ltac dlia := Z.to_euclidean_division_equations; lia.

(** A timed-out wait stores [nbytes / 10] zero bytes and goes back to
    the loop condition; for [nbytes < 10] that is no byte at all. *)
Lemma read_iter_timeout (BUFFER_SIZE nbytes : Z) (e : Obs) (s : read_state) :
  size (r_buffer s) = 0 ->
  0 <= bytes_read s < nbytes -> nbytes <= INT_MAX ->
  starved e ->
  bytes_read s + nbytes / 10 <= len (r_data s) ->
  read_iter BUFFER_SIZE nbytes e s
  = Continue
      (mkRead (obs_wake e (r_buffer s))
         (blit (r_data s) (bytes_read s) (replicate (Z.to_nat (nbytes / 10)) x00))
         (bytes_read s + nbytes / 10)
         (r_trace s ++
            if 0 <? nbytes / 10
            then [Memset_zero (bytes_read s) (nbytes / 10)] else [])).
Proof.
  intros Hempty Hbr Hmax (Hkr & Hin & Hplay & Hto & _) Hfit.
  pose proof INT_MAX_le_SIZE_MAX.
  assert (0 <= nbytes / 10 <= nbytes) by dlia.
  rewrite read_iter_wait by (done || lia).
  rewrite Hto. simpl.
  destruct (Z.ltb_spec 0 (nbytes / 10)) as [Hq|Hq].
  - rewrite memset0_ok by lia.
    rewrite to_size_t_small; [done|]. unfold INT_MAX, SIZE_MAX in *. lia.
  - replace (nbytes / 10) with 0 by lia. simpl.
    by rewrite blit_nil, app_nil_r, Z.add_0_r.
Qed.

(** With fewer than ten bytes asked for, timeouts never end the call. *)
Lemma starved_small_runs (BUFFER_SIZE : Z) (dst : list byte) (nbytes : Z)
    (env : list Obs) :
  1 <= nbytes < 10 -> Forall starved env ->
  forall b, size b = 0 ->
    exists b', read_loop BUFFER_SIZE b dst nbytes env = Running (mkRead b' dst 0 [])
               /\ size b' = 0.
Proof.
  intros Hn Henv. unfold read_loop.
  induction Henv as [|e env He _ IH]; intros b Hb; simpl.
  - by exists b.
  - rewrite read_iter_timeout; simpl; try done; try lia.
    + replace (nbytes / 10) with 0 by dlia.
      simpl. rewrite blit_nil.
      apply IH. by apply He.
    + unfold INT_MAX. lia.
    + replace (nbytes / 10) with 0 by dlia.
      pose proof (len_nonneg dst). lia.
Qed.

(** With ten bytes or more asked for, [fuel] timeouts that reach
    [nbytes] end the call. *)
Lemma starved_returns (BUFFER_SIZE nbytes : Z) (fuel : nat) :
  10 <= nbytes <= INT_MAX ->
  forall (env : list Obs) (s : read_state),
    Forall starved env -> (fuel < length env)%nat ->
    size (r_buffer s) = 0 ->
    0 <= bytes_read s < nbytes + nbytes / 10 ->
    nbytes <= bytes_read s + Z.of_nat fuel * (nbytes / 10) ->
    nbytes + nbytes / 10 <= len (r_data s) ->
    exists s', loop (read_iter BUFFER_SIZE nbytes) (take (S fuel) env) s
               = Finished s'
               /\ nbytes <= bytes_read s'.
Proof.
  intros Hn.
  assert (Hq : 1 <= nbytes / 10) by dlia.
  induction fuel as [|fuel IH]; intros env s Henv Hlen Hempty Hbr Hreach Hroom;
    destruct Henv as [|e env He Henv]; simpl in Hlen; try lia.
  - simpl. rewrite read_iter_exit by lia. exists s. split; [done|lia].
  - cbn [take loop].
    destruct (Z_lt_le_dec (bytes_read s) nbytes) as [Hlt|Hge].
    + rewrite read_iter_timeout by (done || lia).
      destruct (Z.ltb_spec 0 (nbytes / 10)); [|lia].
      apply IH; simpl; try done; try lia.
      * destruct He as (_ & _ & _ & _ & Hwake). by apply Hwake.
      * rewrite len_blit; [done|lia|].
        rewrite len_replicate; lia.
    + rewrite read_iter_exit by lia. by exists s.
Qed.

Lemma starved_playing : starved playing.
Proof. unfold starved, playing, quiet. simpl. repeat split; done. Qed.

(** C4, as the code has it.  A wait on an empty buffer while audio is
    playing that runs into its timeout stores [nbytes / 10] zero bytes
    (rounded down) at the current offset of the destination, adds as
    many to [bytes_read] and goes back to the loop condition; it does
    not return.  With ten bytes or more asked for, no data arriving and
    room in the destination for the zero bytes stored, the call returns
    after at most 19 such timeouts.  With fewer than ten bytes asked
    for a timeout stores nothing and the call stays in its loop. *)
Theorem timeout_silence (BUFFER_SIZE nbytes : Z) (e : Obs) (s : read_state)
    (b : CircularBuffer) (dst : list byte) (env : list Obs) :
  size (r_buffer s) = 0 ->
  0 <= bytes_read s < nbytes -> nbytes <= INT_MAX ->
  starved e ->
  bytes_read s + nbytes / 10 <= len (r_data s) ->
  size b = 0 ->
  Forall starved env -> (19 < length env)%nat ->
  nbytes + nbytes / 10 <= len dst ->
  read_iter BUFFER_SIZE nbytes e s
  = Continue
      (mkRead (obs_wake e (r_buffer s))
         (blit (r_data s) (bytes_read s) (replicate (Z.to_nat (nbytes / 10)) x00))
         (bytes_read s + nbytes / 10)
         (r_trace s ++
            if 0 <? nbytes / 10
            then [Memset_zero (bytes_read s) (nbytes / 10)] else []))
  /\ if nbytes <? 10
     then exists b', read_loop BUFFER_SIZE b dst nbytes env
                     = Running (mkRead b' dst 0 [])
     else exists s', read_loop BUFFER_SIZE b dst nbytes (take 20 env)
                     = Finished s'
                     /\ nbytes <= bytes_read s'.
Proof.
  intros Hempty Hbr Hmax He Hfit Hb Henv Hlen Hdst.
  split; [by apply read_iter_timeout|].
  destruct (Z.ltb_spec nbytes 10).
  - destruct (starved_small_runs BUFFER_SIZE dst nbytes env) with (b := b)
      as (b' & Hrun & _); try done; try lia.
    by exists b'.
  - apply (starved_returns BUFFER_SIZE nbytes 19); simpl; try done; try lia;
      dlia.
Qed.

(** C4, as stated, fails for a request of 5 bytes: however many
    timeouts go by, the call does not return. *)
Lemma timeout_small_request_never_returns :
  ~ (exists (k : nat) (s : read_state),
        read_loop 16 buffer16 (garbage 5) 5 (replicate k playing) = Finished s).
Proof.
  intros (k & s & Hfin).
  destruct (starved_small_runs 16 (garbage 5) 5 (replicate k playing))
    with (b := buffer16) as (b' & Hrun & _); try done.
  - apply Forall_replicate, starved_playing.
  - by rewrite Hrun in Hfin.
Qed.

(** C3.  With [keep_running] already 0 when the loop condition reads
    it, [read_from_buffer] on an empty buffer returns 0 and leaves the
    four bytes of the destination as they were, in both variants; and a
    call that was waiting on the empty buffer when the program shut
    down returns the 2 bytes of its one timeout out of the 20 asked
    for. *)
Example shutdown_read_short_count :
  read_from_buffer 16 buffer16 (garbage 4) 4 [shutting_down]
  = Finished (0, buffer16, garbage 4)
  /\ Ahmad_read_from_buffer 16 buffer16 (garbage 4) 4 [shutting_down]
     = Finished (0, buffer16, garbage 4)
  /\ read_from_buffer 16 buffer16 (garbage 20) 20 [playing; shutting_down]
     = Finished (2, buffer16, [x00; x00] ++ garbage 18).
Proof. repeat split; vm_compute; reflexivity. Qed.

(** ** The destination of a read *)

Lemma memset0_len (dest : list byte) (doff n : Z) (d : list byte) :
  memset0 dest doff n = Some d -> len d = len dest.
Proof.
  unfold memset0.
  destruct (Z.leb_spec 0 doff), (Z.leb_spec 0 n),
    (Z.leb_spec (doff + n) (len dest)); simpl; try done.
  intros [= <-]. rewrite len_blit; [done|lia|].
  rewrite len_replicate; lia.
Qed.

Lemma to_size_t_le (x : Z) : 0 <= x -> 0 <= to_size_t x <= x.
Proof.
  intros Hx. unfold to_size_t.
  pose proof (Z.mod_pos_bound x (2 ^ 64) ltac:(lia)).
  pose proof (Z.mod_le x (2 ^ 64) Hx ltac:(lia)). lia.
Qed.

(** With [nbytes + nbytes / 10] bytes behind the destination no pass
    of [read_from_buffer] leaves its arrays. *)
Lemma read_iter_defined (BUFFER_SIZE nbytes room : Z) (e : Obs) (s : read_state) :
  0 < BUFFER_SIZE <= INT_MAX ->
  0 <= nbytes <= SIZE_MAX -> nbytes + nbytes / 10 <= room ->
  wake_ok BUFFER_SIZE e ->
  read_room BUFFER_SIZE nbytes room s ->
  match read_iter BUFFER_SIZE nbytes e s with
  | Continue s' | Exit s' => read_room BUFFER_SIZE nbytes room s'
  | Crash => False
  end.
Proof.
  intros Hcap Hn Hroom Hwake (Hinv & Hle & Hlen).
  pose proof (read_iter_keeps BUFFER_SIZE Hcap nbytes e s ltac:(lia) Hwake Hinv)
    as Hkeep.
  destruct Hinv as (Hbuf & Hbr & Htr).
  assert (Hq : 0 <= nbytes / 10) by dlia.
  destruct (Z_lt_le_dec (bytes_read s) nbytes) as [Hlt|Hge];
    [|by rewrite read_iter_exit in * by lia].
  destruct (Z.eq_dec (obs_keep_running e) 0) as [Hkr|Hkr];
    [by rewrite read_iter_exit in * by auto|].
  pose proof Hbuf as (_ & Hs & _).
  destruct (Z.eq_dec (size (r_buffer s)) 0) as [Hempty|Hsome].
  - assert (Hfill : memset0 (r_data s) (bytes_read s)
                      (to_size_t (nbytes - bytes_read s))
                    = Some (blit (r_data s) (bytes_read s)
                              (replicate (Z.to_nat (nbytes - bytes_read s)) x00))).
    { rewrite to_size_t_small by lia. apply memset0_ok; lia. }
    destruct (Z.eq_dec (obs_keep_running_inner e) 0) as [Hin|Hin];
      [|destruct (Z.eq_dec (obs_is_audio_playing e) 0) as [Hplay|Hplay]].
    + rewrite read_iter_silence in * by (done || lia || auto).
      rewrite Hfill in *. split; [done|]. simpl. split; [lia|].
      rewrite len_blit; rewrite ?len_replicate; lia.
    + rewrite read_iter_silence in * by (done || lia || auto).
      rewrite Hfill in *. split; [done|]. simpl. split; [lia|].
      rewrite len_blit; rewrite ?len_replicate; lia.
    + rewrite read_iter_wait in * by done.
      destruct (obs_timed_out e && (0 <? nbytes / 10)).
      * rewrite memset0_ok in * by lia.
        split; [done|]. simpl.
        pose proof (to_size_t_le (bytes_read s + nbytes / 10) ltac:(lia)).
        split; [lia|].
        rewrite len_blit; rewrite ?len_replicate; lia.
      * split; [done|]. simpl. split; [lia|done].
  - rewrite read_iter_copy in * by done.
    destruct (read_copy_fetch BUFFER_SIZE Hcap nbytes s)
      as (b' & Hpass & _); try done; try lia.
    rewrite Hpass in *. split; [done|]. simpl. split; [lia|].
    pose proof (len_contents BUFFER_SIZE _ Hbuf).
    rewrite len_blit; rewrite ?len_sub; lia.
Qed.

Lemma read_loop_defined (BUFFER_SIZE : Z) (b : CircularBuffer) (dst : list byte)
    (nbytes : Z) (env : list Obs) :
  0 < BUFFER_SIZE <= INT_MAX ->
  buf_inv BUFFER_SIZE b ->
  0 <= nbytes <= SIZE_MAX -> nbytes + nbytes / 10 <= len dst ->
  Forall (wake_ok BUFFER_SIZE) env ->
  read_loop BUFFER_SIZE b dst nbytes env <> Undefined.
Proof.
  intros Hcap Hinv Hn Hroom Henv. unfold read_loop.
  assert (Hq : 0 <= nbytes / 10) by dlia.
  assert (Hs : read_room BUFFER_SIZE nbytes (len dst) (mkRead b dst 0 [])).
  { split; [split; [done|]|]; simpl.
    - unfold SIZE_MAX. split; [lia|constructor].
    - split; [lia|done]. }
  revert Hs. generalize (mkRead b dst 0 []).
  induction Henv as [|e env He _ IH]; intros s Hs; simpl; [done|].
  pose proof (read_iter_defined BUFFER_SIZE nbytes (len dst) e s Hcap Hn Hroom
                He Hs) as Hpass.
  destruct (read_iter BUFFER_SIZE nbytes e s); [by apply IH|done|done].
Qed.

Lemma sub_blit_before (l bs : list byte) (off k : Z) :
  0 <= k <= off -> off + len bs <= len l ->
  sub (blit l off bs) 0 k = sub l 0 k.
Proof.
  intros Hk Hfit. pose proof (len_nonneg bs).
  apply nthz_ext. intros i. lookups. simpl.
  split_tests; done.
Qed.

(** What a pass of [read_from_buffer] has handed over stays: a pass
    writes at the count or behind it, and the count does not go
    down. *)
Lemma read_iter_frame (BUFFER_SIZE nbytes room : Z) (e : Obs) (s : read_state)
    (k : Z) :
  0 < BUFFER_SIZE <= INT_MAX ->
  0 <= nbytes <= INT_MAX -> nbytes + nbytes / 10 <= room ->
  read_room BUFFER_SIZE nbytes room s ->
  0 <= k <= bytes_read s ->
  match read_iter BUFFER_SIZE nbytes e s with
  | Continue s' | Exit s' =>
      k <= bytes_read s' /\ sub (r_data s') 0 k = sub (r_data s) 0 k
  | Crash => True
  end.
Proof.
  intros Hcap Hn Hroom ((Hbuf & Hbr & Htr) & Hle & Hlen) Hk.
  assert (Hq : 0 <= nbytes / 10 <= nbytes) by dlia.
  destruct (Z_lt_le_dec (bytes_read s) nbytes) as [Hlt|Hge];
    [|rewrite read_iter_exit by lia; split; [lia|done]].
  destruct (Z.eq_dec (obs_keep_running e) 0) as [Hkr|Hkr];
    [rewrite read_iter_exit by auto; split; [lia|done]|].
  pose proof Hbuf as (_ & Hs & _).
  destruct (Z.eq_dec (size (r_buffer s)) 0) as [Hempty|Hsome].
  - assert (Hfill : memset0 (r_data s) (bytes_read s)
                      (to_size_t (nbytes - bytes_read s))
                    = Some (blit (r_data s) (bytes_read s)
                              (replicate (Z.to_nat (nbytes - bytes_read s)) x00))).
    { rewrite to_size_t_small by (unfold INT_MAX, SIZE_MAX in *; lia).
      apply memset0_ok; lia. }
    destruct (Z.eq_dec (obs_keep_running_inner e) 0) as [Hin|Hin];
      [|destruct (Z.eq_dec (obs_is_audio_playing e) 0) as [Hplay|Hplay]].
    + rewrite read_iter_silence by (done || lia || auto).
      rewrite Hfill. simpl. split; [lia|].
      apply sub_blit_before; rewrite ?len_replicate; lia.
    + rewrite read_iter_silence by (done || lia || auto).
      rewrite Hfill. simpl. split; [lia|].
      apply sub_blit_before; rewrite ?len_replicate; lia.
    + rewrite read_iter_wait by done.
      destruct (obs_timed_out e && (0 <? nbytes / 10)); [|simpl; split; [lia|done]].
      rewrite memset0_ok by lia. simpl.
      rewrite to_size_t_small by (unfold INT_MAX, SIZE_MAX in *; lia).
      split; [lia|].
      apply sub_blit_before; rewrite ?len_replicate; lia.
  - rewrite read_iter_copy by done.
    destruct (read_copy_fetch BUFFER_SIZE Hcap nbytes s)
      as (b' & -> & _); try done;
      try (unfold INT_MAX, SIZE_MAX in *; lia).
    simpl. split; [lia|].
    pose proof (len_contents BUFFER_SIZE _ Hbuf).
    apply sub_blit_before; rewrite ?len_sub; lia.
Qed.

Lemma read_loop_frame (BUFFER_SIZE nbytes room : Z) (k : Z) (env : list Obs) :
  0 < BUFFER_SIZE <= INT_MAX ->
  0 <= nbytes <= INT_MAX -> nbytes + nbytes / 10 <= room ->
  Forall (wake_ok BUFFER_SIZE) env ->
  forall s : read_state,
    read_room BUFFER_SIZE nbytes room s ->
    0 <= k <= bytes_read s ->
    match loop (read_iter BUFFER_SIZE nbytes) env s with
    | Finished s' | Running s' =>
        k <= bytes_read s' /\ sub (r_data s') 0 k = sub (r_data s) 0 k
    | Undefined => False
    end.
Proof.
  intros Hcap Hn Hroom Henv.
  pose proof INT_MAX_le_SIZE_MAX as Hmax.
  induction Henv as [|e env He _ IH]; intros s Hs Hk; simpl; [by split; [lia|]|].
  pose proof (read_iter_defined BUFFER_SIZE nbytes room e s Hcap ltac:(lia) Hroom
                He Hs) as Hdef.
  pose proof (read_iter_frame BUFFER_SIZE nbytes room e s k Hcap Hn Hroom Hs Hk)
    as Hframe.
  destruct (read_iter BUFFER_SIZE nbytes e s) as [s'|s'|]; [|done|done].
  destruct Hframe as (Hk' & Heq).
  specialize (IH s' Hdef ltac:(lia)).
  destruct (loop _ env s'); [|idtac|done];
    destruct IH as (? & ->); by split.
Qed.

(** The two variants of [read_from_buffer] differ in the empty branch
    only. *)
Lemma Ahmad_read_iter_agrees (BUFFER_SIZE nbytes : Z) (e : Obs) (s : read_state) :
  size (r_buffer s) <> 0 \/ nbytes <= bytes_read s \/ obs_keep_running e = 0 ->
  Ahmad_read_iter BUFFER_SIZE nbytes e s = read_iter BUFFER_SIZE nbytes e s.
Proof.
  intros H. unfold Ahmad_read_iter, read_iter.
  destruct (Z.ltb_spec (bytes_read s) nbytes),
    (Z.eqb_spec (obs_keep_running e) 0); simpl; try done.
  destruct (Z.eqb_spec (size (r_buffer s)) 0); [lia|done].
Qed.

(** The last block of silence of a starved call goes past the bytes
    asked for: of 25 bytes asked for, 26 are written and returned when
    the memory behind the destination allows it. *)
Example timeout_silence_overshoots :
  read_from_buffer 16 buffer16 (garbage 30) 25 (replicate 20 playing)
  = Finished (26, buffer16, replicate 26 x00 ++ garbage 4)
  /\ read_from_buffer 16 buffer16 (garbage 25) 25 (replicate 20 playing)
     = Undefined.
Proof. split; vm_compute; reflexivity. Qed.

(** A writer parked at a full buffer, and a reader of the variant
    without timeout parked at an empty one, return at the first wake-up
    at which the loop condition reads [keep_running] as 0; the model
    says nothing about whether that wake-up comes. *)
Lemma parked_calls_end_when_woken (BUFFER_SIZE : Z) (full empty : CircularBuffer)
    (src dst : list byte) (nbytes : Z) (env : list Obs) (e : Obs)
    (env' : list Obs) :
  size full = BUFFER_SIZE -> size empty = 0 -> 0 < nbytes ->
  Forall (fun e => obs_keep_running e <> 0 /\ obs_keep_running_inner e <> 0
                   /\ obs_wake e full = full /\ obs_wake e empty = empty) env ->
  obs_keep_running e = 0 ->
  write_loop BUFFER_SIZE full src nbytes (env ++ e :: env')
  = Finished (mkWrite full 0 [])
  /\ Ahmad_read_loop BUFFER_SIZE empty dst nbytes (env ++ e :: env')
     = Finished (mkRead empty dst 0 []).
Proof.
  intros Hfull Hempty Hn Henv Hkr. unfold write_loop, Ahmad_read_loop.
  induction Henv as [|e0 env (Hkr0 & Hin0 & Hwf & Hwe) _ IH]; simpl.
  - rewrite write_iter_exit by auto.
    unfold Ahmad_read_iter. simpl. rewrite Hkr. simpl.
    by rewrite andb_false_r.
  - rewrite write_iter_wait by done. simpl. rewrite Hwf.
    unfold Ahmad_read_iter at 1. simpl.
    destruct (Z.ltb_spec 0 nbytes); [|lia].
    destruct (Z.eqb_spec (obs_keep_running e0) 0); [done|]. simpl.
    rewrite Hempty. simpl.
    destruct (Z.eqb_spec (obs_keep_running_inner e0) 0); [done|].
    rewrite Hwe. exact IH.
Qed.

(** ** What the waits of a call have seen *)

Lemma loop_keeps_defined {S : Type} (body : Obs -> S -> iter S) (I : S -> Prop)
    (P : Obs -> Prop) (env : list Obs) (s : S) :
  (forall e s, P e -> I s ->
     match body e s with Continue s' | Exit s' => I s' | Crash => False end) ->
  Forall P env -> I s ->
  match loop body env s with
  | Finished s' | Running s' => I s'
  | Undefined => False
  end.
Proof.
  intros Hbody Henv. revert s.
  induction Henv as [|e env He Henv IH]; intros s Hs; simpl; [done|].
  specialize (Hbody e s He Hs).
  destruct (body e s) as [s'|s'|]; [by apply IH|done|done].
Qed.

(** The same with the bytes seen at the passes so far. *)
Lemma loop_keeps_stream {S : Type} (body : Obs -> S -> iter S)
    (seen : Obs -> S -> list byte) (I : list byte -> S -> Prop)
    (P : Obs -> Prop) (env : list Obs) (s : S) (g : list byte) :
  (forall e s g, P e -> I g s ->
     match body e s with
     | Continue s' | Exit s' => I (g ++ seen e s) s'
     | Crash => False
     end) ->
  Forall P env -> I g s ->
  match loop body env s with
  | Finished s' | Running s' => I (g ++ during body seen env s) s'
  | Undefined => False
  end.
Proof.
  intros Hbody Henv. revert s g.
  induction Henv as [|e env He Henv IH]; intros s g Hs; simpl.
  - by rewrite app_nil_r.
  - specialize (Hbody e s g He Hs).
    destruct (body e s) as [s'|s'|]; [|by rewrite app_nil_r|done].
    rewrite app_assoc. by apply IH.
Qed.

Lemma sub_split (l : list byte) (a n : Z) :
  0 <= a -> 0 <= n -> a + n <= len l ->
  sub l 0 (a + n) = sub l 0 a ++ sub l a n.
Proof.
  intros Ha Hn Hl. apply nthz_ext. intros i.
  rewrite nthz_app, len_sub by lia. lookups. simpl.
  split_tests; try done; f_equal; lia.
Qed.

Lemma sub_app_front (l1 l2 : list byte) : sub (l1 ++ l2) 0 (len l1) = l1.
Proof. unfold sub, len. rewrite Nat2Z.id. simpl. apply take_app_length. Qed.

Lemma sub_app_back (l1 l2 : list byte) : sub (l1 ++ l2) (len l1) (len l2) = l2.
Proof.
  unfold sub, len. rewrite !Nat2Z.id, drop_app_length. by apply take_ge.
Qed.

(** What a consumer has taken out is what [removed] reads off the
    buffer, and what a producer has put in is what [appended] reads
    off it. *)
Lemma removed_takes_out (BUFFER_SIZE : Z) (f : CircularBuffer -> CircularBuffer)
    (b : CircularBuffer) :
  takes_out BUFFER_SIZE f -> buf_inv BUFFER_SIZE b ->
  buf_inv BUFFER_SIZE (f b) /\ contents b = removed f b ++ contents (f b).
Proof.
  intros Hf Hb. destruct (Hf b Hb) as (Hfb & taken & Ht). split; [done|].
  pose proof (len_contents BUFFER_SIZE _ Hb) as Hlb.
  pose proof (len_contents BUFFER_SIZE _ Hfb) as Hlf.
  rewrite Ht, len_app in Hlb.
  unfold removed.
  replace (size b - size (f b)) with (len taken) by lia.
  by rewrite Ht, sub_app_front.
Qed.

Lemma appended_puts_in (BUFFER_SIZE : Z) (f : CircularBuffer -> CircularBuffer)
    (b : CircularBuffer) :
  puts_in BUFFER_SIZE f -> buf_inv BUFFER_SIZE b ->
  buf_inv BUFFER_SIZE (f b) /\ contents (f b) = contents b ++ appended f b.
Proof.
  intros Hf Hb. destruct (Hf b Hb) as (Hfb & added & Ha). split; [done|].
  pose proof (len_contents BUFFER_SIZE _ Hb) as Hlb.
  pose proof (len_contents BUFFER_SIZE _ Hfb) as Hlf.
  rewrite Ha, len_app in Hlf.
  unfold appended.
  replace (size (f b) - size b) with (len added) by lia.
  by rewrite Ha, <- Hlb, sub_app_back.
Qed.

Lemma takes_out_wake_ok (BUFFER_SIZE : Z) (env : list Obs) :
  Forall (fun e => takes_out BUFFER_SIZE (obs_wake e)) env ->
  Forall (wake_ok BUFFER_SIZE) env.
Proof.
  intros Henv. eapply Forall_impl; [exact Henv|].
  intros e He b Hb. by destruct (He b Hb).
Qed.

(** A reader that finds its bytes takes them out at the front, a
    writer that finds room puts its bytes in at the back. *)
Lemma reader_takes_out (BUFFER_SIZE : Z) (dst : list byte) (m : Z) :
  0 < BUFFER_SIZE <= INT_MAX -> takes_out BUFFER_SIZE (reader BUFFER_SIZE dst m).
Proof.
  intros Hcap b Hinv. unfold reader.
  destruct (Z.leb_spec 0 m), (Z.leb_spec m (size b)), (Z.leb_spec m (len dst));
    simpl; try (split; [done|by exists []]).
  destruct (read_loop_no_wait BUFFER_SIZE Hcap b dst m
              [quiet (mkGlobals b 1 1); quiet (mkGlobals b 1 1)])
    as (b' & tr & -> & Hinv' & _ & Hcont); try done; try lia.
  simpl. split; [done|]. by exists (sub (contents b) 0 m).
Qed.

Lemma writer_puts_in (BUFFER_SIZE : Z) (src : list byte) (m : Z) :
  0 < BUFFER_SIZE <= INT_MAX -> puts_in BUFFER_SIZE (writer BUFFER_SIZE src m).
Proof.
  intros Hcap b Hinv. unfold writer.
  destruct (Z.leb_spec 0 m), (Z.leb_spec m (BUFFER_SIZE - size b)),
    (Z.leb_spec m (len src));
    simpl; try (split; [done|exists []; by rewrite app_nil_r]).
  destruct (write_loop_no_wait BUFFER_SIZE Hcap b src m
              [quiet (mkGlobals b 1 1); quiet (mkGlobals b 1 1)])
    as (b' & tr & -> & Hinv' & _ & Hcont); try done; try lia.
  simpl. split; [done|]. by exists (sub src 0 m).
Qed.

Lemma reader_frees_room (BUFFER_SIZE : Z) (dst : list byte) (m : Z) :
  0 < BUFFER_SIZE <= INT_MAX -> 0 < m <= BUFFER_SIZE -> m <= len dst ->
  frees_room BUFFER_SIZE (mkObs 1 1 1 false (reader BUFFER_SIZE dst m)).
Proof.
  intros Hcap Hm Hdst. split; [done|]. split.
  - intros b Hb. by apply reader_takes_out.
  - intros b Hinv. simpl. unfold reader.
    pose proof Hinv as (_ & Hs & _).
    destruct (Z.leb_spec 0 m); [|lia].
    destruct (Z.leb_spec m (len dst)); [|lia].
    destruct (Z.leb_spec m (size b)); simpl; [|lia].
    destruct (read_loop_no_wait BUFFER_SIZE Hcap b dst m
                [quiet (mkGlobals b 1 1); quiet (mkGlobals b 1 1)])
      as (b' & tr & -> & _ & Hsize & _); try done; try lia.
    simpl. lia.
Qed.

(** Which passes of a writer see bytes go. *)
Lemma taken_at_wait (BUFFER_SIZE nbytes : Z) (e : Obs) (s : write_state) :
  bytes_written s < nbytes -> obs_keep_running e <> 0 ->
  size (w_buffer s) = BUFFER_SIZE ->
  taken_at BUFFER_SIZE nbytes e s = removed (obs_wake e) (w_buffer s).
Proof.
  intros Hlt Hkr Hfull. unfold taken_at, write_waits.
  rewrite Hfull, Z.sub_diag.
  destruct (Z.ltb_spec (bytes_written s) nbytes); [|lia].
  by destruct (Z.eqb_spec (obs_keep_running e) 0).
Qed.

Lemma taken_at_none (BUFFER_SIZE nbytes : Z) (e : Obs) (s : write_state) :
  0 < BUFFER_SIZE <= INT_MAX ->
  nbytes <= bytes_written s \/ obs_keep_running e = 0
  \/ 0 <= size (w_buffer s) < BUFFER_SIZE ->
  taken_at BUFFER_SIZE nbytes e s = [].
Proof.
  intros Hcap H. unfold taken_at, write_waits.
  pose proof INT_MAX_le_SIZE_MAX.
  destruct (Z.ltb_spec (bytes_written s) nbytes); [|done].
  destruct (Z.eqb_spec (obs_keep_running e) 0); [done|]. simpl.
  rewrite to_size_t_small by lia.
  destruct (Z.eqb_spec (BUFFER_SIZE - size (w_buffer s)) 0); [lia|done].
Qed.

(** What is buffered is the tail end of the stream, and the bytes in
    front of it are the ones the consumer has taken out. *)
Lemma write_loop_keeps_stream (BUFFER_SIZE : Z) (src : list byte) (nbytes : Z)
    (stream0 : list byte) (env : list Obs) (s : write_state) (g : list byte) :
  0 < BUFFER_SIZE <= INT_MAX ->
  0 <= nbytes <= SIZE_MAX -> nbytes <= len src ->
  Forall (fun e => takes_out BUFFER_SIZE (obs_wake e)) env ->
  buf_inv BUFFER_SIZE (w_buffer s) ->
  0 <= bytes_written s <= nbytes ->
  g ++ contents (w_buffer s) = stream0 ++ sub src 0 (bytes_written s) ->
  match loop (write_iter BUFFER_SIZE src nbytes) env s with
  | Finished s' | Running s' =>
      buf_inv BUFFER_SIZE (w_buffer s')
      /\ 0 <= bytes_written s' <= nbytes
      /\ (g ++ during (write_iter BUFFER_SIZE src nbytes)
                  (taken_at BUFFER_SIZE nbytes) env s)
         ++ contents (w_buffer s')
         = stream0 ++ sub src 0 (bytes_written s')
  | Undefined => False
  end.
Proof.
  intros Hcap Hn Hsrc Henv Hinv Hbw Heq.
  apply (loop_keeps_stream _ _
           (fun g s => buf_inv BUFFER_SIZE (w_buffer s)
                       /\ 0 <= bytes_written s <= nbytes
                       /\ g ++ contents (w_buffer s)
                          = stream0 ++ sub src 0 (bytes_written s))
           (fun e => takes_out BUFFER_SIZE (obs_wake e))); [|done|done].
  clear s g Hinv Hbw Heq. intros e s g He (Hinvs & Hbw & Heq).
  destruct (Z_lt_le_dec (bytes_written s) nbytes) as [Hlt|Hge];
    [|by rewrite write_iter_exit, taken_at_none, app_nil_r by (done || lia)].
  destruct (Z.eq_dec (obs_keep_running e) 0) as [Hkr|Hkr];
    [by rewrite write_iter_exit, taken_at_none, app_nil_r by (done || lia)|].
  pose proof Hinvs as (_ & Hsz & _).
  destruct (Z.eq_dec (size (w_buffer s)) BUFFER_SIZE) as [Hfull|Hroom].
  - rewrite write_iter_wait, taken_at_wait by done. simpl.
    destruct (removed_takes_out _ _ _ He Hinvs) as (Hinv' & Ht).
    split; [done|]. split; [done|].
    by rewrite <- Heq, Ht, !app_assoc.
  - destruct (write_iter_store BUFFER_SIZE Hcap src nbytes e s)
      as (b' & -> & Hinv' & _ & _ & Hcont); try done; try lia.
    rewrite taken_at_none, app_nil_r by (done || lia). simpl.
    split; [done|]. split; [lia|].
    rewrite Hcont, app_assoc, Heq, <- app_assoc.
    f_equal. symmetry. apply sub_split; lia.
Qed.

Lemma write_loop_completes (BUFFER_SIZE : Z) (src : list byte) (nbytes : Z) :
  0 < BUFFER_SIZE <= INT_MAX ->
  0 <= nbytes <= SIZE_MAX -> nbytes <= len src ->
  forall (env : list Obs) (s : write_state),
    Forall (frees_room BUFFER_SIZE) env ->
    buf_inv BUFFER_SIZE (w_buffer s) ->
    0 <= bytes_written s <= nbytes ->
    2 * (nbytes - bytes_written s)
    + (if size (w_buffer s) =? BUFFER_SIZE then 1 else 0)
    < Z.of_nat (length env) ->
    exists s', loop (write_iter BUFFER_SIZE src nbytes) env s = Finished s'
               /\ bytes_written s' = nbytes
               /\ buf_inv BUFFER_SIZE (w_buffer s').
Proof.
  intros Hcap Hn Hsrc env.
  induction env as [|e env IH]; intros s Henv Hinv Hbw Hfuel.
  - simpl in Hfuel. destruct (size (w_buffer s) =? BUFFER_SIZE); lia.
  - apply Forall_cons in Henv as [(Hkr & Hwake & Hfree) Henv].
    rewrite length_cons in Hfuel. simpl.
    destruct (Z_lt_le_dec (bytes_written s) nbytes) as [Hlt|Hge];
      [|rewrite write_iter_exit by lia; exists s; split; [done|split; [lia|done]]].
    pose proof Hinv as (_ & Hsz & _).
    destruct (Z.eqb_spec (size (w_buffer s)) BUFFER_SIZE) as [Hfull|Hroom].
    + rewrite write_iter_wait by done.
      apply IH; simpl; try done; [by apply Hwake|].
      specialize (Hfree _ Hinv).
      destruct (Z.eqb_spec (size (obs_wake e (w_buffer s))) BUFFER_SIZE); lia.
    + destruct (write_iter_store BUFFER_SIZE Hcap src nbytes e s)
        as (b' & -> & Hinv' & _); try done; try lia.
      apply IH; simpl; try done; [lia|].
      destruct (size b' =? BUFFER_SIZE); lia.
Qed.

(** ** The contract of [write_to_buffer] *)

(** With [nbytes] bytes behind [src], the loop never copies outside its
    arrays, and it is left either with all bytes written or after the
    loop condition has read [keep_running] as 0. *)
Lemma write_loop_result (BUFFER_SIZE : Z) (src : list byte) (nbytes : Z) :
  0 < BUFFER_SIZE <= INT_MAX ->
  nbytes <= SIZE_MAX -> nbytes <= len src ->
  forall (env : list Obs) (s : write_state),
    Forall (wake_ok BUFFER_SIZE) env ->
    write_inv BUFFER_SIZE nbytes s ->
    match loop (write_iter BUFFER_SIZE src nbytes) env s with
    | Finished s' =>
        write_inv BUFFER_SIZE nbytes s'
        /\ (bytes_written s' = nbytes
            \/ Exists (fun e => obs_keep_running e = 0) env)
    | Running s' => write_inv BUFFER_SIZE nbytes s'
    | Undefined => False
    end.
Proof.
  intros Hcap Hmax Hsrc env s Henv. revert s.
  induction Henv as [|e env He Henv IH]; intros s Hs; simpl; [done|].
  pose proof (write_iter_keeps BUFFER_SIZE Hcap src nbytes e s Hmax He Hs) as Hkeep.
  destruct Hs as (Hinv & Hbw & Htr).
  destruct (Z_lt_le_dec (bytes_written s) nbytes) as [Hlt|Hge].
  - destruct (Z.eq_dec (obs_keep_running e) 0) as [Hkr|Hkr].
    + rewrite write_iter_exit by auto.
      split; [done|]. right. by constructor.
    + assert (Hnext : exists s', write_iter BUFFER_SIZE src nbytes e s = Continue s').
      { pose proof Hinv as (_ & Hsz & _).
        destruct (Z.eq_dec (size (w_buffer s)) BUFFER_SIZE) as [Hfull|Hroom].
        - rewrite write_iter_wait by done. by eexists.
        - destruct (write_iter_store BUFFER_SIZE Hcap src nbytes e s)
            as (b' & -> & _); try done; try lia.
          by eexists. }
      destruct Hnext as (s' & Hnext). rewrite Hnext in *.
      specialize (IH s' Hkeep).
      destruct (loop _ env s'); [|done|done].
      destruct IH as (? & [?|?]); split; auto.
  - rewrite write_iter_exit by lia.
    split; [done|]. left. lia.
Qed.

(** A writer at a full buffer stays in its loop for as long as the
    program keeps running and nobody takes bytes out. *)
Lemma write_blocks_while_full (BUFFER_SIZE : Z) (b : CircularBuffer)
    (src : list byte) (nbytes : Z) (env : list Obs) :
  size b = BUFFER_SIZE -> 0 < nbytes ->
  Forall (fun e => obs_keep_running e <> 0 /\ obs_wake e b = b) env ->
  write_loop BUFFER_SIZE b src nbytes env = Running (mkWrite b 0 []).
Proof.
  intros Hfull Hn Henv. unfold write_loop.
  induction Henv as [|e env (Hkr & Hwake) _ IH]; simpl; [done|].
  rewrite write_iter_wait by done. simpl. by rewrite Hwake.
Qed.

(** C6.  A pass of [write_to_buffer] that has bytes left to write while
    the program keeps running waits when the buffer is full, and
    otherwise stores as many bytes as are left and fit,
    [min (nbytes - bytes_written) (BUFFER_SIZE - size)], behind the
    buffered ones, in one [memcpy] or, when they go round the end of
    the array, in two.  A call, with a consumer that takes bytes out
    during its waits, has copied the first [n] bytes of [src] behind
    the buffered ones, in order and each once: the bytes the consumer
    took out during the waits, followed by the bytes buffered at the
    end, are the bytes buffered at the start followed by those [n]
    bytes.  [n] is [nbytes], or less after the loop condition has read
    [keep_running] as 0, and the [int] returned is [n] converted to
    [int]: [n] itself when [nbytes <= INT_MAX].  With room for all its
    bytes the call returns at once; when every wait ends with room in
    the buffer it returns with all bytes written; at a buffer that
    stays full while the program keeps running it does not return. *)
Theorem write_contract (BUFFER_SIZE : Z) (b : CircularBuffer) (src : list byte)
    (nbytes : Z) (env : list Obs) (e : Obs) (s : write_state) :
  0 < BUFFER_SIZE <= INT_MAX ->
  buf_inv BUFFER_SIZE b ->
  0 <= nbytes <= SIZE_MAX -> nbytes <= len src ->
  Forall (fun e => takes_out BUFFER_SIZE (obs_wake e)) env ->
  write_inv BUFFER_SIZE nbytes s ->
  (if (bytes_written s <? nbytes) && negb (obs_keep_running e =? 0) then
     if size (w_buffer s) =? BUFFER_SIZE then
       write_iter BUFFER_SIZE src nbytes e s
       = Continue (mkWrite (obs_wake e (w_buffer s)) (bytes_written s) (w_trace s))
     else
       let n := Z.min (nbytes - bytes_written s)
                      (BUFFER_SIZE - size (w_buffer s)) in
       let first_chunk := BUFFER_SIZE - write_pos (w_buffer s) in
       exists b',
         write_iter BUFFER_SIZE src nbytes e s
         = Continue
             (mkWrite b' (bytes_written s + n)
                (w_trace s ++
                   if n <=? first_chunk
                   then [Memcpy_in (write_pos (w_buffer s)) (bytes_written s) n]
                   else [Memcpy_in (write_pos (w_buffer s)) (bytes_written s)
                                   first_chunk;
                         Memcpy_in 0 (bytes_written s + first_chunk)
                                   (n - first_chunk)]))
         /\ 0 < n
         /\ size b' = size (w_buffer s) + n
         /\ size b' <= BUFFER_SIZE
         /\ contents b' = contents (w_buffer s) ++ sub src (bytes_written s) n
   else write_iter BUFFER_SIZE src nbytes e s = Exit s)
  /\ match write_to_buffer BUFFER_SIZE b src nbytes env with
     | Finished (ret, b') =>
         exists n,
           ret = to_int n
           /\ (nbytes <= INT_MAX -> ret = n)
           /\ 0 <= n <= nbytes
           /\ (n = nbytes \/ Exists (fun e => obs_keep_running e = 0) env)
           /\ buf_inv BUFFER_SIZE b'
           /\ taken_during BUFFER_SIZE b src nbytes env ++ contents b'
              = contents b ++ sub src 0 n
     | Running (ret, b') =>
         exists n,
           ret = to_int n
           /\ 0 <= n <= nbytes
           /\ buf_inv BUFFER_SIZE b'
           /\ taken_during BUFFER_SIZE b src nbytes env ++ contents b'
              = contents b ++ sub src 0 n
     | Undefined => False
     end
  /\ (alive env = true -> nbytes <= BUFFER_SIZE - size b ->
      exists b',
        write_to_buffer BUFFER_SIZE b src nbytes env = Finished (nbytes, b')
        /\ contents b' = contents b ++ sub src 0 nbytes)
  /\ (Forall (frees_room BUFFER_SIZE) env ->
      2 * nbytes + 1 < Z.of_nat (length env) ->
      exists b',
        write_to_buffer BUFFER_SIZE b src nbytes env
        = Finished (to_int nbytes, b')
        /\ taken_during BUFFER_SIZE b src nbytes env ++ contents b'
           = contents b ++ sub src 0 nbytes)
  /\ (size b = BUFFER_SIZE -> 0 < nbytes ->
      Forall (fun e => obs_keep_running e <> 0 /\ obs_wake e b = b) env ->
      write_to_buffer BUFFER_SIZE b src nbytes env = Running (0, b)).
Proof.
  intros Hcap Hinv Hn Hsrc Henv Hs.
  pose proof INT_MAX_le_SIZE_MAX as Hmax.
  pose proof (write_loop_keeps_stream BUFFER_SIZE src nbytes (contents b) env
                (mkWrite b 0 []) [] Hcap Hn Hsrc Henv Hinv
                ltac:(simpl; lia) ltac:(by rewrite sub_nil, app_nil_r))
    as Hstream.
  change (loop _ env _) with (write_loop BUFFER_SIZE b src nbytes env) in Hstream.
  change ([] ++ during _ _ env _)
    with (taken_during BUFFER_SIZE b src nbytes env) in Hstream.
  split; [|split; [|split; [|split]]].
  - destruct Hs as (Hinvs & Hbw & Htr).
    pose proof Hinvs as (_ & Hsz & _).
    destruct (Z.ltb_spec (bytes_written s) nbytes);
      [|by rewrite write_iter_exit by lia].
    destruct (Z.eqb_spec (obs_keep_running e) 0); simpl;
      [by rewrite write_iter_exit by auto|].
    destruct (Z.eqb_spec (size (w_buffer s)) BUFFER_SIZE);
      [by rewrite write_iter_wait|].
    destruct (write_iter_store BUFFER_SIZE Hcap src nbytes e s)
      as (b' & Hpass & Hinv' & Hsize & _ & Hcont); try done; try lia.
    exists b'. pose proof Hinv' as (_ & Hsz' & _).
    repeat split; try done; lia.
  - pose proof (write_loop_result BUFFER_SIZE src nbytes Hcap ltac:(lia) Hsrc
                  env (mkWrite b 0 []) (takes_out_wake_ok _ _ Henv)) as Hres.
    unfold write_to_buffer.
    change (loop _ env _) with (write_loop BUFFER_SIZE b src nbytes env) in Hres.
    destruct (write_loop BUFFER_SIZE b src nbytes env) as [s'|s'|]; [| |done].
    + destruct Hres as (_ & Hret).
      { split; [done|]. simpl. split; [lia|constructor]. }
      destruct Hstream as (Hinv' & Hbw & Heq).
      exists (bytes_written s'). split; [done|].
      split; [intros Hsmall; apply to_int_small; lia|done].
    + destruct Hstream as (Hinv' & Hbw & Heq).
      by exists (bytes_written s').
  - intros Halive Hroom.
    destruct (write_loop_no_wait BUFFER_SIZE Hcap b src nbytes env)
      as (b' & tr & Hcall & _ & _ & Hcont); try done; try lia.
    exists b'. unfold write_to_buffer. rewrite Hcall. simpl.
    pose proof Hinv as (_ & Hsz & _).
    by rewrite to_int_small by lia.
  - intros Hfree Hlen.
    destruct (write_loop_completes BUFFER_SIZE src nbytes Hcap Hn Hsrc env
                (mkWrite b 0 []) Hfree Hinv ltac:(simpl; lia))
      as (s' & Hloop & Hbw & _).
    { simpl. destruct (size b =? BUFFER_SIZE); lia. }
    unfold write_to_buffer, write_loop in *. rewrite Hloop in *.
    destruct Hstream as (_ & _ & Heq). rewrite Hbw in *.
    by exists (w_buffer s').
  - intros Hfull Hpos Hblocked. unfold write_to_buffer.
    by rewrite write_blocks_while_full.
Qed.

(** On the buffer of 16 bytes, with a consumer that takes 8 bytes out
    whenever the writer waits: a call for [2 ^ 31] bytes returns with
    all of them written while [keep_running] is set all along, and the
    [int] it returns is negative. *)
Lemma write_of_2_31_bytes_returns_negative :
  Forall (fun e => obs_keep_running e <> 0)
    (replicate (Z.to_nat (2 ^ 32 + 2)) consumer8)
  /\ exists b',
       write_to_buffer 16 buffer16 (replicate (Z.to_nat (2 ^ 31)) x00) (2 ^ 31)
         (replicate (Z.to_nat (2 ^ 32 + 2)) consumer8)
       = Finished (- 2 ^ 31, b').
Proof.
  split; [by apply Forall_replicate|].
  assert (Hsrc : len (replicate (Z.to_nat (2 ^ 31)) x00) = 2 ^ 31).
  { unfold len. rewrite length_replicate. apply Z2Nat.id. lia. }
  assert (Hn : 0 <= 2 ^ 31 <= SIZE_MAX) by (unfold SIZE_MAX; lia).
  assert (Hcap : 0 < 16 <= INT_MAX) by (unfold INT_MAX; lia).
  assert (Hinv : buf_inv 16 buffer16).
  { unfold buf_inv. cbn [buffer16 init_circular_buffer data size read_pos
                         write_pos]. repeat split; try lia; reflexivity. }
  assert (Hfree : Forall (frees_room 16)
                    (replicate (Z.to_nat (2 ^ 32 + 2)) consumer8)).
  { apply Forall_replicate. apply reader_frees_room; [done|lia|].
    vm_compute. discriminate. }
  destruct (write_loop_completes 16 (replicate (Z.to_nat (2 ^ 31)) x00) (2 ^ 31)
              Hcap Hn ltac:(rewrite Hsrc; lia)
              (replicate (Z.to_nat (2 ^ 32 + 2)) consumer8) (mkWrite buffer16 0 [])
              Hfree Hinv ltac:(cbn [bytes_written]; lia))
    as (s' & Hloop & Hbw & _).
  { rewrite length_replicate, Z2Nat.id by lia.
    cbn [bytes_written w_buffer buffer16 init_circular_buffer size].
    change (0 =? 16) with false. lia. }
  exists (w_buffer s'). unfold write_to_buffer, write_loop.
  rewrite Hloop, Hbw. reflexivity.
Qed.

(** ** The copies and the backing array *)

(** C7.  In a pass of [write_to_buffer] or [read_from_buffer] that
    copies [n] bytes, the first chunk is [BUFFER_SIZE] minus the
    position ([write_pos] or [read_pos]); there is one [memcpy] when
    [n] is at most that, and otherwise one of the first chunk at the
    position and one of the rest at offset 0.  Each of them, and every
    [memcpy] of every call, lies inside the backing array: its offset
    plus its length is at most [BUFFER_SIZE].  A pass can leave an
    array only behind the caller's memory: a write needs [nbytes]
    bytes behind its source, a read [nbytes + nbytes / 10] behind its
    destination. *)
Theorem memcpy_stays_in_array (BUFFER_SIZE : Z) (b : CircularBuffer)
    (src dst : list byte) (nbytes : Z) (env : list Obs) (e : Obs)
    (ws : write_state) (rs : read_state) :
  0 < BUFFER_SIZE <= INT_MAX ->
  buf_inv BUFFER_SIZE b -> 0 <= nbytes <= SIZE_MAX ->
  Forall (wake_ok BUFFER_SIZE) env ->
  obs_keep_running e <> 0 ->
  write_inv BUFFER_SIZE nbytes ws ->
  bytes_written ws < nbytes -> size (w_buffer ws) < BUFFER_SIZE ->
  read_inv BUFFER_SIZE rs ->
  bytes_read rs < nbytes -> size (r_buffer rs) <> 0 ->
  (let pos := write_pos (w_buffer ws) in
   let n := Z.min (nbytes - bytes_written ws)
                  (BUFFER_SIZE - size (w_buffer ws)) in
   let first_chunk := BUFFER_SIZE - pos in
   let copies :=
     if n <=? first_chunk
     then [Memcpy_in pos (bytes_written ws) n]
     else [Memcpy_in pos (bytes_written ws) first_chunk;
           Memcpy_in 0 (bytes_written ws + first_chunk) (n - first_chunk)] in
   Forall (in_array BUFFER_SIZE) copies
   /\ match write_iter BUFFER_SIZE src nbytes e ws with
      | Continue s' => w_trace s' = w_trace ws ++ copies
      | Exit _ => False
      | Crash => len src < bytes_written ws + n
      end)
  /\ (let pos := read_pos (r_buffer rs) in
      let n := Z.min (nbytes - bytes_read rs) (size (r_buffer rs)) in
      let first_chunk := BUFFER_SIZE - pos in
      let copies :=
        if n <=? first_chunk
        then [Memcpy_out (bytes_read rs) pos n]
        else [Memcpy_out (bytes_read rs) pos first_chunk;
              Memcpy_out (bytes_read rs + first_chunk) 0 (n - first_chunk)] in
      Forall (in_array BUFFER_SIZE) copies
      /\ match read_iter BUFFER_SIZE nbytes e rs with
         | Continue s' => r_trace s' = r_trace rs ++ copies
         | Exit _ => False
         | Crash => len (r_data rs) < bytes_read rs + n
         end)
  /\ match write_loop BUFFER_SIZE b src nbytes env with
     | Finished s | Running s => Forall (in_array BUFFER_SIZE) (w_trace s)
     | Undefined => len src < nbytes
     end
  /\ match read_loop BUFFER_SIZE b dst nbytes env with
     | Finished s | Running s => Forall (in_array BUFFER_SIZE) (r_trace s)
     | Undefined => len dst < nbytes + nbytes / 10
     end.
Proof.
  intros Hcap Hinv Hn Henv Hkr Hws Hbw Hroom Hrs Hbr Hsome.
  split; [|split; [|split]].
  - destruct Hws as (Hinvw & Hbw' & _).
    pose proof Hinvw as (_ & Hsz & _ & Hwp & _).
    split; [split_tests; repeat constructor; lia|].
    destruct (Z_le_gt_dec
                (bytes_written ws
                 + Z.min (nbytes - bytes_written ws)
                         (BUFFER_SIZE - size (w_buffer ws)))
                (len src)) as [Hsrc|Hsrc].
    + by destruct (write_iter_store BUFFER_SIZE Hcap src nbytes e ws)
        as (b' & -> & _); try done; try lia.
    + rewrite write_iter_crash by (done || lia). lia.
  - destruct Hrs as (Hinvr & Hbr' & _).
    pose proof Hinvr as (_ & Hsz & Hrp & _).
    split; [split_tests; repeat constructor; lia|].
    rewrite read_iter_copy by done.
    destruct (Z_le_gt_dec
                (bytes_read rs + Z.min (nbytes - bytes_read rs) (size (r_buffer rs)))
                (len (r_data rs))) as [Hdst|Hdst].
    + by destruct (read_copy_fetch BUFFER_SIZE Hcap nbytes rs)
        as (b' & -> & _); try done; try lia.
    + rewrite read_copy_crash by (done || lia). lia.
  - destruct (Z_le_gt_dec nbytes (len src)) as [Hsrc|Hsrc].
    + pose proof (write_loop_result BUFFER_SIZE src nbytes Hcap ltac:(lia) Hsrc
                    env (mkWrite b 0 []) Henv) as Hres.
      unfold write_loop.
      destruct (loop _ env _) as [s'|s'|].
      * apply Hres. split; [done|]. simpl. split; [lia|constructor].
      * apply Hres. split; [done|]. simpl. split; [lia|constructor].
      * exfalso. apply Hres. split; [done|]. simpl. split; [lia|constructor].
    + pose proof (write_loop_keeps BUFFER_SIZE Hcap b src nbytes env Hinv Hn Henv)
        as Hkeep.
      destruct (write_loop _ _ _ _ _); [apply Hkeep|apply Hkeep|lia].
  - pose proof (read_loop_keeps BUFFER_SIZE Hcap b dst nbytes env Hinv Hn Henv)
      as Hkeep.
    destruct (Z_le_gt_dec (nbytes + nbytes / 10) (len dst)) as [Hdst|Hdst].
    + pose proof (read_loop_defined BUFFER_SIZE b dst nbytes env Hcap Hinv Hn
                    Hdst Henv) as Hdef.
      destruct (read_loop _ _ _ _ _); [apply Hkeep|apply Hkeep|done].
    + destruct (read_loop _ _ _ _ _); [apply Hkeep|apply Hkeep|lia].
Qed.

(** ** Play and stop *)

(** C10.  [play_audio] and [stop_audio] set [is_audio_playing] and
    nothing else: the buffer (array, positions, count) and
    [keep_running] are as before.  So with bytes buffered, a stop
    followed by a play leaves them where they were, and the next
    [read_from_buffer] copies the oldest of them to the start of the
    destination, not silence; a call for no more bytes than are
    buffered returns exactly these, and whatever a longer call appends
    behind them, they are the first bytes it hands back. *)
Theorem stop_keeps_buffered_bytes (BUFFER_SIZE : Z) (g : Globals)
    (dst : list byte) (nbytes : Z) :
  0 < BUFFER_SIZE <= INT_MAX ->
  buf_inv BUFFER_SIZE (audio_buffer g) ->
  0 < size (audio_buffer g) ->
  keep_running g <> 0 ->
  0 < nbytes <= INT_MAX -> nbytes <= len dst ->
  let g' := play_audio (stop_audio g) in
  let n := Z.min nbytes (size (audio_buffer g)) in
  let oldest := sub (contents (audio_buffer g)) 0 n in
  audio_buffer (stop_audio g) = audio_buffer g
  /\ keep_running (stop_audio g) = keep_running g
  /\ is_audio_playing (stop_audio g) = 0
  /\ audio_buffer (play_audio g) = audio_buffer g
  /\ keep_running (play_audio g) = keep_running g
  /\ is_audio_playing (play_audio g) = 1
  /\ audio_buffer g' = audio_buffer g
  /\ (exists b' tr,
        read_iter BUFFER_SIZE nbytes (quiet g') (mkRead (audio_buffer g') dst 0 [])
        = Continue (mkRead b' (blit dst 0 oldest) n tr)
        /\ contents (audio_buffer g) = oldest ++ contents b')
  /\ (nbytes <= size (audio_buffer g) ->
      exists b',
        read_from_buffer BUFFER_SIZE (audio_buffer g') dst nbytes
          [quiet g'; quiet g']
        = Finished (nbytes, b', blit dst 0 oldest)
        /\ contents (audio_buffer g) = oldest ++ contents b')
  /\ (forall env', Forall (wake_ok BUFFER_SIZE) env' ->
                   nbytes + nbytes / 10 <= len dst ->
        match read_loop BUFFER_SIZE (audio_buffer g') dst nbytes
                (quiet g' :: env') with
        | Finished s | Running s =>
            n <= bytes_read s /\ sub (r_data s) 0 n = oldest
        | Undefined => False
        end).
Proof.
  intros Hcap Hinv Hsome Hkr Hn Hdst. simpl.
  pose proof INT_MAX_le_SIZE_MAX as Hmax.
  pose proof Hinv as (_ & Hsz & _).
  do 7 (split; [done|]).
  split; [|split].
  - rewrite read_iter_copy by (simpl; lia).
    destruct (read_copy_fetch BUFFER_SIZE Hcap nbytes
                (mkRead (audio_buffer g) dst 0 []))
      as (b' & Hpass & _ & _ & _ & _ & Hcont); simpl; try done; try lia.
    simpl in *. rewrite Z.sub_0_r in *.
    exists b'. eexists. split; [exact Hpass|exact Hcont].
  - intros Hall.
    destruct (read_loop_no_wait BUFFER_SIZE Hcap (audio_buffer g) dst nbytes
                [quiet (play_audio (stop_audio g));
                 quiet (play_audio (stop_audio g))])
      as (b' & tr & Hcall & _ & _ & Hcont); try done; try lia.
    { simpl. by destruct (Z.eqb_spec (keep_running g) 0). }
    exists b'. unfold read_from_buffer. rewrite Hcall. simpl.
    rewrite to_int_small by lia.
    by rewrite Z.min_l by lia.
  - intros env' Henv' Hroom. unfold read_loop. simpl loop.
    assert (Hq : 0 <= nbytes / 10) by dlia.
    assert (Hs0 : read_room BUFFER_SIZE nbytes (len dst)
                    (mkRead (audio_buffer g) dst 0 [])).
    { split; [split; [done|]|]; simpl.
      - unfold SIZE_MAX. split; [lia|constructor].
      - split; [lia|done]. }
    pose proof (read_iter_defined BUFFER_SIZE nbytes (len dst)
                  (quiet (play_audio (stop_audio g)))
                  (mkRead (audio_buffer g) dst 0 []) Hcap ltac:(lia) Hroom
                  (wake_ok_quiet _ _) Hs0) as Hs1.
    rewrite read_iter_copy in * by (simpl; lia).
    destruct (read_copy_fetch BUFFER_SIZE Hcap nbytes
                (mkRead (audio_buffer g) dst 0 []))
      as (b' & Hpass & _); simpl; try done; try lia.
    simpl in Hpass. rewrite Z.sub_0_r in Hpass. rewrite Hpass in *.
    set (n := Z.min nbytes (size (audio_buffer g))) in *.
    pose proof (len_contents BUFFER_SIZE _ Hinv) as Hlc.
    assert (Hold : sub (blit dst 0 (sub (contents (audio_buffer g)) 0 n)) 0 n
                   = sub (contents (audio_buffer g)) 0 n).
    { apply sub_blit_same; [apply len_sub|]; lia. }
    match goal with
    | |- context [loop _ env' ?s1] =>
        pose proof (read_loop_frame BUFFER_SIZE nbytes (len dst) n env' Hcap
                      ltac:(lia) Hroom Henv' s1 Hs1 ltac:(simpl; lia)) as Hframe
    end.
    destruct (loop _ env' _); [|idtac|done];
      destruct Hframe as (? & Heq); simpl in Heq; rewrite Hold in Heq; by split.
Qed.

(** ** Construction *)



(** ** The theorems at work on the buffer of 16 bytes *)

Lemma capacity16 : 0 < 16 <= INT_MAX.
Proof. unfold INT_MAX. lia. Qed.

(** Both values of [BUFFER_SIZE] are capacities the theorems are
    about. *)
Lemma capacity_of_variants :
  0 < A9_BUFFER_SIZE <= INT_MAX /\ 0 < Ahmad_BUFFER_SIZE <= INT_MAX.
Proof. unfold A9_BUFFER_SIZE, Ahmad_BUFFER_SIZE, INT_MAX. lia. Qed.

Ltac inv16 :=
  unfold buf_inv; simpl; repeat split; first [lia | reflexivity].

Lemma buffer16_inv : buf_inv 16 buffer16.
Proof. inv16. Qed.

Lemma ahead16_inv : buf_inv 16 ahead16.
Proof. inv16. Qed.

Lemma round16_inv : buf_inv 16 round16.
Proof. inv16. Qed.

Lemma full16_inv : buf_inv 16 full16.
Proof. inv16. Qed.

Lemma wrap_calls_ok : Forall (call_ok 16) wrap_calls.
Proof.
  unfold wrap_calls.
  repeat (apply Forall_cons_2;
          [split;
           [unfold SIZE_MAX; lia
           |repeat (apply Forall_cons_2; [apply wake_ok_quiet|]);
            apply Forall_nil_2]
          |]).
  apply Forall_nil_2.
Qed.

(** The scenario evaluated: the 6 and the 14 bytes read are the
    20 bytes written, in order. *)
Example wrap_calls_run :
  run 16 wrap_calls (mkSession buffer16 [] [])
  = Some (mkSession
            (mkCircularBuffer
               [x11; x12; x13; x14; x05; x06; x07; x08; x09; x0a;
                x0b; x0c; x0d; x0e; x0f; x10] 4 4 0)
            [x01; x02; x03; x04; x05; x06; x07; x08; x09; x0a;
             x0b; x0c; x0d; x0e; x0f; x10; x11; x12; x13; x14]
            [x01; x02; x03; x04; x05; x06; x07; x08; x09; x0a;
             x0b; x0c; x0d; x0e; x0f; x10; x11; x12; x13; x14]).
Proof. vm_compute. reflexivity. Qed.

Lemma fifo_no_wait_witness :
  0 < 16 <= INT_MAX
  /\ len (data buffer16) = 16
  /\ no_wait 16 wrap_calls 0 = true
  /\ exists t,
       run 16 wrap_calls (mkSession (init_circular_buffer buffer16) [] []) = Some t
       /\ supplied t = delivered t ++ contents (buffer_now t)
       /\ delivered t `prefix_of` supplied t.
Proof.
  split; [exact capacity16|]. split; [reflexivity|]. split; [reflexivity|].
  exact (fifo_no_wait 16 buffer16 wrap_calls capacity16 eq_refl eq_refl).
Defined.

Lemma invariant_after_every_call_witness :
  0 < 16 <= INT_MAX
  /\ len (data buffer16) = 16
  /\ Forall (call_ok 16) wrap_calls
  /\ Forall
       (fun b =>
          0 <= size b <= 16
          /\ 0 <= read_pos b < 16
          /\ 0 <= write_pos b < 16
          /\ size b mod 16 = (write_pos b - read_pos b) mod 16)
       (init_circular_buffer buffer16
          :: states 16 wrap_calls (init_circular_buffer buffer16)).
Proof.
  split; [exact capacity16|]. split; [reflexivity|].
  split; [exact wrap_calls_ok|].
  exact (invariant_after_every_call 16 buffer16 wrap_calls capacity16 eq_refl
           wrap_calls_ok).
Defined.

Ltac evaluate :=
  vm_compute; repeat split; first [reflexivity | discriminate].

Lemma idle_read_is_silence_witness :
  size buffer16 = 0
  /\ 0 <= 8 <= SIZE_MAX
  /\ 8 <= len (garbage 8)
  /\ obs_keep_running idle <> 0
  /\ obs_keep_running_inner idle <> 0
  /\ obs_is_audio_playing idle = 0
  /\ (exists s,
        read_loop 16 buffer16 (garbage 8) 8 [idle; idle] = Finished s
        /\ bytes_read s = 8
        /\ r_buffer s = buffer16
        /\ r_data s = blit (garbage 8) 0 (replicate (Z.to_nat 8) x00)
        /\ sub (r_data s) 0 8 = replicate (Z.to_nat 8) x00
        /\ (8 <= INT_MAX ->
            read_from_buffer 16 buffer16 (garbage 8) 8 [idle; idle]
            = Finished (8, buffer16,
                        blit (garbage 8) 0 (replicate (Z.to_nat 8) x00))))
  /\ Ahmad_read_from_buffer 16 buffer16 (garbage 8) 8 [idle; idle]
     = Running (0, buffer16, garbage 8).
Proof.
  assert (H1 : 0 <= 8 <= SIZE_MAX) by evaluate.
  assert (H2 : 8 <= len (garbage 8)) by evaluate.
  assert (H3 : obs_keep_running idle <> 0) by evaluate.
  assert (H4 : obs_keep_running_inner idle <> 0) by evaluate.
  assert (H5 : Forall (fun e' => obs_keep_running e' <> 0
                                 /\ obs_keep_running_inner e' <> 0
                                 /\ obs_wake e' buffer16 = buffer16) [idle; idle])
    by (repeat (apply Forall_cons_2; [done|]); apply Forall_nil_2).
  repeat (split; [done|]).
  destruct (idle_read_is_silence 16 buffer16 (garbage 8) 8 idle [idle] eq_refl
              H1 H2 H3 H4 eq_refl) as (Hnew & Hold).
  split; [exact Hnew|]. apply Hold; [lia|exact H5].
Defined.

Lemma timeout_silence_witness :
  size (r_buffer (mkRead buffer16 (garbage 30) 0 [])) = 0
  /\ 0 <= bytes_read (mkRead buffer16 (garbage 30) 0 []) < 25
  /\ 25 <= INT_MAX
  /\ starved playing
  /\ bytes_read (mkRead buffer16 (garbage 30) 0 []) + 25 / 10
     <= len (r_data (mkRead buffer16 (garbage 30) 0 []))
  /\ size buffer16 = 0
  /\ Forall starved (replicate 20 playing)
  /\ (19 < length (replicate 20 playing))%nat
  /\ 25 + 25 / 10 <= len (garbage 30)
  /\ read_iter 16 25 playing (mkRead buffer16 (garbage 30) 0 [])
     = Continue
         (mkRead (obs_wake playing buffer16)
            (blit (garbage 30) 0 (replicate (Z.to_nat (25 / 10)) x00))
            (0 + 25 / 10)
            ([] ++ if 0 <? 25 / 10 then [Memset_zero 0 (25 / 10)] else []))
  /\ if 25 <? 10
     then exists b', read_loop 16 buffer16 (garbage 30) 25 (replicate 20 playing)
                     = Running (mkRead b' (garbage 30) 0 [])
     else exists s', read_loop 16 buffer16 (garbage 30) 25
                       (take 20 (replicate 20 playing))
                     = Finished s'
                     /\ 25 <= bytes_read s'.
Proof.
  assert (H1 : 0 <= bytes_read (mkRead buffer16 (garbage 30) 0 []) < 25)
    by evaluate.
  assert (H2 : 25 <= INT_MAX) by evaluate.
  assert (H3 : bytes_read (mkRead buffer16 (garbage 30) 0 []) + 25 / 10
               <= len (r_data (mkRead buffer16 (garbage 30) 0 [])))
    by evaluate.
  assert (H4 : Forall starved (replicate 20 playing))
    by (apply Forall_replicate, starved_playing).
  assert (H5 : (19 < length (replicate 20 playing))%nat) by evaluate.
  assert (H6 : 25 + 25 / 10 <= len (garbage 30)) by evaluate.
  split; [reflexivity|]. split; [exact H1|]. split; [exact H2|].
  split; [exact starved_playing|]. split; [exact H3|]. split; [reflexivity|].
  split; [exact H4|]. split; [exact H5|]. split; [exact H6|].
  exact (timeout_silence 16 25 playing (mkRead buffer16 (garbage 30) 0 [])
           buffer16 (garbage 30) (replicate 20 playing)
           eq_refl H1 H2 starved_playing H3 eq_refl H4 H5 H6).
Defined.

Lemma write_inv_ahead16 : write_inv 16 10 (mkWrite ahead16 0 []).
Proof.
  split; [exact ahead16_inv|]. split; [evaluate|apply Forall_nil_2].
Qed.

Lemma read_inv_round16 : read_inv 16 (mkRead round16 (garbage 10) 0 []).
Proof.
  split; [exact round16_inv|]. split; [evaluate|apply Forall_nil_2].
Qed.

Lemma env_ok_playing : Forall (wake_ok 16) [playing; playing].
Proof. repeat (apply Forall_cons_2; [apply wake_ok_quiet|]). apply Forall_nil_2. Qed.

Lemma consumers_take_out (n : nat) :
  Forall (fun e => takes_out 16 (obs_wake e)) (replicate n consumer8).
Proof.
  apply Forall_replicate. apply reader_takes_out. unfold INT_MAX. lia.
Qed.

Lemma consumers_free_room (n : nat) :
  Forall (frees_room 16) (replicate n consumer8).
Proof.
  apply Forall_replicate. apply reader_frees_room.
  - unfold INT_MAX. lia.
  - lia.
  - vm_compute. discriminate.
Qed.

Lemma write_inv_ahead16_stream : write_inv 16 25 (mkWrite ahead16 0 []).
Proof.
  split; [exact ahead16_inv|]. split; [evaluate|apply Forall_nil_2].
Qed.

Lemma write_contract_witness :
  0 < 16 <= INT_MAX
  /\ buf_inv 16 buffer16
  /\ 0 <= 25 <= SIZE_MAX
  /\ 25 <= len stream25
  /\ Forall (fun e => takes_out 16 (obs_wake e)) (replicate 52 consumer8)
  /\ write_inv 16 25 (mkWrite ahead16 0 [])
  /\ (exists b',
        write_iter 16 stream25 25 consumer8 (mkWrite ahead16 0 [])
        = Continue (mkWrite b' 12 [Memcpy_in 10 0 6; Memcpy_in 0 6 6])
        /\ contents b' = contents ahead16 ++ sub stream25 0 12)
  /\ match write_to_buffer 16 buffer16 stream25 25 (replicate 52 consumer8) with
     | Finished (ret, b') =>
         exists n,
           ret = to_int n
           /\ (25 <= INT_MAX -> ret = n)
           /\ 0 <= n <= 25
           /\ (n = 25 \/ Exists (fun e => obs_keep_running e = 0)
                            (replicate 52 consumer8))
           /\ buf_inv 16 b'
           /\ taken_during 16 buffer16 stream25 25 (replicate 52 consumer8)
              ++ contents b'
              = contents buffer16 ++ sub stream25 0 n
     | Running (ret, b') =>
         exists n,
           ret = to_int n
           /\ 0 <= n <= 25
           /\ buf_inv 16 b'
           /\ taken_during 16 buffer16 stream25 25 (replicate 52 consumer8)
              ++ contents b'
              = contents buffer16 ++ sub stream25 0 n
     | Undefined => False
     end
  /\ (exists b',
        write_to_buffer 16 buffer16 stream25 25 (replicate 52 consumer8)
        = Finished (to_int 25, b')
        /\ taken_during 16 buffer16 stream25 25 (replicate 52 consumer8)
           ++ contents b'
           = contents buffer16 ++ sub stream25 0 25).
Proof.
  assert (H1 : 0 <= 25 <= SIZE_MAX) by evaluate.
  assert (H2 : 25 <= len stream25) by evaluate.
  assert (H3 : 2 * 25 + 1 < Z.of_nat (length (replicate 52 consumer8)))
    by (vm_compute; reflexivity).
  split; [exact capacity16|]. split; [exact buffer16_inv|].
  split; [exact H1|]. split; [exact H2|]. split; [exact (consumers_take_out 52)|].
  split; [exact write_inv_ahead16_stream|].
  destruct (write_contract 16 buffer16 stream25 25 (replicate 52 consumer8)
              consumer8 (mkWrite ahead16 0 []) capacity16 buffer16_inv H1 H2
              (consumers_take_out 52) write_inv_ahead16_stream)
    as ((b' & Hpass & _ & _ & _ & Hcont) & Hret & _ & Hcall & _).
  split; [exists b'; split; [exact Hpass|exact Hcont]|].
  split; [exact Hret|].
  exact (Hcall (consumers_free_room 52) H3).
Defined.

(** The same call on the buffer of 16 bytes, run: it waits twice, the
    consumer takes the first 16 bytes of the stream out, and the last 9
    are buffered when it returns 25. *)
Example write_with_two_waits :
  taken_during 16 buffer16 stream25 25 (replicate 52 consumer8)
  = sub stream25 0 16
  /\ exists b',
       write_to_buffer 16 buffer16 stream25 25 (replicate 52 consumer8)
       = Finished (25, b')
       /\ contents b' = sub stream25 16 9.
Proof. split; [|eexists; split]; vm_compute; reflexivity. Qed.

Lemma memcpy_stays_in_array_witness :
  0 < 16 <= INT_MAX
  /\ buf_inv 16 ahead16
  /\ 0 <= 10 <= SIZE_MAX
  /\ Forall (wake_ok 16) [playing; playing]
  /\ obs_keep_running playing <> 0
  /\ write_inv 16 10 (mkWrite ahead16 0 [])
  /\ bytes_written (mkWrite ahead16 0 []) < 10
  /\ size (w_buffer (mkWrite ahead16 0 [])) < 16
  /\ read_inv 16 (mkRead round16 (garbage 10) 0 [])
  /\ bytes_read (mkRead round16 (garbage 10) 0 []) < 10
  /\ size (r_buffer (mkRead round16 (garbage 10) 0 [])) <> 0
  /\ Forall (in_array 16) [Memcpy_in 10 0 6; Memcpy_in 0 6 4]
  /\ Forall (in_array 16) [Memcpy_out 0 10 6; Memcpy_out 6 0 4]
  /\ match write_loop 16 ahead16 ten_bytes 10 [playing; playing] with
     | Finished s | Running s => Forall (in_array 16) (w_trace s)
     | Undefined => len ten_bytes < 10
     end
  /\ match read_loop 16 ahead16 (garbage 10) 10 [playing; playing] with
     | Finished s | Running s => Forall (in_array 16) (r_trace s)
     | Undefined => len (garbage 10) < 10 + 10 / 10
     end.
Proof.
  assert (H1 : 0 <= 10 <= SIZE_MAX) by evaluate.
  assert (H2 : obs_keep_running playing <> 0) by evaluate.
  assert (H3 : bytes_written (mkWrite ahead16 0 []) < 10) by evaluate.
  assert (H4 : size (w_buffer (mkWrite ahead16 0 [])) < 16) by evaluate.
  assert (H5 : bytes_read (mkRead round16 (garbage 10) 0 []) < 10) by evaluate.
  assert (H6 : size (r_buffer (mkRead round16 (garbage 10) 0 [])) <> 0)
    by evaluate.
  split; [exact capacity16|]. split; [exact ahead16_inv|].
  split; [exact H1|]. split; [exact env_ok_playing|]. split; [exact H2|].
  split; [exact write_inv_ahead16|]. split; [exact H3|]. split; [exact H4|].
  split; [exact read_inv_round16|]. split; [exact H5|]. split; [exact H6|].
  destruct (memcpy_stays_in_array 16 ahead16 ten_bytes (garbage 10) 10
              [playing; playing] playing
              (mkWrite ahead16 0 []) (mkRead round16 (garbage 10) 0 [])
              capacity16 ahead16_inv H1 env_ok_playing H2
              write_inv_ahead16 H3 H4 read_inv_round16 H5 H6)
    as ((Hw & _) & (Hr & _) & Hwl & Hrl).
  split; [exact Hw|]. split; [exact Hr|]. split; [exact Hwl|exact Hrl].
Defined.


Lemma stop_keeps_buffered_bytes_witness :
  0 < 16 <= INT_MAX
  /\ buf_inv 16 (audio_buffer (mkGlobals round16 1 1))
  /\ 0 < size (audio_buffer (mkGlobals round16 1 1))
  /\ keep_running (mkGlobals round16 1 1) <> 0
  /\ 0 < 8 <= INT_MAX
  /\ 8 <= len (garbage 8)
  /\ audio_buffer (play_audio (stop_audio (mkGlobals round16 1 1))) = round16
  /\ exists b',
       read_from_buffer 16
         (audio_buffer (play_audio (stop_audio (mkGlobals round16 1 1))))
         (garbage 8) 8
         [quiet (play_audio (stop_audio (mkGlobals round16 1 1)));
          quiet (play_audio (stop_audio (mkGlobals round16 1 1)))]
       = Finished (8, b', blit (garbage 8) 0 (sub (contents round16) 0 8))
       /\ contents round16 = sub (contents round16) 0 8 ++ contents b'.
Proof.
  assert (H1 : 0 < size (audio_buffer (mkGlobals round16 1 1))) by evaluate.
  assert (H2 : keep_running (mkGlobals round16 1 1) <> 0) by evaluate.
  assert (H3 : 0 < 8 <= INT_MAX) by evaluate.
  assert (H4 : 8 <= len (garbage 8)) by evaluate.
  assert (H5 : 8 <= size (audio_buffer (mkGlobals round16 1 1))) by evaluate.
  split; [exact capacity16|]. split; [exact round16_inv|].
  split; [exact H1|]. split; [exact H2|]. split; [exact H3|]. split; [exact H4|].
  destruct (stop_keeps_buffered_bytes 16 (mkGlobals round16 1 1) (garbage 8) 8
              capacity16 round16_inv H1 H2 H3 H4)
    as (_ & _ & _ & _ & _ & _ & Hbuf & _ & Hcall & _).
  split; [exact Hbuf|].
  exact (Hcall H5).
Defined.

(* ================================================================= *)
(** * More of the audio buffer *)

(** ** A writer and a consumer *)

(** X1.  Whatever its size, and however often it has to wait for the
    consumer, [write_to_buffer] never leaves its arrays when [nbytes]
    bytes lie behind [src], and what is buffered is at every moment the
    tail end of the stream: the bytes the consumer took out during the
    waits so far, followed by the bytes buffered, are the bytes
    buffered at the start followed by the bytes written so far. *)
Theorem write_keeps_stream_order (BUFFER_SIZE : Z) (b : CircularBuffer)
    (src : list byte) (nbytes : Z) (env : list Obs) :
  0 < BUFFER_SIZE <= INT_MAX ->
  buf_inv BUFFER_SIZE b ->
  0 <= nbytes <= SIZE_MAX -> nbytes <= len src ->
  Forall (fun e => takes_out BUFFER_SIZE (obs_wake e)) env ->
  match write_loop BUFFER_SIZE b src nbytes env with
  | Finished s | Running s =>
      buf_inv BUFFER_SIZE (w_buffer s)
      /\ 0 <= bytes_written s <= nbytes
      /\ taken_during BUFFER_SIZE b src nbytes env ++ contents (w_buffer s)
         = contents b ++ sub src 0 (bytes_written s)
  | Undefined => False
  end.
Proof.
  intros Hcap Hinv Hn Hsrc Henv.
  apply (write_loop_keeps_stream BUFFER_SIZE src nbytes (contents b) env
           (mkWrite b 0 []) []); try done.
  - simpl. lia.
  - by rewrite sub_nil, app_nil_r.
Qed.

Lemma write_keeps_stream_order_witness :
  0 < 16 <= INT_MAX
  /\ buf_inv 16 buffer16
  /\ 0 <= 25 <= SIZE_MAX
  /\ 25 <= len stream25
  /\ Forall (fun e => takes_out 16 (obs_wake e)) (replicate 4 consumer8)
  /\ match write_loop 16 buffer16 stream25 25 (replicate 4 consumer8) with
     | Finished s | Running s =>
         buf_inv 16 (w_buffer s)
         /\ 0 <= bytes_written s <= 25
         /\ taken_during 16 buffer16 stream25 25 (replicate 4 consumer8)
            ++ contents (w_buffer s)
            = contents buffer16 ++ sub stream25 0 (bytes_written s)
     | Undefined => False
     end.
Proof.
  assert (H1 : 0 <= 25 <= SIZE_MAX) by evaluate.
  assert (H2 : 25 <= len stream25) by evaluate.
  split; [exact capacity16|]. split; [exact buffer16_inv|].
  split; [exact H1|]. split; [exact H2|].
  split; [exact (consumers_take_out 4)|].
  exact (write_keeps_stream_order 16 buffer16 stream25 25 (replicate 4 consumer8)
           capacity16 buffer16_inv H1 H2 (consumers_take_out 4)).
Defined.

(** That call after four passes, run: still in its loop, 24 bytes
    written, the first 16 taken out by the consumer and 8 buffered. *)
Example write_in_the_middle :
  exists s,
    write_loop 16 buffer16 stream25 25 (replicate 4 consumer8) = Running s
    /\ bytes_written s = 24
    /\ taken_during 16 buffer16 stream25 25 (replicate 4 consumer8)
       = sub stream25 0 16
    /\ contents (w_buffer s) = sub stream25 16 8.
Proof.
  eexists. split; [|split; [|split]]; vm_compute; reflexivity.
Qed.



(** ** Reads that find too little *)

Lemma blit_blit_app (l a c : list byte) (k : Z) :
  0 <= k -> k + len a + len c <= len l ->
  blit (blit l k a) (k + len a) c = blit l k (a ++ c).
Proof.
  intros Hk Hfit.
  pose proof (len_nonneg a). pose proof (len_nonneg c).
  apply nthz_ext. intros i.
  rewrite nthz_blit; rewrite ?len_blit; try lia.
  rewrite !nthz_blit; rewrite ?len_app; try lia.
  rewrite nthz_app.
  split_tests; try done; f_equal; lia.
Qed.

(** X3.  When the buffer runs empty in the middle of a read and by then
    no audio is playing (or the program is shutting down), the call
    returns at once with the full count: the destination holds the
    buffered bytes, oldest first, and zero bytes behind them up to
    [nbytes]; the buffer is left empty. *)
Theorem underrun_is_padded_with_silence (BUFFER_SIZE : Z) (b : CircularBuffer)
    (dst : list byte) (nbytes : Z) (e1 e2 : Obs) (env : list Obs) :
  0 < BUFFER_SIZE <= INT_MAX ->
  buf_inv BUFFER_SIZE b ->
  0 < size b < nbytes -> nbytes <= INT_MAX -> nbytes <= len dst ->
  obs_keep_running e1 <> 0 -> obs_keep_running e2 <> 0 ->
  obs_keep_running_inner e2 = 0 \/ obs_is_audio_playing e2 = 0 ->
  exists b',
    read_from_buffer BUFFER_SIZE b dst nbytes (e1 :: e2 :: env)
    = Finished (nbytes, b',
                blit dst 0
                  (contents b ++ replicate (Z.to_nat (nbytes - size b)) x00))
    /\ buf_inv BUFFER_SIZE b'
    /\ size b' = 0.
Proof.
  intros Hcap Hinv Hsz Hmax Hdst Hkr1 Hkr2 Hflag.
  pose proof INT_MAX_le_SIZE_MAX.
  pose proof (len_contents BUFFER_SIZE b Hinv) as Hlc.
  unfold read_from_buffer, read_loop. simpl.
  rewrite read_iter_copy by (simpl; lia).
  destruct (read_copy_fetch BUFFER_SIZE Hcap nbytes (mkRead b dst 0 []))
    as (b' & -> & Hinv' & Hsize & _ & _ & _); simpl; try done; try lia.
  simpl in *.
  rewrite Z.sub_0_r, Z.min_r in * by lia.
  assert (Hall : sub (contents b) 0 (size b) = contents b)
    by (rewrite <- Hlc; apply sub_all).
  rewrite Hall, Z.add_0_l.
  rewrite read_iter_silence by (simpl; lia || done).
  simpl.
  rewrite to_size_t_small by lia.
  rewrite memset0_ok; try lia.
  - simpl. exists b'. rewrite to_int_small by lia.
    split; [|split; [done|lia]].
    rewrite <- blit_blit_app by (rewrite ?len_replicate; lia).
    by rewrite Hlc, Z.add_0_l.
  - rewrite len_blit; lia.
Qed.

Lemma underrun_is_padded_with_silence_witness :
  0 < 16 <= INT_MAX
  /\ buf_inv 16 round16
  /\ 0 < size round16 < 14
  /\ 14 <= INT_MAX
  /\ 14 <= len (garbage 14)
  /\ obs_keep_running playing <> 0
  /\ obs_keep_running idle <> 0
  /\ (obs_keep_running_inner idle = 0 \/ obs_is_audio_playing idle = 0)
  /\ exists b',
       read_from_buffer 16 round16 (garbage 14) 14 [playing; idle]
       = Finished (14, b',
                   blit (garbage 14) 0
                     (contents round16
                      ++ replicate (Z.to_nat (14 - size round16)) x00))
       /\ buf_inv 16 b'
       /\ size b' = 0.
Proof.
  assert (H1 : 0 < size round16 < 14) by evaluate.
  assert (H2 : 14 <= INT_MAX) by evaluate.
  assert (H3 : 14 <= len (garbage 14)) by evaluate.
  assert (H4 : obs_keep_running playing <> 0) by (vm_compute; discriminate).
  assert (H5 : obs_keep_running idle <> 0) by (vm_compute; discriminate).
  assert (H6 : obs_keep_running_inner idle = 0 \/ obs_is_audio_playing idle = 0)
    by (right; reflexivity).
  split; [exact capacity16|]. split; [exact round16_inv|].
  split; [exact H1|]. split; [exact H2|]. split; [exact H3|].
  split; [exact H4|]. split; [exact H5|]. split; [exact H6|].
  exact (underrun_is_padded_with_silence 16 round16 (garbage 14) 14 playing idle []
           capacity16 round16_inv H1 H2 H3 H4 H5 H6).
Defined.

(** ** Starved reads, exactly *)

Lemma memset0_short (dest : list byte) (doff n : Z) :
  len dest < doff + n -> memset0 dest doff n = None.
Proof.
  intros. unfold memset0.
  destruct (Z.leb_spec (doff + n) (len dest)); [lia|].
  by rewrite andb_false_r.
Qed.

Lemma silence_blocks_bounds (nbytes : Z) :
  10 <= nbytes ->
  0 < silence_blocks nbytes
  /\ nbytes <= silence_blocks nbytes * (nbytes / 10) < nbytes + nbytes / 10.
Proof.
  intros Hn. unfold silence_blocks.
  assert (Hq : 1 <= nbytes / 10) by dlia.
  pose proof (Z.div_mod (nbytes + nbytes / 10 - 1) (nbytes / 10) ltac:(lia)) as Hdm.
  pose proof (Z.mod_pos_bound (nbytes + nbytes / 10 - 1) (nbytes / 10) ltac:(lia)).
  split; [apply Z.div_str_pos; lia|]. lia.
Qed.

(** A starved call makes a pass for every block of silence until the
    count has reached [nbytes]. *)
Lemma starved_loop_blocks (BUFFER_SIZE nbytes : Z) (fuel : nat) :
  10 <= nbytes <= INT_MAX ->
  forall (env : list Obs) (s : read_state),
    Forall starved env -> (fuel < length env)%nat ->
    size (r_buffer s) = 0 ->
    0 <= bytes_read s ->
    nbytes <= bytes_read s + Z.of_nat fuel * (nbytes / 10) < nbytes + nbytes / 10 ->
    bytes_read s + Z.of_nat fuel * (nbytes / 10) <= len (r_data s) ->
    exists b' tr,
      loop (read_iter BUFFER_SIZE nbytes) env s
      = Finished
          (mkRead b'
             (blit (r_data s) (bytes_read s)
                (replicate (Z.to_nat (Z.of_nat fuel * (nbytes / 10))) x00))
             (bytes_read s + Z.of_nat fuel * (nbytes / 10)) tr)
      /\ size b' = 0.
Proof.
  intros Hn.
  assert (Hq : 1 <= nbytes / 10) by dlia.
  induction fuel as [|fuel IH]; intros env s Henv Hlen Hempty Hbr Hreach Hroom;
    destruct Henv as [|e env He Henv]; simpl in Hlen; try lia.
  - simpl. rewrite read_iter_exit by lia.
    destruct s as [b d br tr]. simpl in *.
    exists b, tr. rewrite blit_nil, Z.add_0_r. done.
  - cbn [loop].
    rewrite read_iter_timeout by (done || nia).
    destruct (IH env
                (mkRead (obs_wake e (r_buffer s))
                   (blit (r_data s) (bytes_read s)
                      (replicate (Z.to_nat (nbytes / 10)) x00))
                   (bytes_read s + nbytes / 10)
                   (r_trace s ++
                      (if 0 <? nbytes / 10
                       then [Memset_zero (bytes_read s) (nbytes / 10)] else []))))
      as (b' & tr & -> & Hb'); simpl; try done; try lia.
    + destruct He as (_ & _ & _ & _ & Hwake). by apply Hwake.
    + rewrite len_blit; rewrite ?len_replicate; nia.
    + exists b', tr. split; [|done]. f_equal. f_equal; [|lia].
      replace (bytes_read s + nbytes / 10)
        with (bytes_read s + len (replicate (Z.to_nat (nbytes / 10)) x00))
        by (rewrite len_replicate; lia).
      rewrite blit_blit_app; rewrite ?len_replicate; try nia.
      f_equal. rewrite <- replicate_add. f_equal. nia.
Qed.

(** X4.  A call of [read_from_buffer] for ten bytes or more that finds
    the buffer empty while audio is playing, with every wait timing
    out, returns after [nbytes / (nbytes / 10)] timeouts (rounded up)
    with that many blocks of [nbytes / 10] zero bytes at the start of
    the destination.  The count is a multiple of the block size: it is
    [nbytes] or more, and more than [nbytes] whenever [nbytes / 10]
    does not divide [nbytes]. *)
Theorem starved_read_returns_whole_blocks (BUFFER_SIZE : Z) (b : CircularBuffer)
    (dst : list byte) (nbytes : Z) (env : list Obs) :
  10 <= nbytes <= INT_MAX ->
  size b = 0 ->
  Forall starved env ->
  silence_blocks nbytes < Z.of_nat (length env) ->
  silence_blocks nbytes * (nbytes / 10) <= len dst ->
  let total := silence_blocks nbytes * (nbytes / 10) in
  (exists b' tr,
     read_loop BUFFER_SIZE b dst nbytes env
     = Finished (mkRead b' (blit dst 0 (replicate (Z.to_nat total) x00)) total tr)
     /\ size b' = 0)
  /\ nbytes <= total < nbytes + nbytes / 10
  /\ (nbytes mod (nbytes / 10) <> 0 -> nbytes < total).
Proof.
  intros Hn Hempty Henv Hlen Hroom total.
  destruct (silence_blocks_bounds nbytes ltac:(lia)) as (Hk & Hlo & Hhi).
  assert (Hq : 1 <= nbytes / 10) by dlia.
  split; [|split; [done|]].
  - destruct (starved_loop_blocks BUFFER_SIZE nbytes
                (Z.to_nat (silence_blocks nbytes)) Hn env (mkRead b dst 0 []))
      as (b' & tr & Hloop & Hb'); simpl; try done; try lia;
      rewrite ?Z2Nat.id by lia; try done; try lia.
    exists b', tr. unfold read_loop. rewrite Hloop.
    simpl. rewrite Z2Nat.id by lia. done.
  - intros Hrem. unfold total.
    destruct (Z.eq_dec (silence_blocks nbytes * (nbytes / 10)) nbytes) as [Heq|]; [|lia].
    exfalso. apply Hrem.
    replace (nbytes mod (nbytes / 10))
      with ((silence_blocks nbytes * (nbytes / 10)) mod (nbytes / 10))
      by (f_equal; exact Heq).
    apply Z.mod_mul. lia.
Qed.

Lemma starved_playing_env (n : nat) : Forall starved (replicate n playing).
Proof. apply Forall_replicate. apply starved_playing. Qed.

Lemma starved_read_returns_whole_blocks_witness :
  10 <= 4096 <= INT_MAX
  /\ size buffer16 = 0
  /\ Forall starved (replicate 12 playing)
  /\ silence_blocks 4096 < Z.of_nat (length (replicate 12 playing))
  /\ silence_blocks 4096 * (4096 / 10) <= len (garbage 4499)
  /\ (exists b' tr,
        read_loop 16 buffer16 (garbage 4499) 4096 (replicate 12 playing)
        = Finished
            (mkRead b'
               (blit (garbage 4499) 0
                  (replicate (Z.to_nat (silence_blocks 4096 * (4096 / 10))) x00))
               (silence_blocks 4096 * (4096 / 10)) tr)
        /\ size b' = 0)
  /\ 4096 <= silence_blocks 4096 * (4096 / 10) < 4096 + 4096 / 10
  /\ (4096 mod (4096 / 10) <> 0 -> 4096 < silence_blocks 4096 * (4096 / 10)).
Proof.
  assert (H1 : 10 <= 4096 <= INT_MAX) by evaluate.
  assert (H2 : size buffer16 = 0) by reflexivity.
  assert (H3 : silence_blocks 4096 < Z.of_nat (length (replicate 12 playing)))
    by (vm_compute; reflexivity).
  assert (H4 : silence_blocks 4096 * (4096 / 10) <= len (garbage 4499))
    by (vm_compute; discriminate).
  split; [exact H1|]. split; [exact H2|].
  split; [exact (starved_playing_env 12)|]. split; [exact H3|]. split; [exact H4|].
  exact (starved_read_returns_whole_blocks 16 buffer16 (garbage 4499) 4096
           (replicate 12 playing) H1 H2 (starved_playing_env 12) H3 H4).
Defined.

(** A starved call whose next block of silence does not fit behind the
    destination leaves the destination. *)
Lemma starved_loop_overrun (BUFFER_SIZE nbytes : Z) (fuel : nat) :
  10 <= nbytes <= INT_MAX ->
  forall (env : list Obs) (s : read_state),
    Forall starved env -> (fuel < length env)%nat ->
    size (r_buffer s) = 0 ->
    0 <= bytes_read s ->
    bytes_read s + Z.of_nat fuel * (nbytes / 10) < nbytes ->
    bytes_read s + Z.of_nat fuel * (nbytes / 10) <= len (r_data s)
      < bytes_read s + (Z.of_nat fuel + 1) * (nbytes / 10) ->
    loop (read_iter BUFFER_SIZE nbytes) env s = Undefined.
Proof.
  intros Hn.
  assert (Hq : 1 <= nbytes / 10) by dlia.
  induction fuel as [|fuel IH]; intros env s Henv Hlen Hempty Hbr Hlt Hroom;
    destruct Henv as [|e env He Henv]; simpl in Hlen; try lia.
  - cbn [loop].
    pose proof He as (Hkr & Hin & Hplay & Hto & _).
    rewrite read_iter_wait by (done || lia).
    rewrite Hto. simpl.
    destruct (Z.ltb_spec 0 (nbytes / 10)); [|lia].
    rewrite memset0_short by lia. done.
  - cbn [loop].
    rewrite read_iter_timeout by (done || nia).
    apply IH; simpl; try done; try lia.
    + destruct He as (_ & _ & _ & _ & Hwake). by apply Hwake.
    + rewrite len_blit; rewrite ?len_replicate; nia.
Qed.

(** X5.  When [nbytes / 10] does not divide [nbytes], the last block of
    silence of such a starved call ends behind byte [nbytes]: with a
    destination of [nbytes] bytes (or any size short of the whole
    blocks) the call writes outside the destination. *)
Theorem starved_read_overruns_destination (BUFFER_SIZE : Z) (b : CircularBuffer)
    (dst : list byte) (nbytes : Z) (env : list Obs) :
  10 <= nbytes <= INT_MAX ->
  size b = 0 ->
  Forall starved env ->
  silence_blocks nbytes <= Z.of_nat (length env) ->
  nbytes <= len dst < silence_blocks nbytes * (nbytes / 10) ->
  read_from_buffer BUFFER_SIZE b dst nbytes env = Undefined.
Proof.
  intros Hn Hempty Henv Hlen Hdst.
  destruct (silence_blocks_bounds nbytes ltac:(lia)) as (Hk & Hlo & Hhi).
  assert (Hq : 1 <= nbytes / 10) by dlia.
  pose proof (len_nonneg dst) as Hl.
  pose proof (Z.div_mod (len dst) (nbytes / 10) ltac:(lia)) as Hdm.
  pose proof (Z.mod_pos_bound (len dst) (nbytes / 10) ltac:(lia)) as Hmod.
  assert (Hj : 0 <= len dst / (nbytes / 10) < silence_blocks nbytes).
  { split; [apply Z.div_pos; lia|]. nia. }
  unfold read_from_buffer, read_loop.
  rewrite (starved_loop_overrun BUFFER_SIZE nbytes
             (Z.to_nat (len dst / (nbytes / 10))) Hn env (mkRead b dst 0 []));
    simpl; rewrite ?Z2Nat.id by lia; try done; try lia; nia.
Qed.

Lemma starved_read_overruns_destination_witness :
  10 <= 4096 <= INT_MAX
  /\ size buffer16 = 0
  /\ Forall starved (replicate 12 playing)
  /\ silence_blocks 4096 <= Z.of_nat (length (replicate 12 playing))
  /\ 4096 <= len (garbage 4096) < silence_blocks 4096 * (4096 / 10)
  /\ read_from_buffer 16 buffer16 (garbage 4096) 4096 (replicate 12 playing)
     = Undefined.
Proof.
  assert (H1 : 10 <= 4096 <= INT_MAX) by evaluate.
  assert (H2 : size buffer16 = 0) by reflexivity.
  assert (H3 : silence_blocks 4096 <= Z.of_nat (length (replicate 12 playing)))
    by (vm_compute; discriminate).
  assert (H4 : 4096 <= len (garbage 4096) < silence_blocks 4096 * (4096 / 10))
    by evaluate.
  split; [exact H1|]. split; [exact H2|].
  split; [exact (starved_playing_env 12)|]. split; [exact H3|]. split; [exact H4|].
  exact (starved_read_overruns_destination 16 buffer16 (garbage 4096) 4096
           (replicate 12 playing) H1 H2 (starved_playing_env 12) H3 H4).
Defined.

(** ** The reader of the variant with 16384 bytes *)

Lemma sub_blit_append (l c : list byte) (k : Z) :
  0 <= k -> k + len c <= len l ->
  sub (blit l k c) 0 (k + len c) = sub l 0 k ++ c.
Proof.
  intros Hk Hfit. pose proof (len_nonneg c).
  apply nthz_ext. intros i.
  rewrite nthz_app, len_sub by lia. lookups. simpl.
  split_tests; try done; try (f_equal; lia).
  all: symmetry; apply nthz_None; lia.
Qed.

Lemma Ahmad_read_iter_wait (BUFFER_SIZE nbytes : Z) (e : Obs) (s : read_state) :
  bytes_read s < nbytes -> obs_keep_running e <> 0 ->
  size (r_buffer s) = 0 -> obs_keep_running_inner e <> 0 ->
  Ahmad_read_iter BUFFER_SIZE nbytes e s
  = Continue (mkRead (obs_wake e (r_buffer s)) (r_data s) (bytes_read s) (r_trace s)).
Proof.
  intros H Hkr Hempty Hin. unfold Ahmad_read_iter.
  destruct (Z.ltb_spec (bytes_read s) nbytes); [|lia].
  destruct (Z.eqb_spec (obs_keep_running e) 0); [done|]. simpl.
  rewrite Hempty. simpl.
  by destruct (Z.eqb_spec (obs_keep_running_inner e) 0).
Qed.

(** Which passes of that reader see bytes come. *)
Lemma Ahmad_arrived_at_wait (nbytes : Z) (e : Obs) (s : read_state) :
  bytes_read s < nbytes -> obs_keep_running e <> 0 ->
  size (r_buffer s) = 0 -> obs_keep_running_inner e <> 0 ->
  Ahmad_arrived_at nbytes e s = appended (obs_wake e) (r_buffer s).
Proof.
  intros Hlt Hkr Hempty Hin. unfold Ahmad_arrived_at, Ahmad_read_waits.
  rewrite Hempty.
  destruct (Z.ltb_spec (bytes_read s) nbytes); [|lia].
  destruct (Z.eqb_spec (obs_keep_running e) 0); [done|].
  by destruct (Z.eqb_spec (obs_keep_running_inner e) 0).
Qed.

Lemma Ahmad_arrived_at_none (nbytes : Z) (e : Obs) (s : read_state) :
  nbytes <= bytes_read s \/ obs_keep_running e = 0 \/ size (r_buffer s) <> 0 ->
  Ahmad_arrived_at nbytes e s = [].
Proof.
  intros H. unfold Ahmad_arrived_at, Ahmad_read_waits.
  destruct (Z.ltb_spec (bytes_read s) nbytes); [|done].
  destruct (Z.eqb_spec (obs_keep_running e) 0); [done|].
  destruct (Z.eqb_spec (size (r_buffer s)) 0); [lia|done].
Qed.

Lemma Ahmad_read_iter_stream (BUFFER_SIZE nbytes room : Z) (stream : list byte)
    (e : Obs) (s : read_state) :
  0 < BUFFER_SIZE <= INT_MAX ->
  0 <= nbytes <= SIZE_MAX -> nbytes <= room ->
  obs_keep_running_inner e <> 0 -> puts_in BUFFER_SIZE (obs_wake e) ->
  stream_inv BUFFER_SIZE nbytes room stream s ->
  match Ahmad_read_iter BUFFER_SIZE nbytes e s with
  | Continue s' | Exit s' =>
      stream_inv BUFFER_SIZE nbytes room (stream ++ Ahmad_arrived_at nbytes e s) s'
  | Crash => False
  end.
Proof.
  intros Hcap Hn Hroom Hin Hput (Hinvs & Hbr & Hlen & Htr & Heq).
  destruct (Z_lt_le_dec (bytes_read s) nbytes) as [Hlt|Hge];
    [|rewrite Ahmad_read_iter_agrees, read_iter_exit, Ahmad_arrived_at_none,
        app_nil_r by lia; by unfold stream_inv].
  destruct (Z.eq_dec (obs_keep_running e) 0) as [Hkr|Hkr];
    [rewrite Ahmad_read_iter_agrees, read_iter_exit, Ahmad_arrived_at_none,
       app_nil_r by auto; by unfold stream_inv|].
  pose proof Hinvs as (_ & Hsz & _).
  pose proof (len_contents BUFFER_SIZE _ Hinvs) as Hlc.
  destruct (Z.eq_dec (size (r_buffer s)) 0) as [Hempty|Hsome].
  - rewrite Ahmad_read_iter_wait, Ahmad_arrived_at_wait by done.
    destruct (appended_puts_in _ _ _ Hput Hinvs) as (Hinv' & Hmore).
    unfold stream_inv. simpl. do 4 (split; [done|]).
    by rewrite Hmore, app_assoc, Heq.
  - rewrite Ahmad_read_iter_agrees, read_iter_copy by (done || auto).
    rewrite Ahmad_arrived_at_none, app_nil_r by auto.
    destruct (read_copy_fetch BUFFER_SIZE Hcap nbytes s)
      as (b' & -> & Hinv' & Hsize & _ & _ & Hcont); try done; try lia.
    unfold stream_inv. simpl.
    assert (Hchunk : len (sub (contents (r_buffer s)) 0
                            (Z.min (nbytes - bytes_read s) (size (r_buffer s))))
                     = Z.min (nbytes - bytes_read s) (size (r_buffer s)))
      by (apply len_sub; lia).
    split; [done|]. split; [lia|].
    split; [rewrite len_blit; lia|].
    split.
    { apply Forall_app. split; [done|].
      destruct (_ <=? _); repeat constructor. }
    remember (sub (contents (r_buffer s)) 0
                (Z.min (nbytes - bytes_read s) (size (r_buffer s))))
      as chunk eqn:Hc in *.
    rewrite <- Hchunk, sub_blit_append by lia.
    by rewrite <- app_assoc, <- Hcont, Heq.
Qed.

Lemma stream_inv_start (BUFFER_SIZE nbytes : Z) (b : CircularBuffer)
    (dst : list byte) :
  buf_inv BUFFER_SIZE b -> 0 <= nbytes ->
  stream_inv BUFFER_SIZE nbytes (len dst) (contents b) (mkRead b dst 0 []).
Proof.
  intros Hinv Hn. unfold stream_inv. simpl.
  do 2 (split; [done || lia|]). split; [done|].
  split; [constructor|done].
Qed.

(** X6.  The reader of the variant with 16384 bytes, as long as the
    test in its empty branch sees [keep_running] set, hands over the
    stream and nothing else, whatever the producer puts in while it
    waits: the bytes it has stored in the destination, followed by the
    bytes still buffered, are the bytes buffered at the start followed
    by the bytes the producer has put in during the waits.  It calls no
    [memset], its count never goes past [nbytes], and it stays inside
    the destination. *)
Theorem Ahmad_read_hands_over_the_stream (BUFFER_SIZE : Z) (b : CircularBuffer)
    (dst : list byte) (nbytes : Z) (env : list Obs) :
  0 < BUFFER_SIZE <= INT_MAX ->
  buf_inv BUFFER_SIZE b ->
  0 <= nbytes <= SIZE_MAX -> nbytes <= len dst ->
  Forall (fun e => obs_keep_running_inner e <> 0
                   /\ puts_in BUFFER_SIZE (obs_wake e)) env ->
  match Ahmad_read_loop BUFFER_SIZE b dst nbytes env with
  | Finished s | Running s =>
      buf_inv BUFFER_SIZE (r_buffer s)
      /\ 0 <= bytes_read s <= nbytes
      /\ len (r_data s) = len dst
      /\ no_silence (r_trace s)
      /\ sub (r_data s) 0 (bytes_read s) ++ contents (r_buffer s)
         = contents b ++ Ahmad_arrived_during BUFFER_SIZE b dst nbytes env
  | Undefined => False
  end.
Proof.
  intros Hcap Hinv Hn Hdst Henv.
  pose proof (loop_keeps_stream (Ahmad_read_iter BUFFER_SIZE nbytes)
                (Ahmad_arrived_at nbytes)
                (fun g => stream_inv BUFFER_SIZE nbytes (len dst) (contents b ++ g))
                (fun e => obs_keep_running_inner e <> 0
                          /\ puts_in BUFFER_SIZE (obs_wake e))
                env (mkRead b dst 0 []) []) as Hloop.
  apply Hloop; [|done|].
  - intros e s g (Hin & Hput) Hs. rewrite app_assoc.
    by apply Ahmad_read_iter_stream.
  - rewrite app_nil_r. apply stream_inv_start; [done|lia].
Qed.

Lemma producers_put_in (n : nat) :
  Forall (fun e => obs_keep_running_inner e <> 0 /\ puts_in 16 (obs_wake e))
    (replicate n producer10).
Proof.
  apply Forall_replicate. split; [done|].
  apply writer_puts_in. unfold INT_MAX. lia.
Qed.

Lemma Ahmad_read_hands_over_the_stream_witness :
  0 < 16 <= INT_MAX
  /\ buf_inv 16 ahead16
  /\ 0 <= 14 <= SIZE_MAX
  /\ 14 <= len (garbage 14)
  /\ Forall (fun e => obs_keep_running_inner e <> 0 /\ puts_in 16 (obs_wake e))
       (replicate 5 producer10)
  /\ match Ahmad_read_loop 16 ahead16 (garbage 14) 14 (replicate 5 producer10) with
     | Finished s | Running s =>
         buf_inv 16 (r_buffer s)
         /\ 0 <= bytes_read s <= 14
         /\ len (r_data s) = len (garbage 14)
         /\ no_silence (r_trace s)
         /\ sub (r_data s) 0 (bytes_read s) ++ contents (r_buffer s)
            = contents ahead16
              ++ Ahmad_arrived_during 16 ahead16 (garbage 14) 14
                   (replicate 5 producer10)
     | Undefined => False
     end.
Proof.
  assert (H1 : 0 <= 14 <= SIZE_MAX) by evaluate.
  assert (H2 : 14 <= len (garbage 14)) by evaluate.
  split; [exact capacity16|]. split; [exact ahead16_inv|].
  split; [exact H1|]. split; [exact H2|].
  split; [exact (producers_put_in 5)|].
  exact (Ahmad_read_hands_over_the_stream 16 ahead16 (garbage 14) 14
           (replicate 5 producer10) capacity16 ahead16_inv H1 H2
           (producers_put_in 5)).
Defined.

(** That call, run: it copies the 4 buffered bytes, waits once, the
    producer puts its 10 bytes in, and it returns with those 14 bytes
    in the destination. *)
Example Ahmad_read_with_one_wait :
  Ahmad_arrived_during 16 ahead16 (garbage 14) 14 (replicate 5 producer10)
  = ten_bytes
  /\ exists b',
       Ahmad_read_from_buffer 16 ahead16 (garbage 14) 14 (replicate 5 producer10)
       = Finished (14, b', contents ahead16 ++ ten_bytes)
       /\ contents b' = [].
Proof. split; [|eexists; split]; vm_compute; reflexivity. Qed.

(* ================================================================= *)
(** * The message buffer of the WASAPI variant *)

Section MessageQueue.
Import Messages MessagePassing.

Lemma wait_while_ready (cond : CircularBuffer -> bool)
    (wakes : list (CircularBuffer -> CircularBuffer)) (b : CircularBuffer) :
  cond b = false -> wait_while cond wakes b = Some b.
Proof. intros H. destruct wakes; simpl; by rewrite H. Qed.

Lemma length_pending (b : CircularBuffer) :
  queue_inv b -> Z.of_nat (length (pending b)) = count b.
Proof.
  intros (Hlen & Hsz & Hc & Hr & _). unfold pending.
  rewrite length_take, length_drop, length_app. lia.
Qed.

Lemma lookup_pending (b : CircularBuffer) (i : nat) :
  queue_inv b ->
  pending b !! i
  = if Z.of_nat i <? count b
    then buffer b !! Z.to_nat ((read_pos b + Z.of_nat i) mod size b)
    else None.
Proof.
  intros (Hlen & Hsz & Hc & Hr & _). unfold pending.
  destruct (Z.ltb_spec (Z.of_nat i) (count b)) as [Hi|Hi].
  - rewrite lookup_take_lt by lia. rewrite lookup_drop.
    rewrite (mod_lap (size b)) by lia.
    destruct (Z.ltb_spec (read_pos b + Z.of_nat i) (size b)).
    + rewrite lookup_app_l by lia. f_equal. lia.
    + rewrite lookup_app_r by lia. f_equal. lia.
  - apply lookup_take_ge. lia.
Qed.

Lemma lookup_snoc {A : Type} (l : list A) (x : A) (i : nat) :
  (l ++ [x]) !! i
  = if (i <? length l)%nat then l !! i
    else if (i =? length l)%nat then Some x else None.
Proof.
  destruct (Nat.ltb_spec i (length l)).
  - by apply lookup_app_l.
  - rewrite lookup_app_r by done.
    destruct (Nat.eqb_spec i (length l)) as [->|].
    + by rewrite Nat.sub_diag.
    + apply lookup_ge_None_2. simpl. lia.
Qed.

Lemma write_message_room (b : CircularBuffer) (msg : Message)
    (wakes : list (CircularBuffer -> CircularBuffer)) :
  queue_inv b -> count b < size b ->
  write_message b msg wakes = Returned (TRUE, stored b msg)
  /\ queue_inv (stored b msg)
  /\ pending (stored b msg) = pending b ++ [msg].
Proof.
  intros Hinv Hroom.
  pose proof Hinv as (Hlen & Hsz & Hc & Hr & Hw).
  pose proof (Z.mod_pos_bound (read_pos b + count b) (size b) ltac:(lia)) as Hwp.
  assert (Hinv' : queue_inv (stored b msg)).
  { unfold queue_inv, stored. simpl. rewrite length_insert.
    repeat split; try lia.
    rewrite Hw, Z.add_mod_idemp_l by lia. f_equal. lia. }
  split; [|split; [done|]].
  - unfold write_message.
    rewrite wait_while_ready by (apply Z.eqb_neq; lia).
    destruct (Z.leb_spec 0 (write_pos b)); [|lia].
    destruct (Z.ltb_spec (write_pos b) (Z.of_nat (length (buffer b)))); [|lia].
    destruct (Z.eqb_spec (size b) 0); [lia|].
    destruct (Z.leb_spec (write_pos b + 1) INT_MAX); [|lia].
    destruct (Z.leb_spec (count b + 1) INT_MAX); [|lia].
    simpl. unfold stored. rewrite Z.rem_mod_nonneg by lia. done.
  - apply list_eq. intros i.
    pose proof (length_pending b Hinv) as Hlp.
    rewrite lookup_pending by done. rewrite lookup_snoc.
    rewrite lookup_pending by done. simpl.
    destruct (Nat.ltb_spec i (length (pending b))).
    + destruct (Z.ltb_spec (Z.of_nat i) (count b + 1)); [|lia].
      destruct (Z.ltb_spec (Z.of_nat i) (count b)); [|lia].
      apply list_lookup_insert_ne.
      rewrite Hw.
      rewrite (mod_lap (size b) (read_pos b + count b)) by lia.
      rewrite (mod_lap (size b) (read_pos b + Z.of_nat i)) by lia.
      destruct (Z.ltb_spec (read_pos b + count b) (size b)),
        (Z.ltb_spec (read_pos b + Z.of_nat i) (size b)); lia.
    + destruct (Nat.eqb_spec i (length (pending b))) as [Hi|Hi].
      * destruct (Z.ltb_spec (Z.of_nat i) (count b + 1)); [|lia].
        replace (read_pos b + Z.of_nat i) with (read_pos b + count b) by lia.
        rewrite <- Hw. apply list_lookup_insert_eq. lia.
      * destruct (Z.ltb_spec (Z.of_nat i) (count b + 1)); [lia|done].
Qed.

Lemma read_message_some (b : CircularBuffer)
    (wakes : list (CircularBuffer -> CircularBuffer)) :
  queue_inv b -> 0 < count b ->
  exists msg,
    read_message b wakes = Returned (TRUE, msg, fetched b)
    /\ queue_inv (fetched b)
    /\ pending b = msg :: pending (fetched b).
Proof.
  intros Hinv Hsome.
  pose proof Hinv as (Hlen & Hsz & Hc & Hr & Hw).
  pose proof (Z.mod_pos_bound (read_pos b + 1) (size b) ltac:(lia)) as Hrp.
  assert (Hinv' : queue_inv (fetched b)).
  { unfold queue_inv, fetched. simpl.
    repeat split; try lia.
    rewrite Hw, Z.add_mod_idemp_l by lia. f_equal. lia. }
  destruct (lookup_lt_is_Some_2 (buffer b) (Z.to_nat (read_pos b)) ltac:(lia))
    as [msg Hmsg].
  exists msg. split; [|split; [done|]].
  - unfold read_message.
    rewrite wait_while_ready by (apply Z.eqb_neq; lia).
    destruct (Z.leb_spec 0 (read_pos b)); [|lia].
    rewrite Hmsg.
    destruct (Z.eqb_spec (size b) 0); [lia|].
    destruct (Z.leb_spec (read_pos b + 1) INT_MAX); [|lia].
    destruct (Z.leb_spec (- 2 ^ 31) (count b - 1)); [|lia].
    simpl. unfold fetched. rewrite Z.rem_mod_nonneg by lia. done.
  - apply list_eq. intros i.
    rewrite lookup_pending by done.
    destruct i as [|i].
    + change (Z.of_nat 0) with 0.
      destruct (Z.ltb_spec 0 (count b)); [|lia].
      rewrite Z.add_0_r, Z.mod_small by lia. done.
    + change ((msg :: pending (fetched b)) !! S i)
        with (pending (fetched b) !! i).
      rewrite lookup_pending by done. simpl.
      destruct (Z.ltb_spec (Z.of_nat (S i)) (count b)),
        (Z.ltb_spec (Z.of_nat i) (count b - 1)); try lia; try done.
      rewrite Z.add_mod_idemp_l by lia. do 3 f_equal. lia.
Qed.

Lemma exchange_in_order (ops : list op) :
  forall t : exchange_state,
    queue_inv (queue t) ->
    never_waits ops (count (queue t)) (size (queue t)) = true ->
    sent t = received t ++ pending (queue t) ->
    exists t', exchange ops t = Returned t'
               /\ queue_inv (queue t')
               /\ sent t' = received t' ++ pending (queue t').
Proof.
  induction ops as [|[type|] ops IH]; intros t Hinv Hfit Hfifo; simpl in *.
  - by exists t.
  - apply andb_prop in Hfit as [Hroom%Z.ltb_lt Hfit].
    destruct (write_message_room (queue t) (mkMessage type) [] Hinv Hroom)
      as (Hcall & Hinv' & Hpend).
    unfold send_message. rewrite Hcall.
    apply IH; simpl; [done|done|].
    by rewrite Hpend, Hfifo, app_assoc.
  - apply andb_prop in Hfit as [Hsome%Z.ltb_lt Hfit].
    destruct (read_message_some (queue t) [] Hinv Hsome)
      as (msg & Hcall & Hinv' & Hpend).
    rewrite Hcall.
    apply IH; simpl; [done|done|].
    by rewrite Hfifo, Hpend, <- app_assoc.
Qed.

Lemma wait_while_stuck (cond : CircularBuffer -> bool)
    (wakes : list (CircularBuffer -> CircularBuffer)) :
  Forall (fun w => forall b, cond b = true -> cond (w b) = true) wakes ->
  forall b, cond b = true -> wait_while cond wakes b = None.
Proof.
  induction 1 as [|w wakes Hw _ IH]; intros b Hb; simpl; rewrite Hb; [done|].
  apply IH. by apply Hw.
Qed.

Lemma create_circular_buffer_inv (heap : allocator) (n : Z) (b : CircularBuffer) :
  create_circular_buffer heap n = Some b ->
  Z.of_nat (length (buffer b)) = n -> 0 < n <= INT_MAX ->
  queue_inv b /\ count b = 0 /\ size b = n /\ pending b = [].
Proof.
  unfold create_circular_buffer. intros Hc Hlen Hn.
  destruct (malloc_struct heap); simpl in Hc; [|done].
  destruct (malloc_array heap _) as [cells|]; [|done].
  injection Hc as <-. simpl in *.
  split; [|done].
  unfold queue_inv. simpl. rewrite Z.add_0_r, Z.mod_0_l by lia. lia.
Qed.

(** X7.  [write_message] on a buffer with a free cell returns [TRUE]
    without waiting, keeps the invariant of the buffer, and puts the
    message behind the messages that wait in it. *)
Theorem write_message_enqueues (b : CircularBuffer) (msg : Message)
    (wakes : list (CircularBuffer -> CircularBuffer)) :
  queue_inv b -> count b < size b ->
  write_message b msg wakes = Returned (TRUE, stored b msg)
  /\ queue_inv (stored b msg)
  /\ pending (stored b msg) = pending b ++ [msg].
Proof. apply write_message_room. Qed.

(** X8.  [read_message] on a buffer that holds a message returns [TRUE]
    without waiting, keeps the invariant, and hands over the oldest
    message, which it removes. *)
Theorem read_message_dequeues (b : CircularBuffer)
    (wakes : list (CircularBuffer -> CircularBuffer)) :
  queue_inv b -> 0 < count b ->
  exists msg,
    read_message b wakes = Returned (TRUE, msg, fetched b)
    /\ queue_inv (fetched b)
    /\ pending b = msg :: pending (fetched b).
Proof. apply read_message_some. Qed.

(** X9.  From a buffer that [create_circular_buffer] has made with
    [n] cells, every sequence of [send_message] and [read_message]
    calls that never finds the buffer full at a send or empty at a
    receive runs to its end, and the messages come out in the order
    they were sent, each once: the messages sent are the messages
    received followed by the messages still in the buffer. *)
Theorem messages_arrive_in_order (heap : allocator) (n : Z) (b : CircularBuffer)
    (ops : list op) :
  create_circular_buffer heap n = Some b ->
  Z.of_nat (length (buffer b)) = n -> 0 < n <= INT_MAX ->
  never_waits ops 0 n = true ->
  exists t, exchange ops (mkExchange b [] []) = Returned t
            /\ queue_inv (queue t)
            /\ sent t = received t ++ pending (queue t).
Proof.
  intros Hc Hlen Hn Hfit.
  destruct (create_circular_buffer_inv heap n b Hc Hlen Hn)
    as (Hinv & Hcount & Hsize & Hpend).
  apply exchange_in_order; simpl; [done| |by rewrite Hpend].
  by rewrite Hcount, Hsize.
Qed.

(** X10.  [write_message] on a full buffer does not return while the
    buffer stays full, and returns as soon as the audio thread has
    taken a message out: then the new message is behind the messages
    that were waiting, and the oldest of them is gone. *)
Theorem write_message_waits_for_a_free_cell (b : CircularBuffer) (msg : Message)
    (wakes : list (CircularBuffer -> CircularBuffer)) :
  queue_inv b -> count b = size b ->
  (Forall (fun w => forall b', count b' = size b' -> count (w b') = size (w b'))
     wakes ->
   write_message b msg wakes = Blocked)
  /\ write_message b msg (receiver :: wakes)
     = Returned (TRUE, stored (fetched b) msg)
  /\ exists oldest, pending b = oldest :: pending (fetched b)
                    /\ pending (stored (fetched b) msg)
                       = pending (fetched b) ++ [msg].
Proof.
  intros Hinv Hfull.
  pose proof Hinv as (_ & Hsz & _).
  destruct (read_message_some b [] Hinv ltac:(lia))
    as (oldest & Hread & Hinv' & Hpend).
  destruct (write_message_room (fetched b) msg wakes Hinv' ltac:(simpl; lia))
    as (Hcall & _ & Hpend').
  split; [|split].
  - intros Hwakes. unfold write_message.
    rewrite wait_while_stuck; [done| |by apply Z.eqb_eq].
    eapply Forall_impl; [exact Hwakes|]. simpl.
    intros w Hw b' Hb'%Z.eqb_eq. apply Z.eqb_eq. by apply Hw.
  - unfold write_message in *. simpl.
    destruct (Z.eqb_spec (count b) (size b)); [|done].
    unfold receiver. rewrite Hread. exact Hcall.
  - by exists oldest.
Qed.

(** X11.  A buffer that [create_circular_buffer] has made with size 0
    takes no message: as long as no other thread changes its count,
    every [write_message] and every [read_message] on it waits. *)
Theorem zero_size_buffer_carries_nothing (heap : allocator) (b : CircularBuffer)
    (msg : Message) (wakes : list (CircularBuffer -> CircularBuffer)) :
  create_circular_buffer heap 0 = Some b ->
  Forall (fun w => forall b', count (w b') = count b' /\ size (w b') = size b')
    wakes ->
  write_message b msg wakes = Blocked /\ read_message b wakes = Blocked.
Proof.
  unfold create_circular_buffer. intros Hc Hwakes.
  destruct (malloc_struct heap); simpl in Hc; [|done].
  destruct (malloc_array heap _) as [cells|]; [|done].
  injection Hc as <-.
  unfold write_message, read_message.
  rewrite !wait_while_stuck; try done.
  - eapply Forall_impl; [exact Hwakes|]. simpl.
    intros w Hw b' Hb'%Z.eqb_eq. apply Z.eqb_eq.
    destruct (Hw b') as [-> _]. done.
  - eapply Forall_impl; [exact Hwakes|]. simpl.
    intros w Hw b' Hb'%Z.eqb_eq. apply Z.eqb_eq.
    destruct (Hw b') as [-> ->]. done.
Qed.

Ltac queue_inv3 :=
  unfold queue_inv; simpl; repeat split; first [lia | reflexivity | evaluate].

Lemma busy3_inv : queue_inv busy3.
Proof. queue_inv3. Qed.

Lemma full3_inv : queue_inv full3.
Proof. queue_inv3. Qed.

Lemma write_message_enqueues_witness :
  queue_inv busy3
  /\ count busy3 < size busy3
  /\ write_message busy3 (mkMessage MSG_EXIT) []
     = Returned (TRUE, stored busy3 (mkMessage MSG_EXIT))
  /\ queue_inv (stored busy3 (mkMessage MSG_EXIT))
  /\ pending (stored busy3 (mkMessage MSG_EXIT))
     = pending busy3 ++ [mkMessage MSG_EXIT].
Proof.
  assert (H1 : count busy3 < size busy3) by evaluate.
  split; [exact busy3_inv|]. split; [exact H1|].
  exact (write_message_enqueues busy3 (mkMessage MSG_EXIT) [] busy3_inv H1).
Defined.

Lemma read_message_dequeues_witness :
  queue_inv busy3
  /\ 0 < count busy3
  /\ exists msg,
       read_message busy3 [] = Returned (TRUE, msg, fetched busy3)
       /\ queue_inv (fetched busy3)
       /\ pending busy3 = msg :: pending (fetched busy3).
Proof.
  assert (H1 : 0 < count busy3) by evaluate.
  split; [exact busy3_inv|]. split; [exact H1|].
  exact (read_message_dequeues busy3 [] busy3_inv H1).
Defined.

Lemma messages_arrive_in_order_witness :
  create_circular_buffer generous BUFFER_SIZE = Some fresh10
  /\ Z.of_nat (length (buffer fresh10)) = BUFFER_SIZE
  /\ 0 < BUFFER_SIZE <= INT_MAX
  /\ never_waits clicks 0 BUFFER_SIZE = true
  /\ exists t, exchange clicks (mkExchange fresh10 [] []) = Returned t
               /\ queue_inv (queue t)
               /\ sent t = received t ++ pending (queue t).
Proof.
  assert (H1 : create_circular_buffer generous BUFFER_SIZE = Some fresh10)
    by (vm_compute; reflexivity).
  assert (H2 : Z.of_nat (length (buffer fresh10)) = BUFFER_SIZE)
    by (vm_compute; reflexivity).
  assert (H3 : 0 < BUFFER_SIZE <= INT_MAX) by evaluate.
  assert (H4 : never_waits clicks 0 BUFFER_SIZE = true) by (vm_compute; reflexivity).
  split; [exact H1|]. split; [exact H2|]. split; [exact H3|]. split; [exact H4|].
  exact (messages_arrive_in_order generous BUFFER_SIZE fresh10 clicks H1 H2 H3 H4).
Defined.

Lemma write_message_waits_for_a_free_cell_witness :
  queue_inv full3
  /\ count full3 = size full3
  /\ (Forall (fun w => forall b', count b' = size b' -> count (w b') = size (w b'))
        [id; id] ->
      write_message full3 (mkMessage MSG_STOP_AUDIO) [id; id] = Blocked)
  /\ write_message full3 (mkMessage MSG_STOP_AUDIO) (receiver :: [id; id])
     = Returned (TRUE, stored (fetched full3) (mkMessage MSG_STOP_AUDIO))
  /\ exists oldest,
       pending full3 = oldest :: pending (fetched full3)
       /\ pending (stored (fetched full3) (mkMessage MSG_STOP_AUDIO))
          = pending (fetched full3) ++ [mkMessage MSG_STOP_AUDIO].
Proof.
  assert (H1 : count full3 = size full3) by reflexivity.
  split; [exact full3_inv|]. split; [exact H1|].
  exact (write_message_waits_for_a_free_cell full3 (mkMessage MSG_STOP_AUDIO)
           [id; id] full3_inv H1).
Defined.

Lemma idle_wakes :
  Forall (fun w : CircularBuffer -> CircularBuffer =>
            forall b', count (w b') = count b' /\ size (w b') = size b')
    [id; id].
Proof. repeat (apply Forall_cons_2; [done|]). apply Forall_nil_2. Qed.

Lemma zero_size_buffer_carries_nothing_witness :
  create_circular_buffer generous 0 = Some (mkCircularBuffer [] 0 0 0 0)
  /\ Forall (fun w : CircularBuffer -> CircularBuffer =>
               forall b', count (w b') = count b' /\ size (w b') = size b')
       [id; id]
  /\ write_message (mkCircularBuffer [] 0 0 0 0) (mkMessage MSG_EXIT) [id; id]
     = Blocked
  /\ read_message (mkCircularBuffer [] 0 0 0 0) [id; id] = Blocked.
Proof.
  assert (H1 : create_circular_buffer generous 0
               = Some (mkCircularBuffer [] 0 0 0 0))
    by (vm_compute; reflexivity).
  split; [exact H1|]. split; [exact idle_wakes|].
  exact (zero_size_buffer_carries_nothing generous (mkCircularBuffer [] 0 0 0 0)
           (mkMessage MSG_EXIT) [id; id] H1 idle_wakes).
Defined.

End MessageQueue.

(* ================================================================= *)
(** * The feeding step of the WASAPI thread *)

Lemma to_uint32_small (x : Z) : 0 <= x < 2 ^ 32 -> to_uint32 x = x.
Proof. intros H. unfold to_uint32. apply Z.mod_small. lia. Qed.

Lemma blit_all (l bs : list byte) : len bs = len l -> blit l 0 bs = bs.
Proof.
  intros Hl. pose proof (len_nonneg bs).
  apply nthz_ext. intros i. rewrite nthz_blit by lia.
  split_tests; try (f_equal; lia).
  all: rewrite !nthz_None; [done|lia|lia].
Qed.

Lemma sub_round (l : list byte) (pos n : Z) :
  0 <= pos <= len l -> len l - pos <= n -> n <= len l ->
  sub l pos (len l - pos) ++ sub l 0 (n - (len l - pos)) = sub (l ++ l) pos n.
Proof.
  intros Hpos Hn Hl.
  apply nthz_ext. intros i.
  rewrite nthz_app, len_sub by lia. lookups. simpl.
  split_tests; try done; f_equal; lia.
Qed.

Lemma sub_before_end (l : list byte) (pos n : Z) :
  0 <= pos -> 0 <= n -> pos + n <= len l -> sub l pos n = sub (l ++ l) pos n.
Proof.
  intros Hpos Hn Hl.
  apply nthz_ext. intros i. lookups. simpl.
  split_tests; done.
Qed.

(** What the step copies, with the machine arithmetic resolved: the
    whole frames left in the clip and, if they are too few, frames from
    the start of the clip. *)
Lemma feed_frames (audio_data buffer_data : list byte)
    (audio_data_size bytes_per_frame frames_to_write current_position : Z) :
  0 < bytes_per_frame ->
  len audio_data = audio_data_size -> audio_data_size < 2 ^ 32 ->
  0 <= current_position <= audio_data_size ->
  0 < frames_to_write ->
  frames_to_write * bytes_per_frame <= audio_data_size ->
  len buffer_data = frames_to_write * bytes_per_frame ->
  let frames_available := (audio_data_size - current_position) / bytes_per_frame in
  feed audio_data audio_data_size bytes_per_frame frames_to_write
       current_position buffer_data
  = Some
      (if frames_available <? frames_to_write
       then sub audio_data current_position (frames_available * bytes_per_frame)
            ++ sub audio_data 0
                 ((frames_to_write - frames_available) * bytes_per_frame)
       else sub audio_data current_position (frames_to_write * bytes_per_frame),
       if frames_available <? frames_to_write
       then (frames_to_write - frames_available) * bytes_per_frame
       else current_position + frames_to_write * bytes_per_frame).
Proof.
  intros Hbpf Hlen Hsize Hpos Hftw Hfit Hbuf frames_available.
  assert (Hav0 : 0 <= frames_available) by (apply Z.div_pos; lia).
  pose proof (Z.mul_div_le (audio_data_size - current_position) bytes_per_frame
                ltac:(lia)) as Hav1.
  fold frames_available in Hav1.
  assert (Hftw' : frames_to_write < 2 ^ 32) by nia.
  unfold feed.
  destruct (Z.eqb_spec bytes_per_frame 0); [lia|].
  rewrite (to_uint32_small (audio_data_size - current_position)) by lia.
  fold frames_available.
  destruct (Z.ltb_spec frames_available frames_to_write) as [Hwrap|Hlin].
  - assert (Hn1 : 0 <= frames_available * bytes_per_frame) by nia.
    assert (Hn2 : 0 < (frames_to_write - frames_available) * bytes_per_frame) by nia.
    assert (Hsum : frames_available * bytes_per_frame
                   + (frames_to_write - frames_available) * bytes_per_frame
                   = frames_to_write * bytes_per_frame) by lia.
    rewrite (to_uint32_small (frames_to_write - frames_available)) by lia.
    rewrite !to_uint32_small by lia.
    assert (Hd1 : (if 0 <? frames_available
                   then memcpy buffer_data 0 audio_data current_position
                               (frames_available * bytes_per_frame)
                   else Some buffer_data)
                  = Some (blit buffer_data 0
                            (sub audio_data current_position
                               (frames_available * bytes_per_frame)))).
    { destruct (Z.ltb_spec 0 frames_available).
      - apply memcpy_ok; lia.
      - replace frames_available with 0 by lia.
        by rewrite Z.mul_0_l, sub_nil, blit_nil. }
    rewrite Hd1. simpl.
    rewrite memcpy_ok; try lia.
    + simpl. do 2 f_equal.
      replace (frames_available * bytes_per_frame)
        with (0 + len (sub audio_data current_position
                         (frames_available * bytes_per_frame))) at 2
        by (rewrite len_sub; lia).
      rewrite blit_blit_app; rewrite ?len_sub; try lia.
      apply blit_all. rewrite len_app, !len_sub; lia.
    + rewrite len_blit; rewrite ?len_sub; lia.
  - assert (Hn : 0 < frames_to_write * bytes_per_frame) by nia.
    assert (Hend : frames_to_write * bytes_per_frame
                   <= audio_data_size - current_position) by nia.
    rewrite (to_uint32_small (frames_to_write * bytes_per_frame)) by lia.
    rewrite to_uint32_small by lia.
    rewrite memcpy_ok by lia. simpl. do 2 f_equal.
    apply blit_all. rewrite len_sub; lia.
Qed.

(** X12.  With a clip that is at least as long as the buffer the device
    hands out, the feeding step of [audio_thread_func] stays inside the
    clip and the buffer and fills the whole buffer: with the whole
    frames left from [current_position] on and, when they are too few,
    with frames from the start of the clip.  The bytes of a last,
    incomplete frame of the clip are left out, and the new position is
    inside the clip again. *)
Theorem feed_fills_the_device_buffer (audio_data buffer_data : list byte)
    (audio_data_size bytes_per_frame frames_to_write current_position : Z) :
  0 < bytes_per_frame ->
  len audio_data = audio_data_size -> audio_data_size < 2 ^ 32 ->
  0 <= current_position <= audio_data_size ->
  0 < frames_to_write ->
  frames_to_write * bytes_per_frame <= audio_data_size ->
  len buffer_data = frames_to_write * bytes_per_frame ->
  let frames_available := (audio_data_size - current_position) / bytes_per_frame in
  exists out position,
    feed audio_data audio_data_size bytes_per_frame frames_to_write
         current_position buffer_data = Some (out, position)
    /\ len out = len buffer_data
    /\ 0 <= position <= audio_data_size
    /\ out = sub (sub audio_data current_position
                    (frames_available * bytes_per_frame) ++ audio_data)
                 0 (frames_to_write * bytes_per_frame).
Proof.
  intros Hbpf Hlen Hsize Hpos Hftw Hfit Hbuf frames_available.
  pose proof (feed_frames audio_data buffer_data audio_data_size bytes_per_frame
                frames_to_write current_position Hbpf Hlen Hsize Hpos Hftw Hfit
                Hbuf) as Hfeed.
  simpl in Hfeed. fold frames_available in Hfeed.
  assert (Hav0 : 0 <= frames_available) by (apply Z.div_pos; lia).
  pose proof (Z.mul_div_le (audio_data_size - current_position) bytes_per_frame
                ltac:(lia)) as Hav1.
  fold frames_available in Hav1.
  eexists _, _. split; [exact Hfeed|].
  destruct (Z.ltb_spec frames_available frames_to_write) as [Hwrap|Hlin].
  - assert (Hn1 : 0 <= frames_available * bytes_per_frame) by nia.
    assert (Hn2 : 0 < (frames_to_write - frames_available) * bytes_per_frame) by nia.
    assert (Hsum : frames_available * bytes_per_frame
                   + (frames_to_write - frames_available) * bytes_per_frame
                   = frames_to_write * bytes_per_frame) by lia.
    split; [rewrite len_app, !len_sub; lia|]. split; [lia|].
    apply nthz_ext. intros i.
    rewrite (nthz_sub (_ ++ _)) by lia.
    rewrite !nthz_app. rewrite !len_sub by lia.
    lookups. simpl.
    split_tests; try done; f_equal; lia.
  - assert (Hn : 0 < frames_to_write * bytes_per_frame) by nia.
    assert (Hend : frames_to_write * bytes_per_frame
                   <= audio_data_size - current_position) by nia.
    assert (Hle : frames_to_write * bytes_per_frame
                  <= frames_available * bytes_per_frame) by nia.
    split; [rewrite len_sub; lia|]. split; [lia|].
    apply nthz_ext. intros i.
    rewrite (nthz_sub (_ ++ _)) by lia.
    rewrite !nthz_app. rewrite !len_sub by lia.
    lookups. simpl.
    split_tests; try done; f_equal; lia.
Qed.

Lemma feed_fills_the_device_buffer_witness :
  0 < 4
  /\ len clip12 = 12
  /\ 12 < 2 ^ 32
  /\ 0 <= 8 <= 12
  /\ 0 < 2
  /\ 2 * 4 <= 12
  /\ len (garbage 8) = 2 * 4
  /\ exists out position,
       feed clip12 12 4 2 8 (garbage 8) = Some (out, position)
       /\ len out = len (garbage 8)
       /\ 0 <= position <= 12
       /\ out = sub (sub clip12 8 ((12 - 8) / 4 * 4) ++ clip12) 0 (2 * 4).
Proof.
  assert (H1 : 0 < 4) by lia.
  assert (H2 : len clip12 = 12) by reflexivity.
  assert (H3 : 12 < 2 ^ 32) by lia.
  assert (H4 : 0 <= 8 <= 12) by lia.
  assert (H5 : 0 < 2) by lia.
  assert (H6 : 2 * 4 <= 12) by lia.
  assert (H7 : len (garbage 8) = 2 * 4) by reflexivity.
  do 7 (split; [assumption|]).
  exact (feed_fills_the_device_buffer clip12 (garbage 8) 12 4 2 8
           H1 H2 H3 H4 H5 H6 H7).
Defined.

(** X13.  When the clip is a whole number of frames and the position is
    on a frame, that step plays the clip round and round: it hands the
    device the next [frames_to_write] frames of the clip repeated, and
    the new position is on a frame again, that many bytes further on,
    round the end of the clip. *)
Theorem feed_plays_the_clip_in_a_loop (audio_data buffer_data : list byte)
    (audio_data_size bytes_per_frame frames_to_write current_position : Z) :
  0 < bytes_per_frame ->
  len audio_data = audio_data_size -> audio_data_size < 2 ^ 32 ->
  0 <= current_position <= audio_data_size ->
  audio_data_size mod bytes_per_frame = 0 ->
  current_position mod bytes_per_frame = 0 ->
  0 < frames_to_write ->
  frames_to_write * bytes_per_frame <= audio_data_size ->
  len buffer_data = frames_to_write * bytes_per_frame ->
  let n := frames_to_write * bytes_per_frame in
  let position :=
    if current_position + n <=? audio_data_size
    then current_position + n else current_position + n - audio_data_size in
  feed audio_data audio_data_size bytes_per_frame frames_to_write
       current_position buffer_data
  = Some (sub (audio_data ++ audio_data) current_position n, position)
  /\ 0 <= position <= audio_data_size
  /\ position mod bytes_per_frame = 0.
Proof.
  intros Hbpf Hlen Hsize Hpos Hal1 Hal2 Hftw Hfit Hbuf n position.
  pose proof (feed_frames audio_data buffer_data audio_data_size bytes_per_frame
                frames_to_write current_position Hbpf Hlen Hsize Hpos Hftw Hfit
                Hbuf) as Hfeed.
  simpl in Hfeed.
  assert (Hrest : (audio_data_size - current_position) mod bytes_per_frame = 0).
  { rewrite Zminus_mod, Hal1, Hal2. simpl. apply Z.mod_0_l. lia. }
  apply Z.div_exact in Hrest; [|lia].
  remember ((audio_data_size - current_position) / bytes_per_frame)
    as frames_available eqn:Hfa.
  assert (Hav0 : 0 <= frames_available) by (subst; apply Z.div_pos; lia).
  assert (Hn : 0 < n) by (unfold n; nia).
  assert (Hmod : forall k, (k * bytes_per_frame) mod bytes_per_frame = 0)
    by (intros k; apply Z.mod_mul; lia).
  rewrite Hfeed. unfold position.
  destruct (Z.ltb_spec frames_available frames_to_write) as [Hwrap|Hlin].
  - destruct (Z.leb_spec (current_position + n) audio_data_size); [unfold n in *; nia|].
    replace (frames_available * bytes_per_frame)
      with (len audio_data - current_position) by lia.
    replace ((frames_to_write - frames_available) * bytes_per_frame)
      with (n - (len audio_data - current_position)) by (unfold n; lia).
    rewrite sub_round by (unfold n in *; lia).
    split; [do 2 f_equal; unfold n in *; lia|].
    split; [unfold n in *; lia|].
    replace (current_position + n - audio_data_size)
      with ((frames_to_write - frames_available) * bytes_per_frame)
      by (unfold n; lia).
    apply Hmod.
  - destruct (Z.leb_spec (current_position + n) audio_data_size);
      [|unfold n in *; nia].
    rewrite <- sub_before_end by (unfold n in *; lia).
    split; [done|]. split; [lia|].
    unfold n. rewrite Z.mod_add by lia. done.
Qed.

Lemma feed_plays_the_clip_in_a_loop_witness :
  0 < 4
  /\ len clip12 = 12
  /\ 12 < 2 ^ 32
  /\ 0 <= 8 <= 12
  /\ 12 mod 4 = 0
  /\ 8 mod 4 = 0
  /\ 0 < 2
  /\ 2 * 4 <= 12
  /\ len (garbage 8) = 2 * 4
  /\ feed clip12 12 4 2 8 (garbage 8)
     = Some (sub (clip12 ++ clip12) 8 (2 * 4),
             if 8 + 2 * 4 <=? 12 then 8 + 2 * 4 else 8 + 2 * 4 - 12)
  /\ 0 <= (if 8 + 2 * 4 <=? 12 then 8 + 2 * 4 else 8 + 2 * 4 - 12) <= 12
  /\ (if 8 + 2 * 4 <=? 12 then 8 + 2 * 4 else 8 + 2 * 4 - 12) mod 4 = 0.
Proof.
  assert (H1 : 0 < 4) by lia.
  assert (H2 : len clip12 = 12) by reflexivity.
  assert (H3 : 12 < 2 ^ 32) by lia.
  assert (H4 : 0 <= 8 <= 12) by lia.
  assert (H5 : 12 mod 4 = 0) by reflexivity.
  assert (H6 : 8 mod 4 = 0) by reflexivity.
  assert (H7 : 0 < 2) by lia.
  assert (H8 : 2 * 4 <= 12) by lia.
  assert (H9 : len (garbage 8) = 2 * 4) by reflexivity.
  do 9 (split; [assumption|]).
  exact (feed_plays_the_clip_in_a_loop clip12 (garbage 8) 12 4 2 8
           H1 H2 H3 H4 H5 H6 H7 H8 H9).
Defined.

(** X14.  With a clip so short that the frames missing at its end are
    more than the whole clip, that step reads past the end of the
    clip: nothing in it compares the device's buffer with the length of
    the clip. *)
Theorem feed_overruns_a_short_clip (audio_data buffer_data : list byte)
    (audio_data_size bytes_per_frame frames_to_write current_position : Z) :
  0 < bytes_per_frame ->
  len audio_data = audio_data_size ->
  0 <= current_position <= audio_data_size ->
  frames_to_write * bytes_per_frame < 2 ^ 32 ->
  audio_data_size
  < (frames_to_write - (audio_data_size - current_position) / bytes_per_frame)
    * bytes_per_frame ->
  feed audio_data audio_data_size bytes_per_frame frames_to_write
       current_position buffer_data = None.
Proof.
  intros Hbpf Hlen Hpos Hmax Hshort.
  pose proof (len_nonneg audio_data) as Hl.
  remember ((audio_data_size - current_position) / bytes_per_frame)
    as frames_available eqn:Hfa.
  assert (Hav0 : 0 <= frames_available) by (subst; apply Z.div_pos; lia).
  assert (Hwrap : frames_available < frames_to_write) by nia.
  unfold feed.
  destruct (Z.eqb_spec bytes_per_frame 0); [lia|].
  rewrite (to_uint32_small (audio_data_size - current_position)) by nia.
  rewrite <- Hfa.
  destruct (Z.ltb_spec frames_available frames_to_write); [|lia].
  rewrite (to_uint32_small (frames_to_write - frames_available)) by nia.
  rewrite (to_uint32_small ((frames_to_write - frames_available) * bytes_per_frame))
    by nia.
  destruct (if 0 <? frames_available then _ else _) as [d1|]; [|done].
  simpl. rewrite memcpy_short_source by lia. done.
Qed.

Lemma feed_overruns_a_short_clip_witness :
  0 < 4
  /\ len clip12 = 12
  /\ 0 <= 0 <= 12
  /\ 8 * 4 < 2 ^ 32
  /\ 12 < (8 - (12 - 0) / 4) * 4
  /\ feed clip12 12 4 8 0 (garbage 32) = None.
Proof.
  assert (H1 : 0 < 4) by lia.
  assert (H2 : len clip12 = 12) by reflexivity.
  assert (H3 : 0 <= 0 <= 12) by lia.
  assert (H4 : 8 * 4 < 2 ^ 32) by lia.
  assert (H5 : 12 < (8 - (12 - 0) / 4) * 4) by (vm_compute; reflexivity).
  do 5 (split; [assumption|]).
  exact (feed_overruns_a_short_clip clip12 (garbage 32) 12 4 8 0 H1 H2 H3 H4 H5).
Defined.

(* ================================================================= *)
(** * Loading the clip *)

Section WavFile.
Import Wav.

Lemma fread_full (size count : Z) (file : FILE) :
  0 < size -> 0 <= count -> 0 <= position file ->
  position file + size * count <= len (content file) ->
  fread size count file
  = (count, sub (content file) (position file) (size * count),
     mkFILE (content file) (position file + size * count) (at_eof file)).
Proof.
  intros Hsize Hcount Hpos Hfit. unfold fread.
  assert (Hw : 0 <= size * count) by nia.
  rewrite Z.max_r by lia. rewrite Z.min_l by lia.
  destruct (Z.eqb_spec size 0); [lia|].
  rewrite Z.mul_comm, Z.div_mul by lia.
  rewrite Z.ltb_irrefl, orb_false_r. by rewrite (Z.mul_comm count).
Qed.

Lemma read_value_full (size : Z) (file : FILE) :
  0 < size -> 0 <= position file ->
  position file + size <= len (content file) ->
  read_value size file
  = (Some (le (sub (content file) (position file) size)),
     mkFILE (content file) (position file + size) (at_eof file)).
Proof.
  intros Hsize Hpos Hfit. unfold read_value.
  rewrite fread_full by lia. rewrite Z.mul_1_r. done.
Qed.

Lemma le_nonneg (bs : list byte) : 0 <= le bs.
Proof. induction bs as [|b bs IH]; simpl; lia. Qed.

Lemma to_long_small (x : Z) : 0 <= x < 2 ^ 31 -> to_long x = x.
Proof. intros H. unfold to_long. rewrite Z.mod_small by lia. lia. Qed.

Lemma map_to_N_inj (a b : list byte) :
  map Byte.to_N a = map Byte.to_N b -> a = b.
Proof.
  revert b. induction a as [|x a IH]; intros [|y b] H; simpl in H; try done.
  injection H as Hxy Hab. f_equal; [|by apply IH].
  pose proof (Byte.of_to_N x) as Hx. rewrite Hxy, Byte.of_to_N in Hx.
  by injection Hx.
Qed.

Lemma memcmp_eq_code (a code : list byte) :
  len a = 4 -> len code = 4 ->
  memcmp_eq a code 4 = bool_decide (map Byte.to_N a = map Byte.to_N code).
Proof.
  intros Ha Hc. unfold memcmp_eq.
  assert (Ha' : sub a 0 4 = a) by (rewrite <- Ha; apply sub_all).
  assert (Hc' : sub code 0 4 = code) by (rewrite <- Hc; apply sub_all).
  by rewrite Ha', Hc'.
Qed.

Lemma memcmp_eq_same (a code : list byte) :
  len a = 4 -> len code = 4 -> a = code -> memcmp_eq a code 4 = true.
Proof.
  intros Ha Hc ->. rewrite memcmp_eq_code by done. by apply bool_decide_eq_true.
Qed.

Lemma memcmp_eq_other (a code : list byte) :
  len a = 4 -> len code = 4 -> a <> code -> memcmp_eq a code 4 = false.
Proof.
  intros Ha Hc Hne. rewrite memcmp_eq_code by done.
  apply bool_decide_eq_false. intros H. by apply Hne, map_to_N_inj.
Qed.

Lemma memcmp_eq_true (a code : list byte) :
  len a = 4 -> len code = 4 -> memcmp_eq a code 4 = true -> a = code.
Proof.
  intros Ha Hc. rewrite memcmp_eq_code by done.
  intros H%bool_decide_eq_true. by apply map_to_N_inj.
Qed.

Lemma leads_to_forward (target bytes : list byte) (p q : Z) (n : nat) :
  leads_to target bytes p q n -> p <= q.
Proof.
  induction 1 as [p _|p q n _ _ _ _ IH]; [lia|].
  pose proof (le_nonneg (sub bytes (p + 4) 4)). lia.
Qed.

Lemma len_sub4 (bytes : list byte) (p : Z) :
  0 <= p -> p + 4 <= len bytes -> len (sub bytes p 4) = 4.
Proof. intros. apply len_sub; lia. Qed.

(** A chunk with another code is passed over: the search goes on
    behind its size field and as many bytes as that field says. *)
Lemma find_fmt_skip (fuel : nat) (bytes : list byte) (p : Z) (e : bool) :
  0 <= p -> p + 8 <= len bytes ->
  sub bytes p 4 <> fmt_ ->
  le (sub bytes (p + 4) 4) < 2 ^ 31 ->
  find_fmt (S fuel) (mkFILE bytes p e)
  = find_fmt fuel (mkFILE bytes (p + 8 + le (sub bytes (p + 4) 4)) false).
Proof.
  intros Hp Hfit Hcode Hsize.
  pose proof (le_nonneg (sub bytes (p + 4) 4)) as Hs.
  cbn [find_fmt].
  rewrite fread_full by (simpl; lia). cbn [content position at_eof].
  rewrite read_value_full by (simpl; lia). cbn [content position at_eof].
  rewrite Z.mul_1_l. simpl negb.
  rewrite memcmp_eq_other; [|apply len_sub4; lia|done|done].
  rewrite to_long_small by lia.
  unfold fseek_cur. cbn [content position at_eof].
  destruct (Z.ltb_spec (p + 4 + 4 + le (sub bytes (p + 4) 4)) 0); [lia|].
  cbn [at_eof]. do 2 f_equal. lia.
Qed.

Lemma find_data_skip (fuel : nat) (wfx : WAVEFORMATEX)
    (heap : Z -> option (list byte)) (app : AppState) (bytes : list byte)
    (p : Z) (e : bool) :
  0 <= p -> p + 8 <= len bytes ->
  sub bytes p 4 <> data_ ->
  le (sub bytes (p + 4) 4) < 2 ^ 31 ->
  find_data (S fuel) wfx heap app (mkFILE bytes p e)
  = find_data fuel wfx heap app
      (mkFILE bytes (p + 8 + le (sub bytes (p + 4) 4)) false).
Proof.
  intros Hp Hfit Hcode Hsize.
  pose proof (le_nonneg (sub bytes (p + 4) 4)) as Hs.
  cbn [find_data].
  rewrite fread_full by (simpl; lia). cbn [content position at_eof].
  rewrite read_value_full by (simpl; lia). cbn [content position at_eof].
  rewrite Z.mul_1_l. simpl negb.
  rewrite memcmp_eq_other; [|apply len_sub4; lia|done|done].
  rewrite to_long_small by lia.
  unfold fseek_cur. cbn [content position at_eof].
  destruct (Z.ltb_spec (p + 4 + 4 + le (sub bytes (p + 4) 4)) 0); [lia|].
  cbn [at_eof]. do 2 f_equal. lia.
Qed.

(** The format chunk is read field by field, and what its size field
    has above 16 is passed over. *)
Lemma find_fmt_here (fuel : nat) (bytes : list byte) (q : Z) (e : bool) :
  0 <= q -> q + 24 <= len bytes ->
  sub bytes q 4 = fmt_ ->
  le (sub bytes (q + 4) 4) < 2 ^ 31 ->
  exists e',
    find_fmt (S fuel) (mkFILE bytes q e)
    = Found (format_at bytes q,
             mkFILE bytes
               (q + 24 + (if 16 <? le (sub bytes (q + 4) 4)
                          then le (sub bytes (q + 4) 4) - 16 else 0))
               e').
Proof.
  intros Hq Hfit Hcode Hsize.
  pose proof (le_nonneg (sub bytes (q + 4) 4)) as Hs.
  cbn [find_fmt].
  rewrite fread_full by (simpl; lia). cbn [content position at_eof].
  rewrite read_value_full by (simpl; lia). cbn [content position at_eof].
  rewrite Z.mul_1_l. simpl negb.
  rewrite memcmp_eq_same; [|apply len_sub4; lia|done|done].
  do 6 (rewrite read_value_full by (simpl; lia); cbn [content position at_eof]).
  unfold format_at.
  replace (q + 4 + 4) with (q + 8) by lia.
  replace (q + 8 + 2) with (q + 10) by lia.
  replace (q + 10 + 2) with (q + 12) by lia.
  replace (q + 12 + 4) with (q + 16) by lia.
  replace (q + 16 + 4) with (q + 20) by lia.
  replace (q + 20 + 2) with (q + 22) by lia.
  replace (q + 22 + 2) with (q + 24) by lia.
  destruct (Z.ltb_spec 16 (le (sub bytes (q + 4) 4))).
  - rewrite to_uint32_small, to_long_small by lia.
    unfold fseek_cur. cbn [content position at_eof].
    destruct (Z.ltb_spec (q + 24 + (le (sub bytes (q + 4) 4) - 16)) 0); [lia|].
    by exists false.
  - exists e. by rewrite Z.add_0_r.
Qed.

Lemma find_fmt_leads (bytes : list byte) (p q : Z) (n : nat) :
  leads_to fmt_ bytes p q n ->
  forall (fuel : nat) (e : bool),
    0 <= p -> q + 24 <= len bytes ->
    le (sub bytes (q + 4) 4) < 2 ^ 31 ->
    (n < fuel)%nat ->
    exists e',
      find_fmt fuel (mkFILE bytes p e)
      = Found (format_at bytes q,
               mkFILE bytes
                 (q + 24 + (if 16 <? le (sub bytes (q + 4) 4)
                            then le (sub bytes (q + 4) 4) - 16 else 0))
                 e').
Proof.
  induction 1 as [p Hcode|p q n Hcode Hhead Hsize Hrest IH];
    intros fuel e Hp Hfit Hfs Hfuel;
    (destruct fuel as [|fuel]; [lia|]).
  - by apply find_fmt_here.
  - rewrite find_fmt_skip by done.
    pose proof (le_nonneg (sub bytes (p + 4) 4)).
    apply IH; try done; lia.
Qed.

(** The data chunk: memory for as many bytes as its size field says,
    filled with the bytes the file has left. *)
Lemma find_data_here (fuel : nat) (wfx : WAVEFORMATEX)
    (heap : Z -> option (list byte)) (app : AppState) (bytes : list byte)
    (q : Z) (e : bool) :
  0 <= q -> q + 8 <= len bytes ->
  sub bytes q 4 = data_ ->
  find_data (S fuel) wfx heap app (mkFILE bytes q e)
  = match heap (le (sub bytes (q + 4) 4)) with
    | None => NoMemory
    | Some fresh =>
        if wBitsPerSample wfx / 8 * nChannels wfx =? 0 then DivisionByZero
        else
          Found
            (mkAppState (wave_format app)
               (Some (blit fresh 0
                        (sub bytes (q + 8)
                           (Z.min (le (sub bytes (q + 4) 4))
                                  (len bytes - (q + 8))))))
               (le (sub bytes (q + 4) 4))
               (le (sub bytes (q + 4) 4)
                / (wBitsPerSample wfx / 8 * nChannels wfx)))
    end.
Proof.
  intros Hq Hfit Hcode.
  cbn [find_data].
  rewrite fread_full by (simpl; lia). cbn [content position at_eof].
  rewrite read_value_full by (simpl; lia). cbn [content position at_eof].
  rewrite Z.mul_1_l. simpl negb.
  rewrite memcmp_eq_same; [|apply len_sub4; lia|done|done].
  destruct (heap _) as [fresh|]; [|done].
  unfold fread. cbn [content position at_eof].
  rewrite Z.mul_1_l, Z.max_r by lia.
  replace (q + 4 + 4) with (q + 8) by lia. done.
Qed.

Lemma find_data_leads (wfx : WAVEFORMATEX) (heap : Z -> option (list byte))
    (app : AppState) (bytes : list byte) (p q : Z) (n : nat) :
  leads_to data_ bytes p q n ->
  forall (fuel : nat) (e : bool),
    0 <= p -> q + 8 <= len bytes -> (n < fuel)%nat ->
    find_data fuel wfx heap app (mkFILE bytes p e)
    = match heap (le (sub bytes (q + 4) 4)) with
      | None => NoMemory
      | Some fresh =>
          if wBitsPerSample wfx / 8 * nChannels wfx =? 0 then DivisionByZero
          else
            Found
              (mkAppState (wave_format app)
                 (Some (blit fresh 0
                          (sub bytes (q + 8)
                             (Z.min (le (sub bytes (q + 4) 4))
                                    (len bytes - (q + 8))))))
                 (le (sub bytes (q + 4) 4))
                 (le (sub bytes (q + 4) 4)
                  / (wBitsPerSample wfx / 8 * nChannels wfx)))
      end.
Proof.
  induction 1 as [p Hcode|p q n Hcode Hhead Hsize Hrest IH];
    intros fuel e Hp Hfit Hfuel;
    (destruct fuel as [|fuel]; [lia|]).
  - by apply find_data_here.
  - rewrite find_data_skip by done.
    pose proof (le_nonneg (sub bytes (p + 4) 4)).
    apply IH; try done; lia.
Qed.

(** With the two codes of the header in place the two searches start
    at byte 12. *)
Lemma load_wav_file_header (fuel : nat) (bytes junk : list byte)
    (heap : Z -> option (list byte)) (cotask : bool) (app : AppState) :
  len junk = 4 -> 12 <= len bytes ->
  sub bytes 0 4 = RIFF -> sub bytes 8 4 = WAVE ->
  load_wav_file fuel (Some bytes) junk heap cotask app
  = match find_fmt fuel (mkFILE bytes 12 false) with
    | Found (wfx, file) =>
        match find_data fuel wfx heap app file with
        | Found app' =>
            if cotask
            then Returns S_OK
                   (mkAppState (Some wfx) (audio_data app')
                      (audio_data_size app') (audio_sample_count app'))
            else Returns E_OUTOFMEMORY
                   (mkAppState None (audio_data app')
                      (audio_data_size app') (audio_sample_count app'))
        | GiveUp hr => Returns hr app
        | NoMemory =>
            Returns E_OUTOFMEMORY
              (mkAppState (wave_format app) None (audio_data_size app)
                 (audio_sample_count app))
        | DivisionByZero => Traps
        | OutOfFuel => Hangs
        end
    | GiveUp hr => Returns hr app
    | NoMemory => Returns E_OUTOFMEMORY app
    | DivisionByZero => Traps
    | OutOfFuel => Hangs
    end.
Proof.
  intros Hjunk Hlen Hriff Hwave. unfold load_wav_file.
  rewrite fread_full by (simpl; lia). cbn [content position at_eof].
  rewrite Z.mul_1_l, Hriff.
  rewrite (blit_all junk RIFF) by (rewrite Hjunk; reflexivity).
  rewrite memcmp_eq_same by done. simpl negb. cbv iota.
  unfold fseek_cur at 1. cbn [content position at_eof].
  change (0 + 4 + 4 <? 0) with false. cbv iota.
  rewrite fread_full by (simpl; lia). cbn [content position at_eof].
  rewrite Z.mul_1_l. change (0 + 4 + 4) with 8. rewrite Hwave.
  rewrite (blit_all RIFF WAVE) by reflexivity.
  rewrite memcmp_eq_same by done. simpl negb. cbv iota.
  change (8 + 4) with 12. done.
Qed.

Lemma load_wav_file_layout (fuel : nat) (bytes junk : list byte)
    (heap : Z -> option (list byte)) (app : AppState)
    (a b : Z) (n1 n2 : nat) (fresh : list byte) :
  len junk = 4 ->
  sub bytes 0 4 = RIFF -> sub bytes 8 4 = WAVE ->
  leads_to fmt_ bytes 12 a n1 -> a + 24 <= len bytes ->
  le (sub bytes (a + 4) 4) < 2 ^ 31 ->
  leads_to data_ bytes
    (a + 24 + (if 16 <? le (sub bytes (a + 4) 4)
               then le (sub bytes (a + 4) 4) - 16 else 0)) b n2 ->
  b + 8 <= len bytes ->
  heap (le (sub bytes (b + 4) 4)) = Some fresh ->
  (n1 < fuel)%nat -> (n2 < fuel)%nat ->
  let wfx := format_at bytes a in
  let chunk_size := le (sub bytes (b + 4) 4) in
  let divisor := wBitsPerSample wfx / 8 * nChannels wfx in
  load_wav_file fuel (Some bytes) junk heap true app
  = if divisor =? 0 then Traps
    else Returns S_OK
           (mkAppState (Some wfx)
              (Some (blit fresh 0
                       (sub bytes (b + 8)
                          (Z.min chunk_size (len bytes - (b + 8))))))
              chunk_size (chunk_size / divisor)).
Proof.
  intros Hjunk Hriff Hwave Hfmt Hfit Hfs Hdata Hfit' Hheap Hf1 Hf2
    wfx chunk_size divisor.
  pose proof (leads_to_forward _ _ _ _ _ Hfmt) as Ha.
  pose proof (le_nonneg (sub bytes (a + 4) 4)) as Hs.
  rewrite load_wav_file_header by (done || lia).
  destruct (find_fmt_leads bytes 12 a n1 Hfmt fuel false ltac:(lia) Hfit Hfs Hf1)
    as (e' & ->).
  rewrite (find_data_leads _ heap app bytes _ b n2 Hdata fuel e');
    [|destruct (16 <? _); lia|done|done].
  rewrite Hheap. fold wfx divisor chunk_size.
  by destruct (divisor =? 0).
Qed.

(** X15.  [load_wav_file] accepts a file that starts with "RIFF", four
    bytes and "WAVE", and whose chunks from byte 12 on lead to a "fmt "
    chunk and, behind it, to a "data" chunk: chunks with other codes
    are passed over by their size fields, as are the bytes of the
    format chunk above 16.  It returns [S_OK] with the six fields of the
    format as the file has them, [audio_data_size] as the size field of
    the data chunk says, and in [audio_data] the bytes of the file that
    follow that field: all [audio_data_size] of them when the file has
    as many. *)
Theorem load_wav_file_reads_the_chunks (fuel : nat) (bytes junk : list byte)
    (heap : Z -> option (list byte)) (app : AppState)
    (a b : Z) (n1 n2 : nat) (fresh : list byte) :
  len junk = 4 ->
  sub bytes 0 4 = RIFF -> sub bytes 8 4 = WAVE ->
  leads_to fmt_ bytes 12 a n1 -> a + 24 <= len bytes ->
  le (sub bytes (a + 4) 4) < 2 ^ 31 ->
  leads_to data_ bytes
    (a + 24 + (if 16 <? le (sub bytes (a + 4) 4)
               then le (sub bytes (a + 4) 4) - 16 else 0)) b n2 ->
  b + 8 <= len bytes ->
  heap (le (sub bytes (b + 4) 4)) = Some fresh ->
  len fresh = le (sub bytes (b + 4) 4) ->
  wBitsPerSample (format_at bytes a) / 8 * nChannels (format_at bytes a) <> 0 ->
  (n1 < fuel)%nat -> (n2 < fuel)%nat ->
  let wfx := format_at bytes a in
  let chunk_size := le (sub bytes (b + 4) 4) in
  exists samples,
    load_wav_file fuel (Some bytes) junk heap true app
    = Returns S_OK (mkAppState (Some wfx) (Some samples) chunk_size
                      (chunk_size / (wBitsPerSample wfx / 8 * nChannels wfx)))
    /\ len samples = chunk_size
    /\ sub samples 0 (Z.min chunk_size (len bytes - (b + 8)))
       = sub bytes (b + 8) (Z.min chunk_size (len bytes - (b + 8)))
    /\ (b + 8 + chunk_size <= len bytes -> samples = sub bytes (b + 8) chunk_size).
Proof.
  intros Hjunk Hriff Hwave Hfmt Hfit Hfs Hdata Hfit' Hheap Hfresh Hdiv Hf1 Hf2
    wfx chunk_size.
  pose proof (le_nonneg (sub bytes (b + 4) 4)) as Hs.
  pose proof (leads_to_forward _ _ _ _ _ Hfmt) as Ha.
  pose proof (leads_to_forward _ _ _ _ _ Hdata) as Hb.
  pose proof (le_nonneg (sub bytes (a + 4) 4)) as Hs'.
  assert (Hb0 : 0 <= b) by (destruct (16 <? _); lia).
  rewrite (load_wav_file_layout fuel bytes junk heap app a b n1 n2 fresh)
    by done.
  fold wfx chunk_size.
  destruct (Z.eqb_spec (wBitsPerSample wfx / 8 * nChannels wfx) 0); [done|].
  eexists. split; [reflexivity|].
  assert (Hgot : len (sub bytes (b + 8)
                        (Z.min chunk_size (len bytes - (b + 8))))
                 = Z.min chunk_size (len bytes - (b + 8)))
    by (apply len_sub; lia).
  split; [|split].
  - rewrite len_blit; [done|lia|]. rewrite Hgot. fold chunk_size in Hfresh. lia.
  - apply sub_blit_same; [done|]. fold chunk_size in Hfresh. lia.
  - intros Hall. rewrite Z.min_l by lia. apply blit_all.
    rewrite len_sub by lia. done.
Qed.

(** X16.  With such a file whose format says fewer than eight bits per
    sample, or no channel, [load_wav_file] divides by zero when it
    computes the number of samples. *)
Theorem load_wav_file_divides_by_zero (fuel : nat) (bytes junk : list byte)
    (heap : Z -> option (list byte)) (app : AppState)
    (a b : Z) (n1 n2 : nat) (fresh : list byte) :
  len junk = 4 ->
  sub bytes 0 4 = RIFF -> sub bytes 8 4 = WAVE ->
  leads_to fmt_ bytes 12 a n1 -> a + 24 <= len bytes ->
  le (sub bytes (a + 4) 4) < 2 ^ 31 ->
  leads_to data_ bytes
    (a + 24 + (if 16 <? le (sub bytes (a + 4) 4)
               then le (sub bytes (a + 4) 4) - 16 else 0)) b n2 ->
  b + 8 <= len bytes ->
  heap (le (sub bytes (b + 4) 4)) = Some fresh ->
  wBitsPerSample (format_at bytes a) < 8 \/ nChannels (format_at bytes a) = 0 ->
  (n1 < fuel)%nat -> (n2 < fuel)%nat ->
  load_wav_file fuel (Some bytes) junk heap true app = Traps.
Proof.
  intros Hjunk Hriff Hwave Hfmt Hfit Hfs Hdata Hfit' Hheap Hzero Hf1 Hf2.
  rewrite (load_wav_file_layout fuel bytes junk heap app a b n1 n2 fresh)
    by done.
  assert (Hbits : 0 <= wBitsPerSample (format_at bytes a))
    by (simpl; apply le_nonneg).
  destruct (Z.eqb_spec (wBitsPerSample (format_at bytes a) / 8
                        * nChannels (format_at bytes a)) 0) as [|Hne]; [done|].
  exfalso. apply Hne. destruct Hzero as [Hlt| ->]; [|lia].
  rewrite Z.div_small by lia. done.
Qed.

Lemma header_checks (bytes junk : list byte) :
  len junk = 4 ->
  let n1 := Z.min 4 (len bytes) in
  let c1 := blit junk 0 (sub bytes 0 n1) in
  let n2 := Z.min 4 (Z.max 0 (len bytes - (n1 + 4))) in
  let c2 := blit c1 0 (sub bytes (n1 + 4) n2) in
  memcmp_eq c1 RIFF 4 = true -> memcmp_eq c2 WAVE 4 = true ->
  12 <= len bytes /\ sub bytes 0 4 = RIFF /\ sub bytes 8 4 = WAVE.
Proof.
  intros Hjunk n1 c1 n2 c2 H1 H2.
  pose proof (len_nonneg bytes) as Hl.
  assert (Hg1 : len (sub bytes 0 n1) = n1) by (apply len_sub; lia).
  assert (Hc1 : len c1 = 4) by (unfold c1; rewrite len_blit; lia).
  apply memcmp_eq_true in H1; [|done|done].
  assert (Hg2 : len (sub bytes (n1 + 4) n2) = n2 \/ n2 = 0).
  { destruct (Z_le_gt_dec (n1 + 4) (len bytes)).
    - left. apply len_sub; lia.
    - right. lia. }
  assert (Hg2' : len (sub bytes (n1 + 4) n2) <= n2).
  { destruct Hg2 as [->| ->]; [lia|]. by rewrite sub_nil. }
  pose proof (len_nonneg (sub bytes (n1 + 4) n2)) as Hg2''.
  assert (Hc2 : len c2 = 4) by (unfold c2; rewrite len_blit; lia).
  apply memcmp_eq_true in H2; [|done|done].
  assert (Hfull : len (sub bytes (n1 + 4) n2) = 4).
  { destruct (Z.eq_dec (len (sub bytes (n1 + 4) n2)) 4) as [|Hshort]; [done|].
    exfalso.
    assert (Hlast : nthz c2 3 = nthz c1 3).
    { unfold c2. rewrite nthz_blit by lia.
      destruct (Z.ltb_spec 3 (0 + len (sub bytes (n1 + 4) n2))); [lia|].
      by rewrite andb_false_r. }
    rewrite H1, H2 in Hlast. discriminate Hlast. }
  assert (Hn2 : n2 = 4) by lia.
  assert (Hn1 : n1 = 4) by lia.
  assert (Hlen : 12 <= len bytes) by lia.
  split; [done|].
  unfold c2 in H2. unfold c1 in H1. rewrite Hn1 in *. rewrite Hn2 in *.
  rewrite blit_all in H1 by lia.
  rewrite blit_all in H2 by lia.
  done.
Qed.

(** X17.  [load_wav_file] returns [S_OK] only for a file of at least
    twelve bytes that starts with "RIFF" and has "WAVE" at byte 8,
    whatever [chunk_id] held before: the two unchecked calls of [fread]
    cannot let a shorter file through. *)
Theorem load_wav_file_accepts_only_riff_wave (fuel : nat) (bytes junk : list byte)
    (heap : Z -> option (list byte)) (cotask : bool) (app app' : AppState) :
  len junk = 4 ->
  load_wav_file fuel (Some bytes) junk heap cotask app = Returns S_OK app' ->
  12 <= len bytes /\ sub bytes 0 4 = RIFF /\ sub bytes 8 4 = WAVE.
Proof.
  intros Hjunk Hload.
  pose proof (len_nonneg bytes) as Hl.
  unfold load_wav_file, fread, fseek_cur in Hload.
  cbn [content position at_eof] in Hload.
  rewrite Z.mul_1_l, Z.sub_0_r, Z.add_0_l, (Z.max_r 0 (len bytes)) in Hload by lia.
  destruct (memcmp_eq (blit junk 0 (sub bytes 0 (Z.min 4 (len bytes)))) RIFF 4)
    eqn:H1; [|discriminate Hload].
  simpl negb in Hload. cbv iota in Hload.
  destruct (Z.ltb_spec (Z.min 4 (len bytes) + 4) 0); [lia|].
  cbn [content position at_eof] in Hload.
  destruct (memcmp_eq
              (blit (blit junk 0 (sub bytes 0 (Z.min 4 (len bytes)))) 0
                 (sub bytes (Z.min 4 (len bytes) + 4)
                    (Z.min 4 (Z.max 0 (len bytes - (Z.min 4 (len bytes) + 4))))))
              WAVE 4) eqn:H2; [|discriminate Hload].
  by apply (header_checks bytes junk Hjunk).
Qed.

Lemma find_fmt_goes_round (bytes : list byte) (p : Z) :
  0 <= p -> p + 8 <= len bytes ->
  sub bytes p 4 <> fmt_ ->
  le (sub bytes (p + 4) 4) = 2 ^ 32 - 8 ->
  forall (fuel : nat) (e : bool), find_fmt fuel (mkFILE bytes p e) = OutOfFuel.
Proof.
  intros Hp Hfit Hcode Hsize.
  induction fuel as [|fuel IH]; intros e; [done|].
  cbn [find_fmt].
  rewrite fread_full by (simpl; lia). cbn [content position at_eof].
  rewrite read_value_full by (simpl; lia). cbn [content position at_eof].
  rewrite Z.mul_1_l. simpl negb.
  rewrite memcmp_eq_other; [|apply len_sub4; lia|done|done].
  rewrite Hsize. change (to_long (2 ^ 32 - 8)) with (-8).
  unfold fseek_cur. cbn [content position at_eof].
  destruct (Z.ltb_spec (p + 4 + 4 + -8) 0); [lia|].
  cbn [at_eof]. replace (p + 4 + 4 + -8) with p by lia. apply IH.
Qed.

(** X18.  A chunk in front of the format chunk whose size field reads
    [0xFFFFFFF8] makes [load_wav_file] go round for ever: passed for a
    [long], the size is -8, and the seek puts the stream back at the
    start of that chunk. *)
Theorem load_wav_file_hangs_on_a_chunk_of_minus_eight (fuel : nat)
    (bytes junk : list byte) (heap : Z -> option (list byte)) (cotask : bool)
    (app : AppState) :
  len junk = 4 -> 20 <= len bytes ->
  sub bytes 0 4 = RIFF -> sub bytes 8 4 = WAVE ->
  sub bytes 12 4 <> fmt_ ->
  le (sub bytes 16 4) = 2 ^ 32 - 8 ->
  load_wav_file fuel (Some bytes) junk heap cotask app = Hangs.
Proof.
  intros Hjunk Hlen Hriff Hwave Hcode Hsize.
  rewrite load_wav_file_header by (done || lia).
  by rewrite (find_fmt_goes_round bytes 12) by (done || lia).
Qed.

Lemma list_wav_fmt : leads_to fmt_ list_wav 12 23 1.
Proof.
  apply leads_on.
  - intros H. vm_compute in H. discriminate H.
  - vm_compute. discriminate.
  - vm_compute. reflexivity.
  - exact (leads_here fmt_ list_wav 23 eq_refl).
Qed.

Lemma list_wav_data :
  leads_to data_ list_wav
    (23 + 24 + (if 16 <? le (sub list_wav (23 + 4) 4)
                then le (sub list_wav (23 + 4) 4) - 16 else 0)) 47 0.
Proof. exact (leads_here data_ list_wav 47 eq_refl). Qed.

Lemma load_wav_file_reads_the_chunks_witness :
  len (garbage 4) = 4
  /\ sub list_wav 0 4 = RIFF
  /\ sub list_wav 8 4 = WAVE
  /\ leads_to fmt_ list_wav 12 23 1
  /\ 23 + 24 <= len list_wav
  /\ le (sub list_wav (23 + 4) 4) < 2 ^ 31
  /\ leads_to data_ list_wav
       (23 + 24 + (if 16 <? le (sub list_wav (23 + 4) 4)
                   then le (sub list_wav (23 + 4) 4) - 16 else 0)) 47 0
  /\ 47 + 8 <= len list_wav
  /\ plenty (le (sub list_wav (47 + 4) 4)) = Some (garbage 8)
  /\ len (garbage 8) = le (sub list_wav (47 + 4) 4)
  /\ wBitsPerSample (format_at list_wav 23) / 8 * nChannels (format_at list_wav 23)
     <> 0
  /\ (1 < 2)%nat
  /\ (0 < 2)%nat
  /\ exists samples,
       load_wav_file 2 (Some list_wav) (garbage 4) plenty true no_app
       = Returns S_OK
           (mkAppState (Some (format_at list_wav 23)) (Some samples)
              (le (sub list_wav (47 + 4) 4))
              (le (sub list_wav (47 + 4) 4)
               / (wBitsPerSample (format_at list_wav 23) / 8
                  * nChannels (format_at list_wav 23))))
       /\ len samples = le (sub list_wav (47 + 4) 4)
       /\ sub samples 0
            (Z.min (le (sub list_wav (47 + 4) 4)) (len list_wav - (47 + 8)))
          = sub list_wav (47 + 8)
              (Z.min (le (sub list_wav (47 + 4) 4)) (len list_wav - (47 + 8)))
       /\ (47 + 8 + le (sub list_wav (47 + 4) 4) <= len list_wav ->
           samples = sub list_wav (47 + 8) (le (sub list_wav (47 + 4) 4))).
Proof.
  assert (H1 : len (garbage 4) = 4) by reflexivity.
  assert (H2 : sub list_wav 0 4 = RIFF) by reflexivity.
  assert (H3 : sub list_wav 8 4 = WAVE) by reflexivity.
  assert (H4 : 23 + 24 <= len list_wav) by (vm_compute; discriminate).
  assert (H5 : le (sub list_wav (23 + 4) 4) < 2 ^ 31) by (vm_compute; reflexivity).
  assert (H6 : 47 + 8 <= len list_wav) by (vm_compute; discriminate).
  assert (H7 : plenty (le (sub list_wav (47 + 4) 4)) = Some (garbage 8))
    by reflexivity.
  assert (H8 : len (garbage 8) = le (sub list_wav (47 + 4) 4)) by reflexivity.
  assert (H9 : wBitsPerSample (format_at list_wav 23) / 8
               * nChannels (format_at list_wav 23) <> 0)
    by (vm_compute; discriminate).
  assert (H10 : (1 < 2)%nat) by lia.
  assert (H11 : (0 < 2)%nat) by lia.
  split; [exact H1|]. split; [exact H2|]. split; [exact H3|].
  split; [exact list_wav_fmt|]. split; [exact H4|]. split; [exact H5|].
  split; [exact list_wav_data|]. split; [exact H6|]. split; [exact H7|].
  split; [exact H8|]. split; [exact H9|]. split; [exact H10|].
  split; [exact H11|].
  exact (load_wav_file_reads_the_chunks 2 list_wav (garbage 4) plenty no_app
           23 47 1 0 (garbage 8) H1 H2 H3 list_wav_fmt H4 H5 list_wav_data H6
           H7 H8 H9 H10 H11).
Defined.

Lemma nibble_wav_fmt : leads_to fmt_ nibble_wav 12 12 0.
Proof. exact (leads_here fmt_ nibble_wav 12 eq_refl). Qed.

Lemma nibble_wav_data :
  leads_to data_ nibble_wav
    (12 + 24 + (if 16 <? le (sub nibble_wav (12 + 4) 4)
                then le (sub nibble_wav (12 + 4) 4) - 16 else 0)) 36 0.
Proof. exact (leads_here data_ nibble_wav 36 eq_refl). Qed.

Lemma load_wav_file_divides_by_zero_witness :
  len (garbage 4) = 4
  /\ sub nibble_wav 0 4 = RIFF
  /\ sub nibble_wav 8 4 = WAVE
  /\ leads_to fmt_ nibble_wav 12 12 0
  /\ 12 + 24 <= len nibble_wav
  /\ le (sub nibble_wav (12 + 4) 4) < 2 ^ 31
  /\ leads_to data_ nibble_wav
       (12 + 24 + (if 16 <? le (sub nibble_wav (12 + 4) 4)
                   then le (sub nibble_wav (12 + 4) 4) - 16 else 0)) 36 0
  /\ 36 + 8 <= len nibble_wav
  /\ plenty (le (sub nibble_wav (36 + 4) 4)) = Some (garbage 8)
  /\ (wBitsPerSample (format_at nibble_wav 12) < 8
      \/ nChannels (format_at nibble_wav 12) = 0)
  /\ (0 < 1)%nat
  /\ load_wav_file 1 (Some nibble_wav) (garbage 4) plenty true no_app = Traps.
Proof.
  assert (H1 : len (garbage 4) = 4) by reflexivity.
  assert (H2 : sub nibble_wav 0 4 = RIFF) by reflexivity.
  assert (H3 : sub nibble_wav 8 4 = WAVE) by reflexivity.
  assert (H4 : 12 + 24 <= len nibble_wav) by (vm_compute; discriminate).
  assert (H5 : le (sub nibble_wav (12 + 4) 4) < 2 ^ 31) by (vm_compute; reflexivity).
  assert (H6 : 36 + 8 <= len nibble_wav) by (vm_compute; discriminate).
  assert (H7 : plenty (le (sub nibble_wav (36 + 4) 4)) = Some (garbage 8))
    by reflexivity.
  assert (H8 : wBitsPerSample (format_at nibble_wav 12) < 8
               \/ nChannels (format_at nibble_wav 12) = 0)
    by (left; vm_compute; reflexivity).
  assert (H9 : (0 < 1)%nat) by lia.
  split; [exact H1|]. split; [exact H2|]. split; [exact H3|].
  split; [exact nibble_wav_fmt|]. split; [exact H4|]. split; [exact H5|].
  split; [exact nibble_wav_data|]. split; [exact H6|]. split; [exact H7|].
  split; [exact H8|]. split; [exact H9|].
  exact (load_wav_file_divides_by_zero 1 nibble_wav (garbage 4) plenty no_app
           12 36 0 0 (garbage 8) H1 H2 H3 nibble_wav_fmt H4 H5 nibble_wav_data
           H6 H7 H8 H9 H9).
Defined.

Lemma plain_wav_loads :
  load_wav_file 1 (Some plain_wav) (garbage 4) plenty true no_app
  = Returns S_OK
      (mkAppState (Some (mkWAVEFORMATEX 1 2 44100 176400 4 16 0))
         (Some [x01; x02; x03; x04; x05; x06; x07; x08]) 8 2).
Proof. vm_compute. reflexivity. Qed.

Lemma load_wav_file_accepts_only_riff_wave_witness :
  len (garbage 4) = 4
  /\ load_wav_file 1 (Some plain_wav) (garbage 4) plenty true no_app
     = Returns S_OK
         (mkAppState (Some (mkWAVEFORMATEX 1 2 44100 176400 4 16 0))
            (Some [x01; x02; x03; x04; x05; x06; x07; x08]) 8 2)
  /\ 12 <= len plain_wav
  /\ sub plain_wav 0 4 = RIFF
  /\ sub plain_wav 8 4 = WAVE.
Proof.
  assert (H1 : len (garbage 4) = 4) by reflexivity.
  split; [exact H1|]. split; [exact plain_wav_loads|].
  exact (load_wav_file_accepts_only_riff_wave 1 plain_wav (garbage 4) plenty true
           no_app _ H1 plain_wav_loads).
Defined.

Lemma looping_wav_code : sub looping_wav 12 4 <> fmt_.
Proof. intros H. vm_compute in H. discriminate H. Qed.

Lemma load_wav_file_hangs_on_a_chunk_of_minus_eight_witness :
  len (garbage 4) = 4
  /\ 20 <= len looping_wav
  /\ sub looping_wav 0 4 = RIFF
  /\ sub looping_wav 8 4 = WAVE
  /\ sub looping_wav 12 4 <> fmt_
  /\ le (sub looping_wav 16 4) = 2 ^ 32 - 8
  /\ load_wav_file 1000 (Some looping_wav) (garbage 4) plenty true no_app = Hangs.
Proof.
  assert (H1 : len (garbage 4) = 4) by reflexivity.
  assert (H2 : 20 <= len looping_wav) by (vm_compute; discriminate).
  assert (H3 : sub looping_wav 0 4 = RIFF) by reflexivity.
  assert (H4 : sub looping_wav 8 4 = WAVE) by reflexivity.
  assert (H5 : le (sub looping_wav 16 4) = 2 ^ 32 - 8) by reflexivity.
  split; [exact H1|]. split; [exact H2|]. split; [exact H3|].
  split; [exact H4|]. split; [exact looping_wav_code|]. split; [exact H5|].
  exact (load_wav_file_hangs_on_a_chunk_of_minus_eight 1000 looping_wav
           (garbage 4) plenty true no_app H1 H2 H3 H4 looping_wav_code H5).
Defined.

End WavFile.

(* ================================================================= *)
(** * The audio thread and its messages *)

Section Thread.
Import Messages MessagePassing AudioThread.

Lemma released_app (cs cs' : list device_call) :
  released (cs ++ cs') = released cs ++ released cs'.
Proof. unfold released. apply omap_app. Qed.

(** [start_audio] and [stop_audio] hand no buffer to the device and
    take no message. *)
Lemma start_audio_frame (d : device) (t : thread) :
  released (calls (start_audio d t)) = released (calls t)
  /\ handled (start_audio d t) = handled t
  /\ current_position (start_audio d t) = current_position t
  /\ message_buffer (app (start_audio d t)) = message_buffer (app t)
  /\ audio_api (app (start_audio d t)) = audio_api (app t).
Proof.
  unfold start_audio, set_audio_playing, call.
  destruct (_ || _); [done|]. simpl.
  destruct (audio_api (app t)) eqn:Hapi; simpl; [done| |].
  - destruct (audio_client (app t)); [|done].
    destruct (Start_hr d <? 0); simpl; by rewrite released_app, app_nil_r.
  - destruct (header_prepared d), (Prepare_result d =? 0),
      (Write_result d =? 0); simpl; by rewrite !released_app, !app_nil_r.
Qed.

Lemma stop_audio_frame (d : device) (t : thread) :
  released (calls (stop_audio d t)) = released (calls t)
  /\ handled (stop_audio d t) = handled t
  /\ current_position (stop_audio d t) = current_position t
  /\ message_buffer (app (stop_audio d t)) = message_buffer (app t)
  /\ audio_api (app (stop_audio d t)) = audio_api (app t).
Proof.
  unfold stop_audio, set_audio_playing, call.
  destruct (_ || _); [done|]. simpl.
  destruct (audio_api (app t)) eqn:Hapi; simpl; [done| |].
  - destruct (audio_client (app t)); [|done].
    simpl. by rewrite released_app, app_nil_r.
  - destruct (header_prepared d); simpl; by rewrite !released_app, !app_nil_r.
Qed.

Lemma handle_frame (d : device) (type : MessageType) (t : thread) :
  released (calls (handle d type t)) = released (calls t)
  /\ handled (handle d type t) = handled t
  /\ current_position (handle d type t) = current_position t
  /\ message_buffer (app (handle d type t)) = message_buffer (app t)
  /\ audio_api (app (handle d type t)) = audio_api (app t).
Proof.
  destruct type; simpl; [apply start_audio_frame|apply stop_audio_frame|done].
Qed.

(** X19.  [stop_audio] twice is [stop_audio] once, whatever the devices
    answer, and after it [audio_playing] is [FALSE] when audio was
    initialised; [start_audio] on a stream that a first [start_audio]
    has set playing does nothing, and makes no call to a device. *)
Theorem start_and_stop_audio_are_idempotent (d1 d2 : device) (t : thread) :
  stop_audio d2 (stop_audio d1 t) = stop_audio d1 t
  /\ (audio_initialized (app t) <> 0 ->
      audio_playing (app (stop_audio d1 t)) = FALSE)
  /\ (audio_playing (app (start_audio d1 t)) <> 0 ->
      start_audio d2 (start_audio d1 t) = start_audio d1 t).
Proof.
  assert (Hidle : forall d t',
             (audio_initialized (app t') =? 0) || (audio_playing (app t') =? 0)
             = true ->
             stop_audio d t' = t').
  { intros d t' H. unfold stop_audio. by rewrite H. }
  assert (Hstop : ((audio_initialized (app t) =? 0) || (audio_playing (app t) =? 0)
                   = true /\ stop_audio d1 t = t)
                  \/ audio_playing (app (stop_audio d1 t)) = FALSE).
  { unfold stop_audio, set_audio_playing, call.
    destruct (_ || _) eqn:Hg; [by left|right]. simpl.
    destruct (audio_api (app t)) eqn:Hapi; simpl; [done| |].
    - by destruct (audio_client (app t)).
    - by destruct (header_prepared d1). }
  split; [|split].
  - destruct Hstop as [[Hg ->]|Hoff]; [by apply Hidle|].
    apply Hidle. rewrite Hoff. simpl. by rewrite orb_true_r.
  - intros Hinit. destruct Hstop as [[Hg ->]|Hoff]; [|done].
    destruct (Z.eqb_spec (audio_initialized (app t)) 0); [done|]. simpl in Hg.
    by apply Z.eqb_eq in Hg.
  - intros Hplay. unfold start_audio at 1.
    destruct (Z.eqb_spec (audio_playing (app (start_audio d1 t))) 0); [done|].
    simpl. by rewrite orb_true_r.
Qed.

Lemma start_and_stop_audio_are_idempotent_witness :
  audio_initialized (app winmm_thread) <> 0
  /\ audio_playing (app (start_audio willing winmm_thread)) <> 0
  /\ stop_audio willing (stop_audio willing winmm_thread)
     = stop_audio willing winmm_thread
  /\ audio_playing (app (stop_audio willing winmm_thread)) = FALSE
  /\ start_audio willing (start_audio willing winmm_thread)
     = start_audio willing winmm_thread.
Proof.
  assert (H1 : audio_initialized (app winmm_thread) <> 0)
    by (vm_compute; discriminate).
  assert (H2 : audio_playing (app (start_audio willing winmm_thread)) <> 0)
    by (vm_compute; discriminate).
  destruct (start_and_stop_audio_are_idempotent willing willing winmm_thread)
    as (Hstop & Hoff & Hstart).
  split; [exact H1|]. split; [exact H2|]. split; [exact Hstop|].
  split; [exact (Hoff H1)|exact (Hstart H2)].
Defined.

Lemma thread_iter_feeds (buffer_frames bytes_per_frame : Z) (p : pass)
    (t : thread) :
  match thread_iter buffer_frames bytes_per_frame p t with
  | Again t' | Leave t' | Wait t' =>
      (length (released (calls t')) + handled t
       <= length (released (calls t)) + handled t')%nat
  | Fault => True
  end.
Proof.
  unfold thread_iter.
  destruct (negb _); [lia|].
  destruct (read_message _ _) as [[[ret msg] q]| |]; [|lia|done].
  set (t1 := taken q t).
  assert (H1 : released (calls t1) = released (calls t)
               /\ handled t1 = S (handled t)) by done.
  destruct H1 as [Hr1 Hh1].
  assert (Hsw : exists t2 running,
             (if negb (ret =? 0)
              then match type msg with
                   | MSG_START_AUDIO => (start_audio (dev p) t1, true)
                   | MSG_STOP_AUDIO => (stop_audio (dev p) t1, true)
                   | MSG_EXIT => (t1, false)
                   end
              else (t1, true)) = (t2, running)
             /\ released (calls t2) = released (calls t1)
             /\ handled t2 = handled t1).
  { destruct (negb _); [|by eexists _, _].
    destruct (type msg); eexists _, _; (split; [reflexivity|]).
    - pose proof (start_audio_frame (dev p) t1) as (? & ? & _). done.
    - pose proof (stop_audio_frame (dev p) t1) as (? & ? & _). done.
    - done. }
  destruct Hsw as (t2 & running & -> & Hr2 & Hh2).
  destruct (_ && _).
  - destruct (GetCurrentPadding_hr (dev p) <? 0).
    { simpl. rewrite released_app, Hr2, Hr1, Hh2, Hh1. simpl.
      rewrite app_nil_r. lia. }
    destruct (to_uint32 _ =? 0).
    { destruct running; simpl; rewrite !released_app, Hr2, Hr1, Hh2, Hh1;
        simpl; rewrite !app_nil_r; lia. }
    destruct (GetBuffer_hr (dev p) <? 0).
    { simpl. rewrite !released_app, Hr2, Hr1, Hh2, Hh1. simpl.
      rewrite !app_nil_r. lia. }
    destruct (feed _ _ _ _ _ _) as [[out position]|]; [|done].
    destruct (ReleaseBuffer_hr (dev p) <? 0), running; simpl;
      rewrite !released_app, Hr2, Hr1, Hh2, Hh1; simpl;
      rewrite !length_app; simpl; lia.
  - destruct running; simpl; rewrite !released_app, Hr2, Hr1, Hh2, Hh1;
      simpl; rewrite !app_nil_r; lia.
Qed.

(** X20.  The thread hands the WASAPI device at most one buffer for
    every message it takes out of the message buffer: the feeding step
    comes behind [read_message] in the loop, and [read_message] does
    not return without a message. *)
Theorem thread_feeds_once_per_message (buffer_frames bytes_per_frame : Z)
    (passes : list pass) (t : thread) :
  match audio_thread_loop buffer_frames bytes_per_frame passes t with
  | Left t' | Unfinished t' | Waiting t' =>
      (length (released (calls t')) - length (released (calls t))
       <= handled t' - handled t)%nat
      /\ (handled t <= handled t')%nat
  | Faulty => True
  end.
Proof.
  revert t. induction passes as [|p passes IH]; intros t; simpl; [lia|].
  pose proof (thread_iter_feeds buffer_frames bytes_per_frame p t) as Hstep.
  assert (Hmono : match thread_iter buffer_frames bytes_per_frame p t with
                  | Again t' | Leave t' | Wait t' => (handled t <= handled t')%nat
                  | Fault => True
                  end).
  { unfold thread_iter.
    destruct (negb _); [lia|].
    destruct (read_message _ _) as [[[ret msg] q]| |]; [|lia|done].
    assert (Hsw : exists t2 running,
               (if negb (ret =? 0)
                then match type msg with
                     | MSG_START_AUDIO => (start_audio (dev p) (taken q t), true)
                     | MSG_STOP_AUDIO => (stop_audio (dev p) (taken q t), true)
                     | MSG_EXIT => (taken q t, false)
                     end
                else (taken q t, true)) = (t2, running)
               /\ handled t2 = S (handled t)).
    { destruct (negb _); [|by eexists _, _].
      destruct (type msg); eexists _, _; (split; [reflexivity|]).
      - pose proof (start_audio_frame (dev p) (taken q t)) as (_ & -> & _). done.
      - pose proof (stop_audio_frame (dev p) (taken q t)) as (_ & -> & _). done.
      - done. }
    destruct Hsw as (t2 & running & -> & Hh2).
    destruct (_ && _).
    - destruct (GetCurrentPadding_hr (dev p) <? 0); [simpl; lia|].
      destruct (to_uint32 _ =? 0); [destruct running; simpl; lia|].
      destruct (GetBuffer_hr (dev p) <? 0); [simpl; lia|].
      destruct (feed _ _ _ _ _ _) as [[out position]|]; [|done].
      destruct (ReleaseBuffer_hr (dev p) <? 0), running; simpl; lia.
    - destruct running; simpl; lia. }
  destruct (thread_iter buffer_frames bytes_per_frame p t) as [t'|t'|t'|];
    [|lia|lia|done].
  specialize (IH t').
  destruct (audio_thread_loop _ _ passes t'); try done; lia.
Qed.

(** X21.  With no message in the buffer the thread is inside
    [read_message] and stays there until the GUI thread sends one: it
    makes no call to a device meanwhile, so a WASAPI stream that is
    playing gets no data. *)
Theorem thread_waits_for_a_message (buffer_frames bytes_per_frame : Z)
    (p : pass) (passes : list pass) (t : thread) :
  count (message_buffer (app t)) = 0 ->
  saw_thread_should_exit p = 0 ->
  Forall (fun w => forall b, count b = 0 -> count (w b) = 0) (wakes p) ->
  audio_thread_loop buffer_frames bytes_per_frame (p :: passes) t = Waiting t.
Proof.
  intros Hempty Hflag Hwakes. simpl. unfold thread_iter.
  rewrite Hflag. simpl. unfold read_message.
  rewrite wait_while_stuck; [done| |by apply Z.eqb_eq].
  eapply Forall_impl; [exact Hwakes|]. simpl.
  intros w Hw b Hb%Z.eqb_eq. apply Z.eqb_eq. by apply Hw.
Qed.

Lemma thread_waits_for_a_message_witness :
  count (message_buffer (app wasapi_thread)) = 0
  /\ saw_thread_should_exit calm = 0
  /\ Forall (fun w : CircularBuffer -> CircularBuffer =>
               forall b, count b = 0 -> count (w b) = 0) (wakes calm)
  /\ audio_thread_loop 8 4 [calm; calm] wasapi_thread = Waiting wasapi_thread.
Proof.
  assert (H1 : count (message_buffer (app wasapi_thread)) = 0) by reflexivity.
  assert (H2 : saw_thread_should_exit calm = 0) by reflexivity.
  assert (H3 : Forall (fun w : CircularBuffer -> CircularBuffer =>
                         forall b, count b = 0 -> count (w b) = 0) (wakes calm))
    by apply Forall_nil_2.
  split; [exact H1|]. split; [exact H2|]. split; [exact H3|].
  exact (thread_waits_for_a_message 8 4 calm [calm] wasapi_thread H1 H2 H3).
Defined.

Lemma same_flags_handle (d : device) (type : MessageType) (t1 t2 : thread) :
  same_flags t1 t2 -> same_flags (handle d type t1) (handle d type t2).
Proof.
  intros (Hp & Hi & Ha & Hc).
  destruct t1 as [[p1 i1 a1 c1 ad1 as1 q1] pos1 cs1 h1].
  destruct t2 as [[p2 i2 a2 c2 ad2 as2 q2] pos2 cs2 h2].
  simpl in *. subst.
  destruct type; simpl; [| |done];
    unfold start_audio, stop_audio, set_audio_playing, call; simpl;
    destruct (i2 =? 0), (p2 =? 0); simpl; try done;
    destruct a2; simpl; try done;
    try (destruct c2; simpl; try done);
    try (destruct (Start_hr d <? 0); simpl; done);
    destruct (header_prepared d); simpl; try done;
    destruct (Prepare_result d =? 0); simpl; try done;
    destruct (Write_result d =? 0); simpl; done.
Qed.

Lemma same_flags_serve (types : list MessageType) :
  forall (passes : list pass) (u1 u2 : thread),
    same_flags u1 u2 ->
    same_flags (serve passes types u1) (serve passes types u2).
Proof.
  induction types as [|type types IH]; intros [|p passes] u1 u2 Hsame;
    simpl; try done.
  by apply IH, same_flags_handle.
Qed.

Lemma same_flags_trans (t1 t2 t3 : thread) :
  same_flags t1 t2 -> same_flags t2 t3 -> same_flags t1 t3.
Proof.
  intros (? & ? & ? & ?) (? & ? & ? & ?). unfold same_flags.
  repeat split; congruence.
Qed.

(** A pass of the thread on another interface than WASAPI: it takes the
    oldest message, handles it and sleeps. *)
Lemma thread_iter_other_api (buffer_frames bytes_per_frame : Z) (p : pass)
    (t : thread) :
  queue_inv (message_buffer (app t)) ->
  0 < count (message_buffer (app t)) ->
  audio_api (app t) <> AUDIO_API_WASAPI ->
  saw_thread_should_exit p = 0 ->
  exists msg,
    pending (message_buffer (app t))
    = msg :: pending (fetched (message_buffer (app t)))
    /\ thread_iter buffer_frames bytes_per_frame p t
       = let t' := call [Sleep 10]
                     (handle (dev p) (type msg)
                        (taken (fetched (message_buffer (app t))) t)) in
         match type msg with MSG_EXIT => Leave t' | _ => Again t' end.
Proof.
  intros Hinv Hsome Hapi Hflag.
  destruct (read_message_some (message_buffer (app t)) (wakes p) Hinv Hsome)
    as (msg & Hread & _ & Hpend).
  exists msg. split; [done|].
  unfold thread_iter. rewrite Hflag, Hread. simpl negb. cbv iota.
  set (t1 := taken (fetched (message_buffer (app t))) t).
  assert (Hapi1 : is_wasapi (audio_api (app t1)) = false).
  { simpl. by destruct (audio_api (app t)). }
  destruct (type msg); cbn [handle].
  - destruct (start_audio_frame (dev p) t1) as (_ & _ & _ & _ & ->).
    by rewrite Hapi1.
  - destruct (stop_audio_frame (dev p) t1) as (_ & _ & _ & _ & ->).
    by rewrite Hapi1.
  - by rewrite Hapi1.
Qed.

(** X22.  On another interface than WASAPI, and as long as it does not
    see [thread_should_exit] set, the thread takes one message in each
    pass, in the order they were sent, and handles it with
    [start_audio] or [stop_audio]; with [MSG_EXIT] it leaves the loop.
    The messages behind [MSG_EXIT] stay in the buffer, no buffer is
    handed to a device, and the audio flags are those that handling
    the messages one after the other gives. *)
Theorem thread_handles_messages_up_to_exit (buffer_frames bytes_per_frame : Z)
    (types : list MessageType) :
  forall (passes : list pass) (t : thread) (rest : list Message),
    queue_inv (message_buffer (app t)) ->
    audio_api (app t) <> AUDIO_API_WASAPI ->
    pending (message_buffer (app t))
    = map mkMessage types ++ (mkMessage MSG_EXIT :: rest) ->
    ~ elem_of MSG_EXIT types ->
    Forall (fun p => saw_thread_should_exit p = 0) passes ->
    (length types < length passes)%nat ->
    exists t',
      audio_thread_loop buffer_frames bytes_per_frame passes t = Left t'
      /\ queue_inv (message_buffer (app t'))
      /\ pending (message_buffer (app t')) = rest
      /\ handled t' = (handled t + length types + 1)%nat
      /\ released (calls t') = released (calls t)
      /\ same_flags t' (serve passes types t).
Proof.
  induction types as [|ty types IH];
    intros passes t rest Hinv Hapi Hpend Hno Hflags Hlen;
    destruct Hflags as [|p passes Hflag Hflags]; simpl in Hlen; try lia.
  - assert (Hsome : 0 < count (message_buffer (app t))).
    { pose proof (length_pending _ Hinv) as Hl. rewrite Hpend in Hl.
      simpl in Hl. lia. }
    destruct (thread_iter_other_api buffer_frames bytes_per_frame p t
                Hinv Hsome Hapi Hflag) as (msg & Hpend' & Hstep).
    destruct (read_message_some (message_buffer (app t)) [] Hinv Hsome)
      as (_ & _ & Hinv' & _).
    rewrite Hpend in Hpend'. simpl in Hpend'. injection Hpend' as <- Hrest.
    simpl in Hstep. simpl. rewrite Hstep.
    eexists. split; [reflexivity|]. simpl.
    split; [done|]. split; [done|]. split; [lia|].
    split; [by rewrite released_app, app_nil_r|done].
  - assert (Hsome : 0 < count (message_buffer (app t))).
    { pose proof (length_pending _ Hinv) as Hl. rewrite Hpend in Hl.
      simpl in Hl. lia. }
    destruct (thread_iter_other_api buffer_frames bytes_per_frame p t
                Hinv Hsome Hapi Hflag) as (msg & Hpend' & Hstep).
    destruct (read_message_some (message_buffer (app t)) [] Hinv Hsome)
      as (_ & _ & Hinv' & _).
    rewrite Hpend in Hpend'. simpl in Hpend'. injection Hpend' as <- Hrest.
    apply not_elem_of_cons in Hno as [Hne Hno].
    cbn [type] in Hstep.
    set (t1 := call [Sleep 10]
                 (handle (dev p) ty
                    (taken (fetched (message_buffer (app t))) t))) in *.
    assert (Hstep' : thread_iter buffer_frames bytes_per_frame p t = Again t1)
      by (by destruct ty).
    pose proof (handle_frame (dev p) ty
                  (taken (fetched (message_buffer (app t))) t))
      as (Hrel & Hhan & _ & Hq & Hapi').
    destruct (IH passes t1 rest) as (t' & Hloop & Hinv'' & Hp'' & Hh'' & Hr'' & Hf'');
      try done.
    + unfold t1. simpl. by rewrite Hq.
    + unfold t1. simpl. by rewrite Hapi'.
    + unfold t1. simpl. by rewrite Hq.
    + lia.
    + cbn [audio_thread_loop]. rewrite Hstep'.
      exists t'. split; [done|]. split; [done|]. split; [done|].
      split; [|split].
      * rewrite Hh''. unfold t1. simpl. rewrite Hhan. simpl. lia.
      * rewrite Hr''. unfold t1. simpl.
        by rewrite released_app, app_nil_r, Hrel.
      * cbn [serve].
        apply (same_flags_trans _ _ _ Hf'').
        apply same_flags_serve. unfold t1.
        apply (same_flags_trans _
                 (handle (dev p) ty
                    (taken (fetched (message_buffer (app t))) t))); [done|].
        by apply same_flags_handle.
Qed.

Lemma winmm_thread_inv : queue_inv (message_buffer (app winmm_thread)).
Proof. unfold queue_inv; simpl; repeat split; first [lia | reflexivity | evaluate]. Qed.

Lemma no_exit_before : ~ elem_of MSG_EXIT [MSG_START_AUDIO; MSG_STOP_AUDIO].
Proof.
  rewrite !not_elem_of_cons. repeat split; try done. apply not_elem_of_nil.
Qed.

Lemma calm_passes : Forall (fun p => saw_thread_should_exit p = 0) [calm; calm; calm].
Proof. repeat (apply Forall_cons_2; [reflexivity|]). apply Forall_nil_2. Qed.

Lemma thread_handles_messages_up_to_exit_witness :
  queue_inv (message_buffer (app winmm_thread))
  /\ audio_api (app winmm_thread) <> AUDIO_API_WASAPI
  /\ pending (message_buffer (app winmm_thread))
     = map mkMessage [MSG_START_AUDIO; MSG_STOP_AUDIO] ++ [mkMessage MSG_EXIT]
  /\ ~ elem_of MSG_EXIT [MSG_START_AUDIO; MSG_STOP_AUDIO]
  /\ Forall (fun p => saw_thread_should_exit p = 0) [calm; calm; calm]
  /\ (length [MSG_START_AUDIO; MSG_STOP_AUDIO] < length [calm; calm; calm])%nat
  /\ exists t',
       audio_thread_loop 8 4 [calm; calm; calm] winmm_thread = Left t'
       /\ queue_inv (message_buffer (app t'))
       /\ pending (message_buffer (app t')) = []
       /\ handled t'
          = (handled winmm_thread + length [MSG_START_AUDIO; MSG_STOP_AUDIO] + 1)%nat
       /\ released (calls t') = released (calls winmm_thread)
       /\ same_flags t'
            (serve [calm; calm; calm] [MSG_START_AUDIO; MSG_STOP_AUDIO]
               winmm_thread).
Proof.
  assert (H1 : audio_api (app winmm_thread) <> AUDIO_API_WASAPI) by discriminate.
  assert (H2 : pending (message_buffer (app winmm_thread))
               = map mkMessage [MSG_START_AUDIO; MSG_STOP_AUDIO]
                 ++ [mkMessage MSG_EXIT]) by reflexivity.
  assert (H3 : (length [MSG_START_AUDIO; MSG_STOP_AUDIO]
                < length [calm; calm; calm])%nat) by (simpl; lia).
  split; [exact winmm_thread_inv|]. split; [exact H1|]. split; [exact H2|].
  split; [exact no_exit_before|]. split; [exact calm_passes|].
  split; [exact H3|].
  exact (thread_handles_messages_up_to_exit 8 4
           [MSG_START_AUDIO; MSG_STOP_AUDIO] [calm; calm; calm] winmm_thread []
           winmm_thread_inv H1 H2 no_exit_before calm_passes H3).
Defined.

End Thread.

(* ================================================================= *)
(** * The ALSA playback thread *)

Lemma to_int_range (x : Z) : - 2 ^ 31 <= x <= INT_MAX -> to_int x = x.
Proof.
  unfold to_int, INT_MAX. intros H.
  rewrite Z.mod_small by lia. lia.
Qed.

Lemma hungry_polite (a : pcm) : hungry a -> polite a.
Proof. intros H n Hn. specialize (H n Hn). lia. Qed.

Lemma alsa_write_iter_keeps (buffer : list byte) (frames_read : Z) (a : pcm)
    (s : pcm_state) :
  0 <= frames_read <= INT_MAX ->
  frames_read * CHANNELS * sizeof_int16_t <= len buffer ->
  polite a ->
  0 <= frames_written s <= frames_read ->
  accepted s = sub buffer 0 (frames_written s * CHANNELS * sizeof_int16_t) ->
  offers_inside frames_read s ->
  match alsa_write_iter buffer frames_read a s with
  | Continue s' | Exit s' =>
      0 <= frames_written s' <= frames_read
      /\ accepted s' = sub buffer 0 (frames_written s' * CHANNELS * sizeof_int16_t)
      /\ offers_inside frames_read s'
  | Crash => False
  end.
Proof.
  unfold CHANNELS, sizeof_int16_t, offers_inside.
  intros Hfr Hbuf Hpolite Hfw Hacc Hoff.
  unfold alsa_write_iter, CHANNELS, sizeof_int16_t.
  destruct (Z.ltb_spec (frames_written s) frames_read) as [Hlt|Hge];
    simpl; [|done].
  specialize (Hpolite (frames_read - frames_written s) ltac:(lia)).
  rewrite (to_int_range (snd_pcm_writei a _)) by lia.
  assert (Hoff' : Forall (fun '(first, count) =>
                            0 <= first /\ 0 < count
                            /\ first + count <= frames_read)
                    (offered s
                     ++ [(frames_written s, frames_read - frames_written s)])).
  { apply Forall_app. split; [done|].
    apply Forall_cons_2; [lia|apply Forall_nil_2]. }
  destruct (Z.ltb_spec (snd_pcm_writei a (frames_read - frames_written s)) 0).
  - destruct (to_int (snd_pcm_recover a) <? 0); simpl; done.
  - simpl. rewrite to_int_range by (unfold INT_MAX in *; lia).
    split; [lia|]. split; [|done].
    rewrite Hacc.
    replace ((frames_written s
              + snd_pcm_writei a (frames_read - frames_written s)) * 2 * 2)
      with (frames_written s * 2 * 2
            + snd_pcm_writei a (frames_read - frames_written s) * 2 * 2) by lia.
    symmetry. apply sub_split; lia.
Qed.

Lemma alsa_write_loop_keeps (buffer : list byte) (frames_read : Z)
    (answers : list pcm) :
  0 <= frames_read <= INT_MAX ->
  frames_read * CHANNELS * sizeof_int16_t <= len buffer ->
  Forall polite answers ->
  forall s,
    0 <= frames_written s <= frames_read ->
    accepted s = sub buffer 0 (frames_written s * CHANNELS * sizeof_int16_t) ->
    offers_inside frames_read s ->
    match alsa_write_loop buffer frames_read answers s with
    | Finished s' | Running s' =>
        0 <= frames_written s' <= frames_read
        /\ accepted s'
           = sub buffer 0 (frames_written s' * CHANNELS * sizeof_int16_t)
        /\ offers_inside frames_read s'
    | Undefined => False
    end.
Proof.
  intros Hfr Hbuf Hanswers.
  induction Hanswers as [|a answers Ha _ IH]; intros s Hfw Hacc Hoff; [done|].
  cbn [alsa_write_loop].
  pose proof (alsa_write_iter_keeps buffer frames_read a s Hfr Hbuf Ha Hfw
                Hacc Hoff) as Hstep.
  destruct (alsa_write_iter buffer frames_read a s) as [s'|s'|]; [|done|done].
  destruct Hstep as (Hfw' & Hacc' & Hoff'). by apply IH.
Qed.

Lemma alsa_write_loop_ends (buffer : list byte) (frames_read : Z)
    (answers : list pcm) :
  0 <= frames_read <= INT_MAX ->
  Forall hungry answers ->
  forall s,
    0 <= frames_written s <= frames_read ->
    frames_read - frames_written s < Z.of_nat (length answers) ->
    exists s', alsa_write_loop buffer frames_read answers s = Finished s'
               /\ frames_written s' = frames_read.
Proof.
  intros Hfr Hanswers.
  induction Hanswers as [|a answers Ha _ IH]; intros s Hfw Hlen;
    [simpl in Hlen; lia|].
  rewrite length_cons in Hlen. cbn [alsa_write_loop]. unfold alsa_write_iter.
  destruct (Z.ltb_spec (frames_written s) frames_read); simpl;
    [|exists s; split; [done|lia]].
  specialize (Ha (frames_read - frames_written s) ltac:(lia)).
  rewrite (to_int_range (snd_pcm_writei a _)) by (unfold INT_MAX in *; lia).
  destruct (Z.ltb_spec (snd_pcm_writei a (frames_read - frames_written s)) 0);
    [lia|].
  apply IH; simpl; rewrite to_int_range by (unfold INT_MAX in *; lia); lia.
Qed.

(** X23.  The inner loop of [alsa_playback_thread], with a device that
    takes no more frames than it is offered, offers only frames of the
    buffer it has read, and hands them over in order, each once,
    however the device splits them and however often an underrun is
    recovered: what the device has taken is the first [frames_written]
    frames.  With a device that takes at least one frame of every offer
    the loop ends with all [frames_read] frames handed over. *)
Theorem alsa_hands_over_frames_in_order (buffer : list byte) (frames_read : Z)
    (answers : list pcm) :
  0 <= frames_read <= INT_MAX ->
  frames_read * CHANNELS * sizeof_int16_t <= len buffer ->
  Forall polite answers ->
  match alsa_write_loop buffer frames_read answers (mkPcmState 0 [] []) with
  | Finished s | Running s =>
      0 <= frames_written s <= frames_read
      /\ accepted s = sub buffer 0 (frames_written s * CHANNELS * sizeof_int16_t)
      /\ offers_inside frames_read s
  | Undefined => False
  end
  /\ (Forall hungry answers -> frames_read < Z.of_nat (length answers) ->
      exists s,
        alsa_write_loop buffer frames_read answers (mkPcmState 0 [] [])
        = Finished s
        /\ accepted s = sub buffer 0 (frames_read * CHANNELS * sizeof_int16_t)).
Proof.
  intros Hfr Hbuf Hanswers.
  pose proof (alsa_write_loop_keeps buffer frames_read answers Hfr Hbuf Hanswers
                (mkPcmState 0 [] []) ltac:(simpl; lia) ltac:(by simpl)
                ltac:(apply Forall_nil_2)) as Hsafe.
  split; [exact Hsafe|].
  intros Hhungry Hlen.
  destruct (alsa_write_loop_ends buffer frames_read answers Hfr Hhungry
              (mkPcmState 0 [] []) ltac:(simpl; lia) ltac:(simpl; lia))
    as (s & Hrun & Hall).
  exists s. split; [done|].
  rewrite Hrun in Hsafe. destruct Hsafe as (_ & -> & _). by rewrite Hall.
Qed.

Lemma halves_hungry : hungry halves.
Proof. intros n Hn. simpl. dlia. Qed.

Lemma underrun_polite : polite underrun.
Proof. intros n Hn. simpl. lia. Qed.

Lemma mixed_answers_polite : Forall polite [halves; underrun; halves; halves].
Proof.
  apply Forall_cons_2; [apply hungry_polite, halves_hungry|].
  apply Forall_cons_2; [apply underrun_polite|].
  repeat (apply Forall_cons_2; [apply hungry_polite, halves_hungry|]).
  apply Forall_nil_2.
Qed.

Lemma alsa_hands_over_frames_in_order_witness :
  0 <= 3 <= INT_MAX
  /\ 3 * CHANNELS * sizeof_int16_t <= len clip12
  /\ Forall polite [halves; underrun; halves; halves]
  /\ match alsa_write_loop clip12 3 [halves; underrun; halves; halves]
             (mkPcmState 0 [] []) with
     | Finished s | Running s =>
         0 <= frames_written s <= 3
         /\ accepted s
            = sub clip12 0 (frames_written s * CHANNELS * sizeof_int16_t)
         /\ offers_inside 3 s
     | Undefined => False
     end
  /\ (Forall hungry [halves; underrun; halves; halves] ->
      3 < Z.of_nat (length [halves; underrun; halves; halves]) ->
      exists s,
        alsa_write_loop clip12 3 [halves; underrun; halves; halves]
          (mkPcmState 0 [] [])
        = Finished s
        /\ accepted s = sub clip12 0 (3 * CHANNELS * sizeof_int16_t)).
Proof.
  assert (H1 : 0 <= 3 <= INT_MAX) by evaluate.
  assert (H2 : 3 * CHANNELS * sizeof_int16_t <= len clip12) by evaluate.
  split; [exact H1|]. split; [exact H2|]. split; [exact mixed_answers_polite|].
  exact (alsa_hands_over_frames_in_order clip12 3 [halves; underrun; halves; halves]
           H1 H2 mixed_answers_polite).
Defined.

(** X24.  One pass of [alsa_playback_thread] that finds 4096 bytes or
    more in the buffer, with a device that takes at least one frame of
    every offer: the device gets the 4096 oldest bytes of the buffer,
    in order, and they are gone from the buffer, which keeps the
    rest. *)
Theorem alsa_pass_plays_the_oldest_bytes (BUFFER_SIZE : Z) (b : CircularBuffer)
    (stack : list byte) (env : list Obs) (answers : list pcm) :
  0 < BUFFER_SIZE <= INT_MAX ->
  buf_inv BUFFER_SIZE b ->
  4096 <= size b -> 4096 <= len stack ->
  alive env = true ->
  Forall hungry answers -> 1024 < Z.of_nat (length answers) ->
  exists b' s,
    alsa_playback_pass BUFFER_SIZE b stack env answers = Finished (b', s)
    /\ buf_inv BUFFER_SIZE b'
    /\ accepted s = sub (contents b) 0 4096
    /\ contents b = accepted s ++ contents b'.
Proof.
  intros Hcap Hinv Hsize Hstack Halive Hhungry Hlen.
  unfold alsa_playback_pass, period_size, CHANNELS, sizeof_int16_t.
  change (to_size_t (1024 * 2 * 2)) with 4096.
  destruct (read_loop_no_wait BUFFER_SIZE Hcap b stack 4096 env)
    as (b' & tr & Hread & Hinv' & _ & Hcont); try done; try lia.
  unfold read_from_buffer. rewrite Hread. cbn [bytes_read r_buffer r_data].
  change (to_int (to_size_t (to_int 4096) / (2 * 2))) with 1024.
  change (0 <? 1024) with true. cbv iota.
  pose proof (len_contents BUFFER_SIZE b Hinv) as Hlc.
  assert (Hchunk : len (sub (contents b) 0 4096) = 4096)
    by (apply len_sub; lia).
  assert (Hfr : 0 <= 1024 <= INT_MAX) by (unfold INT_MAX; lia).
  assert (Hbuf : 1024 * CHANNELS * sizeof_int16_t
                 <= len (blit stack 0 (sub (contents b) 0 4096))).
  { unfold CHANNELS, sizeof_int16_t. rewrite len_blit; lia. }
  assert (Hpolite : Forall polite answers)
    by (eapply Forall_impl; [exact Hhungry|apply hungry_polite]).
  pose proof (alsa_write_loop_keeps _ 1024 answers Hfr Hbuf Hpolite
                (mkPcmState 0 [] []) ltac:(simpl; lia) ltac:(by simpl)
                ltac:(apply Forall_nil_2)) as Hsafe.
  destruct (alsa_write_loop_ends (blit stack 0 (sub (contents b) 0 4096)) 1024
              answers Hfr Hhungry (mkPcmState 0 [] []) ltac:(simpl; lia)
              ltac:(simpl; lia)) as (s & Hrun & Hall).
  rewrite Hrun in *. destruct Hsafe as (_ & Hacc & _).
  exists b', s. split; [done|]. split; [done|].
  assert (Hplayed : accepted s = sub (contents b) 0 4096).
  { rewrite Hacc, Hall. unfold CHANNELS, sizeof_int16_t.
    change (1024 * 2 * 2) with 4096. apply sub_blit_same; [done|lia]. }
  split; [done|]. by rewrite Hplayed.
Qed.

Lemma filled_inv : buf_inv A9_BUFFER_SIZE (filled 5000).
Proof.
  unfold buf_inv, filled, A9_BUFFER_SIZE. cbn [data size read_pos write_pos].
  rewrite len_replicate by lia.
  repeat split; first [lia | reflexivity | (vm_compute; discriminate)].
Qed.

Lemma hungry_answers (n : nat) : Forall hungry (replicate n halves).
Proof. apply Forall_replicate, halves_hungry. Qed.

Lemma alsa_pass_plays_the_oldest_bytes_witness :
  0 < A9_BUFFER_SIZE <= INT_MAX
  /\ buf_inv A9_BUFFER_SIZE (filled 5000)
  /\ 4096 <= size (filled 5000)
  /\ 4096 <= len (garbage 4096)
  /\ alive [playing; playing] = true
  /\ Forall hungry (replicate 1025 halves)
  /\ 1024 < Z.of_nat (length (replicate 1025 halves))
  /\ exists b' s,
       alsa_playback_pass A9_BUFFER_SIZE (filled 5000) (garbage 4096)
         [playing; playing] (replicate 1025 halves)
       = Finished (b', s)
       /\ buf_inv A9_BUFFER_SIZE b'
       /\ accepted s = sub (contents (filled 5000)) 0 4096
       /\ contents (filled 5000) = accepted s ++ contents b'.
Proof.
  assert (H1 : 0 < A9_BUFFER_SIZE <= INT_MAX) by evaluate.
  assert (H2 : 4096 <= size (filled 5000)) by evaluate.
  assert (H3 : 4096 <= len (garbage 4096)) by evaluate.
  assert (H4 : alive [playing; playing] = true) by reflexivity.
  assert (H5 : 1024 < Z.of_nat (length (replicate 1025 halves)))
    by (vm_compute; reflexivity).
  split; [exact H1|]. split; [exact filled_inv|]. split; [exact H2|].
  split; [exact H3|]. split; [exact H4|]. split; [exact (hungry_answers 1025)|].
  split; [exact H5|].
  exact (alsa_pass_plays_the_oldest_bytes A9_BUFFER_SIZE (filled 5000)
           (garbage 4096) [playing; playing] (replicate 1025 halves)
           H1 filled_inv H2 H3 H4 (hungry_answers 1025) H5).
Defined.

(* ================================================================= *)
(** * A GUI thread without its audio thread *)

Section Unanswered.
Import Messages MessagePassing.

Lemma sends_fill (types : list MessageType) :
  forall t : exchange_state,
    queue_inv (queue t) ->
    count (queue t) + Z.of_nat (length types) <= size (queue t) ->
    exists t',
      exchange (map Send types) t = Returned t'
      /\ queue_inv (queue t')
      /\ size (queue t') = size (queue t)
      /\ pending (queue t') = pending (queue t) ++ map mkMessage types.
Proof.
  induction types as [|ty types IH]; intros t Hinv Hroom; simpl in *.
  - exists t. by rewrite app_nil_r.
  - destruct (write_message_room (queue t) (mkMessage ty) [] Hinv ltac:(lia))
      as (Hcall & Hinv' & Hpend).
    unfold send_message. rewrite Hcall.
    destruct (IH (mkExchange (stored (queue t) (mkMessage ty))
                    (sent t ++ [mkMessage ty]) (received t)))
      as (t' & Hrun & Hinv'' & Hsize & Hpend'); simpl; [done|lia|].
    exists t'. split; [done|]. split; [done|]. split; [done|].
    simpl in Hpend'. by rewrite Hpend', Hpend, <- app_assoc.
Qed.

(** X25.  When the audio thread no longer takes messages, the GUI
    thread gets as many messages into the buffer as
    [create_circular_buffer] gave it cells, and its next
    [send_message] does not return. *)
Theorem gui_thread_blocks_on_a_full_buffer (heap : allocator) (n : Z)
    (b : CircularBuffer) (types : list MessageType) (type : MessageType)
    (wakes : list (CircularBuffer -> CircularBuffer)) :
  create_circular_buffer heap n = Some b ->
  Z.of_nat (length (buffer b)) = n -> 0 < n <= INT_MAX ->
  Z.of_nat (length types) = n ->
  Forall (fun w => forall b', count b' = size b' -> count (w b') = size (w b'))
    wakes ->
  exists t,
    exchange (map Send types) (mkExchange b [] []) = Returned t
    /\ pending (queue t) = map mkMessage types
    /\ send_message (queue t) type wakes = Blocked.
Proof.
  intros Hc Hlen Hn Htypes Hwakes.
  destruct (create_circular_buffer_inv heap n b Hc Hlen Hn)
    as (Hinv & Hcount & Hsize & Hpend).
  destruct (sends_fill types (mkExchange b [] []) Hinv)
    as (t & Hrun & Hinv' & Hsize' & Hpend'); [simpl; lia|].
  simpl in *. rewrite Hpend in Hpend'. simpl in Hpend'.
  exists t. split; [done|]. split; [done|].
  assert (Hfull : count (queue t) = size (queue t)).
  { rewrite <- (length_pending _ Hinv'), Hpend', length_map. lia. }
  unfold send_message, write_message.
  rewrite wait_while_stuck; [done| |by apply Z.eqb_eq].
  eapply Forall_impl; [exact Hwakes|]. simpl.
  intros w Hw b' Hb'%Z.eqb_eq. apply Z.eqb_eq. by apply Hw.
Qed.

Lemma no_reader :
  Forall (fun w : CircularBuffer -> CircularBuffer =>
            forall b', count b' = size b' -> count (w b') = size (w b'))
    [id; id].
Proof. repeat (apply Forall_cons_2; [done|]). apply Forall_nil_2. Qed.

Lemma gui_thread_blocks_on_a_full_buffer_witness :
  create_circular_buffer generous BUFFER_SIZE = Some fresh10
  /\ Z.of_nat (length (buffer fresh10)) = BUFFER_SIZE
  /\ 0 < BUFFER_SIZE <= INT_MAX
  /\ Z.of_nat (length (replicate 10 MSG_START_AUDIO)) = BUFFER_SIZE
  /\ Forall (fun w : CircularBuffer -> CircularBuffer =>
               forall b', count b' = size b' -> count (w b') = size (w b'))
       [id; id]
  /\ exists t,
       exchange (map Send (replicate 10 MSG_START_AUDIO))
         (mkExchange fresh10 [] []) = Returned t
       /\ pending (queue t) = map mkMessage (replicate 10 MSG_START_AUDIO)
       /\ send_message (queue t) MSG_STOP_AUDIO [id; id] = Blocked.
Proof.
  assert (H1 : create_circular_buffer generous BUFFER_SIZE = Some fresh10)
    by (vm_compute; reflexivity).
  assert (H2 : Z.of_nat (length (buffer fresh10)) = BUFFER_SIZE)
    by (vm_compute; reflexivity).
  assert (H3 : 0 < BUFFER_SIZE <= INT_MAX) by evaluate.
  assert (H4 : Z.of_nat (length (replicate 10 MSG_START_AUDIO)) = BUFFER_SIZE)
    by (vm_compute; reflexivity).
  split; [exact H1|]. split; [exact H2|]. split; [exact H3|]. split; [exact H4|].
  split; [exact no_reader|].
  exact (gui_thread_blocks_on_a_full_buffer generous BUFFER_SIZE fresh10
           (replicate 10 MSG_START_AUDIO) MSG_STOP_AUDIO [id; id]
           H1 H2 H3 H4 no_reader).
Defined.

End Unanswered.

(* ================================================================= *)
(** * The reader and the producer *)

Lemma sub_blit_below (l bs : list byte) (off a k : Z) :
  0 <= a -> 0 <= k -> a + k <= off -> off + len bs <= len l ->
  sub (blit l off bs) a k = sub l a k.
Proof.
  intros Ha Hk Hoff Hfit. pose proof (len_nonneg bs).
  apply nthz_ext. intros i. lookups. simpl.
  split_tests; done.
Qed.

Lemma sub_blit_at (l bs : list byte) (off : Z) :
  0 <= off -> off + len bs <= len l ->
  sub (blit l off bs) off (len bs) = bs.
Proof.
  intros Hoff Hfit. pose proof (len_nonneg bs).
  apply nthz_ext. intros i. lookups. simpl.
  split_tests; try done; try (f_equal; lia).
  all: symmetry; apply nthz_None; lia.
Qed.

Lemma sub_join (l : list byte) (a x y : Z) :
  0 <= a -> 0 <= x -> 0 <= y -> a + x + y <= len l ->
  sub l a x ++ sub l (a + x) y = sub l a (x + y).
Proof.
  intros Ha Hx Hy Hl. apply nthz_ext. intros i.
  rewrite nthz_app, len_sub by lia. lookups. simpl.
  split_tests; try done; f_equal; lia.
Qed.

Lemma copied_out_app (tr tr' : list mem_event) (d : list byte) :
  copied_out (tr ++ tr') d = copied_out tr d ++ copied_out tr' d.
Proof. unfold copied_out. by rewrite map_app, concat_app. Qed.

Lemma copied_out_frame (tr : list mem_event) (d bs : list byte) (br off : Z) :
  Forall (below br) tr -> br <= off -> off + len bs <= len d ->
  copied_out tr (blit d off bs) = copied_out tr d.
Proof.
  intros Htr Hoff Hfit. unfold copied_out.
  induction Htr as [|ev tr Hev _ IH]; [done|].
  simpl. rewrite IH. f_equal.
  destruct ev as [| doff boff n |]; try done.
  simpl in Hev. apply sub_blit_below; lia.
Qed.

Lemma below_mono (br br' : Z) (tr : list mem_event) :
  br <= br' -> Forall (below br) tr -> Forall (below br') tr.
Proof.
  intros Hle Htr. eapply Forall_impl; [exact Htr|].
  intros [| doff boff n |]; simpl; try done. lia.
Qed.

(** Which passes of the reader see bytes come. *)
Lemma arrived_at_wait (nbytes : Z) (e : Obs) (s : read_state) :
  bytes_read s < nbytes -> obs_keep_running e <> 0 ->
  size (r_buffer s) = 0 ->
  obs_keep_running_inner e <> 0 -> obs_is_audio_playing e <> 0 ->
  arrived_at nbytes e s = appended (obs_wake e) (r_buffer s).
Proof.
  intros Hlt Hkr Hempty Hin Hplay. unfold arrived_at, read_waits.
  rewrite Hempty.
  destruct (Z.ltb_spec (bytes_read s) nbytes); [|lia].
  destruct (Z.eqb_spec (obs_keep_running e) 0); [done|].
  destruct (Z.eqb_spec (obs_keep_running_inner e) 0); [done|].
  by destruct (Z.eqb_spec (obs_is_audio_playing e) 0).
Qed.

Lemma arrived_at_none (nbytes : Z) (e : Obs) (s : read_state) :
  nbytes <= bytes_read s \/ obs_keep_running e = 0 \/ size (r_buffer s) <> 0
  \/ obs_keep_running_inner e = 0 \/ obs_is_audio_playing e = 0 ->
  arrived_at nbytes e s = [].
Proof.
  intros H. unfold arrived_at, read_waits.
  destruct (Z.ltb_spec (bytes_read s) nbytes); [|done].
  destruct (Z.eqb_spec (obs_keep_running e) 0); [done|].
  destruct (Z.eqb_spec (size (r_buffer s)) 0); [|done].
  destruct (Z.eqb_spec (obs_keep_running_inner e) 0); [done|].
  destruct (Z.eqb_spec (obs_is_audio_playing e) 0); [done|lia].
Qed.

(** X26.  With [nbytes + nbytes / 10] bytes behind the destination, and
    whatever the producer puts in while it waits, [read_from_buffer]
    hands over the stream in order, each byte once: the bytes its
    [memcpy] calls have stored in the destination, in the order of the
    calls and followed by the bytes still buffered, are the bytes
    buffered at the start followed by the bytes the producer has put in
    during the waits.  What else it writes is the zero bytes of
    [memset], behind the bytes stored before. *)
Theorem read_hands_over_the_stream_between_silence (BUFFER_SIZE : Z)
    (b : CircularBuffer) (dst : list byte) (nbytes : Z) (env : list Obs) :
  0 < BUFFER_SIZE <= INT_MAX ->
  buf_inv BUFFER_SIZE b ->
  0 <= nbytes <= INT_MAX -> nbytes + nbytes / 10 <= len dst ->
  Forall (fun e => puts_in BUFFER_SIZE (obs_wake e)) env ->
  match read_loop BUFFER_SIZE b dst nbytes env with
  | Finished s | Running s =>
      buf_inv BUFFER_SIZE (r_buffer s)
      /\ Forall (below (bytes_read s)) (r_trace s)
      /\ copied_out (r_trace s) (r_data s) ++ contents (r_buffer s)
         = contents b ++ arrived_during BUFFER_SIZE b dst nbytes env
  | Undefined => False
  end.
Proof.
  intros Hcap Hinv Hn Hroom Henv.
  pose proof INT_MAX_le_SIZE_MAX as Hmax.
  assert (Hq : 0 <= nbytes / 10 <= nbytes) by dlia.
  unfold read_loop, arrived_during.
  assert (Hloop :
    match loop (read_iter BUFFER_SIZE nbytes) env (mkRead b dst 0 []) with
    | Finished s | Running s =>
        read_room BUFFER_SIZE nbytes (len dst) s
        /\ Forall (below (bytes_read s)) (r_trace s)
        /\ copied_out (r_trace s) (r_data s) ++ contents (r_buffer s)
           = contents b
             ++ ([] ++ during (read_iter BUFFER_SIZE nbytes) (arrived_at nbytes)
                         env (mkRead b dst 0 []))
    | Undefined => False
    end).
  { apply (loop_keeps_stream _ _
             (fun g s => read_room BUFFER_SIZE nbytes (len dst) s
                         /\ Forall (below (bytes_read s)) (r_trace s)
                         /\ copied_out (r_trace s) (r_data s)
                            ++ contents (r_buffer s)
                            = contents b ++ g)
             (fun e => puts_in BUFFER_SIZE (obs_wake e))); [|done|].
    - intros e s g Hput (Hrm & Hbelow & Heq).
      assert (Hwake : wake_ok BUFFER_SIZE e)
        by (intros b0 Hb0; by destruct (Hput b0 Hb0)).
      pose proof (read_iter_defined BUFFER_SIZE nbytes (len dst) e s Hcap
                    ltac:(lia) Hroom Hwake Hrm) as Hdef.
      destruct Hrm as ((Hbuf & Hbr & Htr) & Hle & Hlen).
      destruct (Z_lt_le_dec (bytes_read s) nbytes) as [Hlt|Hge];
        [|rewrite read_iter_exit in * by lia;
          by rewrite arrived_at_none, app_nil_r by lia].
      destruct (Z.eq_dec (obs_keep_running e) 0) as [Hkr|Hkr];
        [rewrite read_iter_exit in * by auto;
         by rewrite arrived_at_none, app_nil_r by auto|].
      pose proof Hbuf as (_ & Hs & _).
      pose proof (len_contents BUFFER_SIZE _ Hbuf) as Hlc.
      destruct (Z.eq_dec (size (r_buffer s)) 0) as [Hempty|Hsome].
      + destruct (Z.eq_dec (obs_keep_running_inner e) 0) as [Hin|Hin];
          [|destruct (Z.eq_dec (obs_is_audio_playing e) 0) as [Hplay|Hplay]].
        * rewrite read_iter_silence in * by (done || lia || auto).
          rewrite arrived_at_none, app_nil_r by auto.
          rewrite to_size_t_small in * by lia.
          rewrite memset0_ok in * by lia.
          split; [done|]. simpl. split.
          { apply Forall_app. split; [|by repeat constructor].
            eapply below_mono; [|exact Hbelow]. lia. }
          rewrite copied_out_app. simpl. rewrite app_nil_r.
          rewrite (copied_out_frame _ _ _ (bytes_read s));
            rewrite ?len_replicate; try done; lia.
        * rewrite read_iter_silence in * by (done || lia || auto).
          rewrite arrived_at_none, app_nil_r by auto 6.
          rewrite to_size_t_small in * by lia.
          rewrite memset0_ok in * by lia.
          split; [done|]. simpl. split.
          { apply Forall_app. split; [|by repeat constructor].
            eapply below_mono; [|exact Hbelow]. lia. }
          rewrite copied_out_app. simpl. rewrite app_nil_r.
          rewrite (copied_out_frame _ _ _ (bytes_read s));
            rewrite ?len_replicate; try done; lia.
        * rewrite read_iter_wait in * by done.
          rewrite arrived_at_wait by done.
          destruct (appended_puts_in _ _ _ Hput Hbuf) as (_ & Hmore).
          destruct (obs_timed_out e && (0 <? nbytes / 10)).
          -- rewrite memset0_ok in * by lia.
             split; [done|]. simpl.
             rewrite to_size_t_small by (unfold INT_MAX, SIZE_MAX in *; lia).
             split.
             { apply Forall_app. split; [|by repeat constructor].
               eapply below_mono; [|exact Hbelow]. lia. }
             rewrite copied_out_app. simpl. rewrite app_nil_r.
             rewrite (copied_out_frame _ _ _ (bytes_read s));
               rewrite ?len_replicate; try done; try lia.
             by rewrite Hmore, !app_assoc, Heq.
          -- split; [done|]. simpl. split; [done|].
             by rewrite Hmore, !app_assoc, Heq.
      + rewrite read_iter_copy in * by done.
        rewrite arrived_at_none, app_nil_r by auto.
        destruct (read_copy_fetch BUFFER_SIZE Hcap nbytes s)
          as (b' & Hpass & Hinv' & Hsize & _ & _ & Hcont); try done; try lia.
        rewrite Hpass in *.
        remember (Z.min (nbytes - bytes_read s) (size (r_buffer s))) as n eqn:Hn'.
        remember (sub (contents (r_buffer s)) 0 n) as chunk eqn:Hc.
        assert (Hchunk : len chunk = n) by (subst chunk; apply len_sub; lia).
        split; [done|]. simpl.
        pose proof Hbuf as (_ & _ & Hrp & _).
        assert (Hnew : copied_out
                         (if n <=? BUFFER_SIZE - read_pos (r_buffer s)
                          then [Memcpy_out (bytes_read s) (read_pos (r_buffer s)) n]
                          else [Memcpy_out (bytes_read s) (read_pos (r_buffer s))
                                  (BUFFER_SIZE - read_pos (r_buffer s));
                                Memcpy_out
                                  (bytes_read s
                                   + (BUFFER_SIZE - read_pos (r_buffer s))) 0
                                  (n - (BUFFER_SIZE - read_pos (r_buffer s)))])
                         (blit (r_data s) (bytes_read s) chunk)
                       = chunk).
        { assert (Hat : sub (blit (r_data s) (bytes_read s) chunk)
                          (bytes_read s) n = chunk)
            by (rewrite <- Hchunk; apply sub_blit_at; lia).
          destruct (Z.leb_spec n (BUFFER_SIZE - read_pos (r_buffer s)));
            unfold copied_out; simpl; rewrite app_nil_r; [done|].
          rewrite sub_join; rewrite ?len_blit; try lia.
          replace (BUFFER_SIZE - read_pos (r_buffer s)
                   + (n - (BUFFER_SIZE - read_pos (r_buffer s)))) with n by lia.
          exact Hat. }
        split.
        { apply Forall_app. split.
          - eapply below_mono; [|exact Hbelow]. lia.
          - destruct (Z.leb_spec n (BUFFER_SIZE - read_pos (r_buffer s)));
              repeat (apply Forall_cons_2; [simpl; lia|]); apply Forall_nil_2. }
        rewrite copied_out_app, Hnew.
        rewrite (copied_out_frame _ _ _ (bytes_read s)) by (done || lia).
        by rewrite <- app_assoc, <- Hcont, Heq.
    - split.
      + split; [split; [done|]|]; simpl.
        * unfold SIZE_MAX. split; [lia|constructor].
        * split; [lia|done].
      + simpl. split; [constructor|]. by rewrite app_nil_r. }
  destruct (loop _ env _); [| |done];
    destruct Hloop as (((? & _) & _) & ? & ?); done.
Qed.

Lemma late_producers_put_in (n : nat) :
  Forall (fun e => puts_in 16 (obs_wake e)) (replicate n late_producer10).
Proof.
  apply Forall_replicate. apply writer_puts_in. unfold INT_MAX. lia.
Qed.

Lemma read_hands_over_the_stream_between_silence_witness :
  0 < 16 <= INT_MAX
  /\ buf_inv 16 ahead16
  /\ 0 <= 25 <= INT_MAX
  /\ 25 + 25 / 10 <= len (garbage 28)
  /\ Forall (fun e => puts_in 16 (obs_wake e)) (replicate 6 late_producer10)
  /\ match read_loop 16 ahead16 (garbage 28) 25 (replicate 6 late_producer10) with
     | Finished s | Running s =>
         buf_inv 16 (r_buffer s)
         /\ Forall (below (bytes_read s)) (r_trace s)
         /\ copied_out (r_trace s) (r_data s) ++ contents (r_buffer s)
            = contents ahead16
              ++ arrived_during 16 ahead16 (garbage 28) 25
                   (replicate 6 late_producer10)
     | Undefined => False
     end.
Proof.
  assert (H1 : 0 <= 25 <= INT_MAX) by evaluate.
  assert (H2 : 25 + 25 / 10 <= len (garbage 28)) by evaluate.
  split; [exact capacity16|]. split; [exact ahead16_inv|].
  split; [exact H1|]. split; [exact H2|].
  split; [exact (late_producers_put_in 6)|].
  exact (read_hands_over_the_stream_between_silence 16 ahead16 (garbage 28) 25
           (replicate 6 late_producer10) capacity16 ahead16_inv H1 H2
           (late_producers_put_in 6)).
Defined.

(** That call, run: it waits twice, each wait runs into the timeout
    with the producer's 10 bytes in the buffer, and the 21 bytes its
    [memcpy] calls store are the 4 bytes buffered at the start and 17
    of those 20 bytes; 4 zero bytes lie between them. *)
Example read_with_two_late_waits :
  arrived_during 16 ahead16 (garbage 28) 25 (replicate 6 late_producer10)
  = ten_bytes ++ ten_bytes
  /\ exists s,
       read_loop 16 ahead16 (garbage 28) 25 (replicate 6 late_producer10)
       = Finished s
       /\ bytes_read s = 25
       /\ copied_out (r_trace s) (r_data s)
          = contents ahead16 ++ ten_bytes ++ sub ten_bytes 0 7
       /\ contents (r_buffer s) = sub ten_bytes 7 3.
Proof.
  split; [|eexists; split; [|split; [|split]]]; vm_compute; reflexivity.
Qed.

(* ================================================================= *)
(** * Ending the audio thread *)

Section Shutdown.
Import Messages MessagePassing AudioThread.

(** X27.  A thread that waits in [read_message] on an empty buffer is
    released by the [MSG_EXIT] that [cleanup_app] sends: it takes the
    message, leaves its loop (on another interface than WASAPI without
    a call to an audio device), and the buffer is empty again. *)
Theorem exit_message_ends_a_waiting_thread (buffer_frames bytes_per_frame : Z)
    (p : pass) (passes : list pass) (t : thread)
    (wakes' : list (CircularBuffer -> CircularBuffer)) :
  queue_inv (message_buffer (app t)) ->
  count (message_buffer (app t)) = 0 ->
  audio_api (app t) <> AUDIO_API_WASAPI ->
  saw_thread_should_exit p = 0 ->
  wakes p = sender MSG_EXIT :: wakes' ->
  exists t',
    audio_thread_loop buffer_frames bytes_per_frame (p :: passes) t = Left t'
    /\ calls t' = calls t ++ [Sleep 10]
    /\ handled t' = S (handled t)
    /\ same_flags t' t
    /\ queue_inv (message_buffer (app t'))
    /\ pending (message_buffer (app t')) = [].
Proof.
  intros Hinv Hempty Hapi Hflag Hwakes.
  pose proof Hinv as (_ & Hsz & _).
  destruct (write_message_room (message_buffer (app t)) (mkMessage MSG_EXIT) []
              Hinv ltac:(lia)) as (Hsend & Hinv1 & Hpend1).
  assert (Hnone : pending (message_buffer (app t)) = []).
  { apply length_zero_iff_nil.
    pose proof (length_pending _ Hinv). lia. }
  rewrite Hnone in Hpend1. simpl in Hpend1.
  set (q1 := stored (message_buffer (app t)) (mkMessage MSG_EXIT)) in *.
  destruct (read_message_some q1 wakes' Hinv1 ltac:(simpl; lia))
    as (msg & Hread & Hinv2 & Hpend2).
  rewrite Hpend1 in Hpend2. injection Hpend2 as <- Hrest.
  assert (Hcall : read_message (message_buffer (app t)) (wakes p)
                  = Returned (TRUE, mkMessage MSG_EXIT, fetched q1)).
  { rewrite Hwakes. unfold read_message in *. simpl.
    rewrite Hempty. simpl.
    unfold sender, send_message. rewrite Hsend. exact Hread. }
  simpl. unfold thread_iter. rewrite Hflag, Hcall. simpl.
  assert (Hother : is_wasapi (audio_api (app t)) = false)
    by (by destruct (audio_api (app t))).
  rewrite Hother. simpl.
  eexists. split; [reflexivity|]. simpl.
  split; [done|]. split; [done|]. split; [done|]. split; [done|].
  by symmetry.
Qed.

Lemma idle_thread_inv :
  queue_inv (message_buffer (app (mkThread
     (mkAppState 1 1 AUDIO_API_WINMM false clip12 12 fresh10) 0 [] 0))).
Proof. unfold queue_inv; simpl; repeat split; first [lia | reflexivity | evaluate]. Qed.

Lemma exit_message_ends_a_waiting_thread_witness :
  queue_inv (message_buffer (app (mkThread
     (mkAppState 1 1 AUDIO_API_WINMM false clip12 12 fresh10) 0 [] 0)))
  /\ count (message_buffer (app (mkThread
       (mkAppState 1 1 AUDIO_API_WINMM false clip12 12 fresh10) 0 [] 0))) = 0
  /\ audio_api (app (mkThread
       (mkAppState 1 1 AUDIO_API_WINMM false clip12 12 fresh10) 0 [] 0))
     <> AUDIO_API_WASAPI
  /\ saw_thread_should_exit (mkPass 0 [sender MSG_EXIT] willing) = 0
  /\ wakes (mkPass 0 [sender MSG_EXIT] willing) = sender MSG_EXIT :: []
  /\ exists t',
       audio_thread_loop 8 4 [mkPass 0 [sender MSG_EXIT] willing]
         (mkThread (mkAppState 1 1 AUDIO_API_WINMM false clip12 12 fresh10) 0 [] 0)
       = Left t'
       /\ calls t' = [] ++ [Sleep 10]
       /\ handled t' = 1%nat
       /\ same_flags t'
            (mkThread (mkAppState 1 1 AUDIO_API_WINMM false clip12 12 fresh10)
               0 [] 0)
       /\ queue_inv (message_buffer (app t'))
       /\ pending (message_buffer (app t')) = [].
Proof.
  assert (H1 : count (message_buffer (app (mkThread
                 (mkAppState 1 1 AUDIO_API_WINMM false clip12 12 fresh10)
                 0 [] 0))) = 0) by reflexivity.
  assert (H2 : audio_api (app (mkThread
                 (mkAppState 1 1 AUDIO_API_WINMM false clip12 12 fresh10)
                 0 [] 0)) <> AUDIO_API_WASAPI) by discriminate.
  assert (H3 : saw_thread_should_exit (mkPass 0 [sender MSG_EXIT] willing) = 0)
    by reflexivity.
  assert (H4 : wakes (mkPass 0 [sender MSG_EXIT] willing) = sender MSG_EXIT :: [])
    by reflexivity.
  split; [exact idle_thread_inv|]. split; [exact H1|]. split; [exact H2|].
  split; [exact H3|]. split; [exact H4|].
  exact (exit_message_ends_a_waiting_thread 8 4
           (mkPass 0 [sender MSG_EXIT] willing) []
           (mkThread (mkAppState 1 1 AUDIO_API_WINMM false clip12 12 fresh10)
              0 [] 0) [] idle_thread_inv H1 H2 H3 H4).
Defined.

End Shutdown.

(* ================================================================= *)
(** * The reader of the variant with 16384 bytes and its producer *)

Lemma Ahmad_read_loop_completes (BUFFER_SIZE nbytes room : Z) :
  0 < BUFFER_SIZE <= INT_MAX ->
  0 <= nbytes <= SIZE_MAX -> nbytes <= room ->
  forall (env : list Obs) (s : read_state) (stream : list byte),
    Forall (supplies BUFFER_SIZE) env ->
    stream_inv BUFFER_SIZE nbytes room stream s ->
    2 * (nbytes - bytes_read s) + (if size (r_buffer s) =? 0 then 1 else 0)
    < Z.of_nat (length env) ->
    exists s', loop (Ahmad_read_iter BUFFER_SIZE nbytes) env s = Finished s'
               /\ stream_inv BUFFER_SIZE nbytes room
                    (stream ++ during (Ahmad_read_iter BUFFER_SIZE nbytes)
                                 (Ahmad_arrived_at nbytes) env s) s'
               /\ bytes_read s' = nbytes.
Proof.
  intros Hcap Hn Hroom env.
  induction env as [|e env IH]; intros s stream Henv Hs Hfuel.
  - simpl in Hfuel. destruct (size (r_buffer s) =? 0); destruct Hs as (_ & ? & _); lia.
  - apply Forall_cons in Henv as [(Hkr & Hin & Hput & Hsome') Henv].
    rewrite length_cons in Hfuel. cbn [loop during].
    pose proof (Ahmad_read_iter_stream BUFFER_SIZE nbytes room stream e s Hcap
                  Hn Hroom Hin Hput Hs) as Hstep.
    pose proof Hs as (Hinvs & Hbr & Hlen & _).
    destruct (Z_lt_le_dec (bytes_read s) nbytes) as [Hlt|Hge].
    2:{ rewrite Ahmad_read_iter_agrees, read_iter_exit in * by lia.
        rewrite app_nil_r.
        exists s. split; [done|]. split; [done|lia]. }
    pose proof Hinvs as (_ & Hsz & _).
    destruct (Z.eqb_spec (size (r_buffer s)) 0) as [Hempty|Hsome].
    + rewrite Ahmad_read_iter_wait in * by done.
      rewrite app_assoc.
      apply IH; [done|done|]. simpl.
      specialize (Hsome' _ Hinvs).
      destruct (Z.eqb_spec (size (obs_wake e (r_buffer s))) 0); lia.
    + rewrite Ahmad_read_iter_agrees, read_iter_copy in * by (done || auto).
      destruct (read_copy_fetch BUFFER_SIZE Hcap nbytes s)
        as (b' & Hpass & _); try done; try lia.
      rewrite Hpass in *.
      rewrite app_assoc.
      apply IH; [done|done|]. simpl.
      destruct (size b' =? 0); lia.
Qed.

(** X28.  A read of that variant returns, with all [nbytes] bytes
    counted and the invariant kept, when the program keeps running and
    every wait at an empty buffer ends with bytes that the producer has
    put in; [2 * nbytes + 1] passes are enough.  The [nbytes] bytes in
    the destination are then the start of the stream: followed by what
    is still buffered, they are the bytes buffered at the start
    followed by the bytes the producer has put in during the waits. *)
Theorem Ahmad_read_completes_with_producer (BUFFER_SIZE : Z) (b : CircularBuffer)
    (dst : list byte) (nbytes : Z) (env : list Obs) :
  0 < BUFFER_SIZE <= INT_MAX ->
  buf_inv BUFFER_SIZE b ->
  0 <= nbytes <= INT_MAX -> nbytes <= len dst ->
  Forall (supplies BUFFER_SIZE) env ->
  2 * nbytes + 1 < Z.of_nat (length env) ->
  exists b' d,
    Ahmad_read_from_buffer BUFFER_SIZE b dst nbytes env = Finished (nbytes, b', d)
    /\ buf_inv BUFFER_SIZE b'
    /\ len d = len dst
    /\ sub d 0 nbytes ++ contents b'
       = contents b ++ Ahmad_arrived_during BUFFER_SIZE b dst nbytes env.
Proof.
  intros Hcap Hinv Hn Hdst Henv Hlen.
  pose proof INT_MAX_le_SIZE_MAX.
  destruct (Ahmad_read_loop_completes BUFFER_SIZE nbytes (len dst)
              Hcap ltac:(lia) Hdst env (mkRead b dst 0 []) (contents b) Henv
              (stream_inv_start BUFFER_SIZE nbytes b dst Hinv ltac:(lia)))
    as (s' & Hloop & (Hinv' & _ & Hlen' & _ & Heq) & Hall).
  { simpl. destruct (size b =? 0); lia. }
  unfold Ahmad_read_from_buffer, Ahmad_read_loop. rewrite Hloop, Hall.
  exists (r_buffer s'), (r_data s').
  rewrite to_int_small by lia. rewrite Hall in Heq. done.
Qed.

Lemma producer10_supplies : supplies 16 producer10.
Proof.
  split; [done|]. split; [done|].
  split; [apply writer_puts_in; unfold INT_MAX; lia|].
  intros b Hinv. simpl. unfold writer.
  pose proof Hinv as (_ & Hs & _).
  assert (Hten : len ten_bytes = 10) by reflexivity.
  rewrite Hten. change (0 <=? 10) with true. change (10 <=? 10) with true.
  destruct (Z.leb_spec 10 (16 - size b)); simpl; [|lia].
  destruct (write_loop_no_wait 16 capacity16 b ten_bytes 10
              [quiet (mkGlobals b 1 1); quiet (mkGlobals b 1 1)])
    as (b' & tr & -> & _ & Hsize & _); try done; try lia.
  simpl. lia.
Qed.

Lemma producers_supply (n : nat) : Forall (supplies 16) (replicate n producer10).
Proof. apply Forall_replicate, producer10_supplies. Qed.

Lemma Ahmad_read_completes_with_producer_witness :
  0 < 16 <= INT_MAX
  /\ buf_inv 16 ahead16
  /\ 0 <= 25 <= INT_MAX
  /\ 25 <= len (garbage 25)
  /\ Forall (supplies 16) (replicate 52 producer10)
  /\ 2 * 25 + 1 < Z.of_nat (length (replicate 52 producer10))
  /\ exists b' d,
       Ahmad_read_from_buffer 16 ahead16 (garbage 25) 25 (replicate 52 producer10)
       = Finished (25, b', d)
       /\ buf_inv 16 b'
       /\ len d = len (garbage 25)
       /\ sub d 0 25 ++ contents b'
          = contents ahead16
            ++ Ahmad_arrived_during 16 ahead16 (garbage 25) 25
                 (replicate 52 producer10).
Proof.
  assert (H1 : 0 <= 25 <= INT_MAX) by evaluate.
  assert (H2 : 25 <= len (garbage 25)) by evaluate.
  assert (H3 : 2 * 25 + 1 < Z.of_nat (length (replicate 52 producer10)))
    by (vm_compute; reflexivity).
  split; [exact capacity16|]. split; [exact ahead16_inv|].
  split; [exact H1|]. split; [exact H2|].
  split; [exact (producers_supply 52)|]. split; [exact H3|].
  exact (Ahmad_read_completes_with_producer 16 ahead16 (garbage 25) 25
           (replicate 52 producer10) capacity16 ahead16_inv H1 H2
           (producers_supply 52) H3).
Defined.

(** That call, run: it waits three times, each time the producer puts
    its 10 bytes in, and it returns the 4 bytes buffered at the start
    followed by 21 of those 30 bytes; the other 9 stay buffered. *)
Example Ahmad_read_with_three_waits :
  Ahmad_arrived_during 16 ahead16 (garbage 25) 25 (replicate 52 producer10)
  = ten_bytes ++ ten_bytes ++ ten_bytes
  /\ exists b',
       Ahmad_read_from_buffer 16 ahead16 (garbage 25) 25 (replicate 52 producer10)
       = Finished (25, b',
                   contents ahead16 ++ ten_bytes ++ ten_bytes ++ [x15])
       /\ contents b' = [x16; x17; x18; x19; x1a; x1b; x1c; x1d; x1e].
Proof. split; [|eexists; split]; vm_compute; reflexivity. Qed.
